(** * AI-Report: the document structure pipeline

    A shallow embedding of the report pipeline of the research assistant
    backend: the DOCX template parser ([buildHierarchy], the pattern based
    fallback of [parseDocxTemplate]), the response parser
    ([cleanGeneratedText], [detectFailure], [parseSectionContent]), the
    draft service ([updateDraftSection], [convertContentToProseMirror],
    [saveDraftContent]), the export service ([extractSectionText]) and the
    DOCX writer ([parseFormattedText], [parseMarkdownTable],
    [generateDocx]).

    JavaScript strings are sequences of UTF-16 code units; they are
    modelled as [list N], one number per code unit.  Every regular
    expression of the source is written out as the matcher it denotes. *)

From Stdlib Require Import ZArith NArith Ascii String List Bool Lia Sorted.
From stdpp Require Import gmap strings list fin_maps sorting.

Set Warnings "-register-all".

Local Open Scope N_scope.

(* ===================================================================== *)
(** * JavaScript strings                                                  *)
(* ===================================================================== *)

Abbreviation jsstring := (list N).

(** A string literal of the source, as code units. *)
Definition lit (s : string) : jsstring :=
  map N_of_ascii (list_ascii_of_string s).
Arguments lit s%_string.

Definition LF : N := 10.
Definition SPACE : N := 32.
Definition STAR : N := 42.
Definition PIPE : N := 124.
Definition DASH : N := 45.
Definition DOT : N := 46.
Definition COLON : N := 58.
Definition HASH : N := 35.

(** [\s] of a regular expression, and the characters [trim] removes:
    WhiteSpace and LineTerminator of the language. *)
Definition isWhiteSpace (c : N) : bool :=
  (c =? 9) || (c =? 10) || (c =? 11) || (c =? 12) || (c =? 13) ||
  (c =? 32) || (c =? 160) || (c =? 5760) ||
  ((8192 <=? c) && (c <=? 8202)) ||
  (c =? 8232) || (c =? 8233) || (c =? 8239) || (c =? 8287) ||
  (c =? 12288) || (c =? 65279).

(** Line terminators: where [^] matches under the [m] flag. *)
Definition isLineTerminator (c : N) : bool :=
  (c =? 10) || (c =? 13) || (c =? 8232) || (c =? 8233).

Definition isDigit (c : N) : bool := (48 <=? c) && (c <=? 57).
Definition isUpper (c : N) : bool := (65 <=? c) && (c <=? 90).
Definition isLower (c : N) : bool := (97 <=? c) && (c <=? 122).

(** [\w]: letters, digits and the underscore. *)
Definition isWord (c : N) : bool :=
  isUpper c || isLower c || isDigit c || (c =? 95).

(** Canonicalisation under the [i] flag, for a pattern of ASCII characters:
    a code unit above 127 never folds onto an ASCII one. *)
Definition canon (c : N) : N := if isLower c then c - 32 else c.
Definition ciEq (a b : N) : bool := canon a =? canon b.

Fixpoint takeWhile (p : N -> bool) (s : jsstring) : jsstring :=
  match s with
  | c :: s' => if p c then c :: takeWhile p s' else []
  | [] => []
  end.

Fixpoint dropWhile (p : N -> bool) (s : jsstring) : jsstring :=
  match s with
  | c :: s' => if p c then dropWhile p s' else s
  | [] => []
  end.

Definition trimStart (s : jsstring) : jsstring := dropWhile isWhiteSpace s.
Definition trimEnd (s : jsstring) : jsstring :=
  rev (dropWhile isWhiteSpace (rev s)).
(** [s.trim()] *)
Definition trim (s : jsstring) : jsstring := trimEnd (trimStart s).

(** [s.startsWith(p)], exact and under the [i] flag. *)
Fixpoint startsWith (p s : jsstring) : bool :=
  match p, s with
  | [], _ => true
  | a :: p', b :: s' => (a =? b) && startsWith p' s'
  | _ :: _, [] => false
  end.

Fixpoint startsWithCI (p s : jsstring) : bool :=
  match p, s with
  | [], _ => true
  | a :: p', b :: s' => ciEq a b && startsWithCI p' s'
  | _ :: _, [] => false
  end.

(** [s.includes(c)] for a one character string. *)
Definition includesChar (c : N) (s : jsstring) : bool :=
  existsb (N.eqb c) s.

(** [s.includes(p)] *)
Fixpoint includes (p s : jsstring) : bool :=
  startsWith p s ||
  match s with
  | [] => false
  | _ :: s' => includes p s'
  end.

(** [s.split(c)] for a one character separator. *)
Fixpoint splitChar (c : N) (s : jsstring) : list jsstring :=
  match s with
  | [] => [[]]
  | d :: s' =>
      if d =? c then [] :: splitChar c s'
      else match splitChar c s' with
           | p :: ps => (d :: p) :: ps
           | [] => [[d]]
           end
  end.

(** [s.split('\n\n')]: the separator occurrences are taken left to right
    and do not overlap. *)
Fixpoint splitBlank (s : jsstring) : list jsstring :=
  match s with
  | [] => [[]]
  | c :: s' =>
      match s' with
      | d :: s'' =>
          if (c =? LF) && (d =? LF) then [] :: splitBlank s''
          else match splitBlank s' with
               | p :: ps => (c :: p) :: ps
               | [] => [[c]]
               end
      | [] => [[c]]
      end
  end.

(** [parts.join(sep)] *)
Fixpoint join (sep : jsstring) (parts : list jsstring) : jsstring :=
  match parts with
  | [] => []
  | [p] => p
  | p :: ps => p ++ sep ++ join sep ps
  end.

Definition nonBlank (s : jsstring) : bool :=
  match trim s with [] => false | _ => true end.

Definition nonEmpty (s : jsstring) : bool :=
  match s with [] => false | _ => true end.

(** [text.replace(/\s+/g, ' ')]: every maximal run of white space becomes
    one space. *)
Fixpoint collapseSpaces (s : jsstring) : jsstring :=
  match s with
  | [] => []
  | c :: s' =>
      if isWhiteSpace c then
        match s' with
        | d :: _ => if isWhiteSpace d then collapseSpaces s'
                    else SPACE :: collapseSpaces s'
        | [] => [SPACE]
        end
      else c :: collapseSpaces s'
  end.

(** utils/helpers.js, [normalizeWhitespace] *)
Definition normalizeWhitespace (text : jsstring) : jsstring :=
  trim (collapseSpaces text).

(** The decimal digits of a number, as [String(n)] and a template literal
    print it. *)
Fixpoint decimalDigits (fuel : nat) (n : N) (acc : jsstring) : jsstring :=
  match fuel with
  | O => acc
  | S fuel' =>
      let acc' := (48 + n mod 10) :: acc in
      if n <? 10 then acc' else decimalDigits fuel' (n / 10) acc'
  end.

Definition numberToString (n : N) : jsstring :=
  decimalDigits (S (N.to_nat (N.log2 n))) n [].

(* ===================================================================== *)
(** * Inline emphasis: the pattern shared by the writer and the draft
      service                                                             *)
(* ===================================================================== *)

(** One match of the emphasis pattern, two stars around a run without
    stars or one star around such a run: the length of [match[0]] and the
    groups [match[2]] (bold) and [match[3]] (italic). *)
Record EmphasisMatch := {
  em_length : nat;
  em_bold : option jsstring;
  em_italic : option jsstring }.

Definition notStar (c : N) : bool := negb (c =? STAR).

(** The first alternative tried at the head of [s]: two stars, a run
    without stars, two stars.  The run is taken whole, up to the next
    star: a shorter run cannot be followed by a star. *)
Definition boldAt (s : jsstring) : option EmphasisMatch :=
  match s with
  | a :: b :: rest =>
      if (a =? STAR) && (b =? STAR) then
        let body := takeWhile notStar rest in
        match body, drop (length body) rest with
        | _ :: _, c :: d :: _ =>
            if (c =? STAR) && (d =? STAR)
            then Some {| em_length := 2 + length body + 2;
                         em_bold := Some body; em_italic := None |}
            else None
        | _, _ => None
        end
      else None
  | _ => None
  end.

(** The second alternative: one star, a run without stars, one star. *)
Definition italicAt (s : jsstring) : option EmphasisMatch :=
  match s with
  | a :: rest =>
      if a =? STAR then
        let body := takeWhile notStar rest in
        match body, drop (length body) rest with
        | _ :: _, c :: _ =>
            if c =? STAR
            then Some {| em_length := 1 + length body + 1;
                         em_bold := None; em_italic := Some body |}
            else None
        | _, _ => None
        end
      else None
  | [] => None
  end.

(** The pattern tried at the head of [s]: the bold alternative first, then
    the italic one. *)
Definition emphasisAt (s : jsstring) : option EmphasisMatch :=
  match boldAt s with
  | Some m => Some m
  | None => italicAt s
  end.

(** The search of [pattern.exec] over the suffix [s] that starts at index
    [i]: the first index at which the pattern matches. *)
Fixpoint emphasisSearch (s : jsstring) (i : nat) : option (nat * EmphasisMatch) :=
  match emphasisAt s with
  | Some m => Some (i, m)
  | None =>
      match s with
      | [] => None
      | _ :: s' => emphasisSearch s' (S i)
      end
  end.

(** [pattern.exec(text)] for the global pattern whose [lastIndex] is
    [from]. *)
Definition emphasisExec (text : jsstring) (from : nat) : option (nat * EmphasisMatch) :=
  if (from <=? length text)%nat
  then emphasisSearch (drop from text) from
  else None.

(** [text.substring(a, b)] for [a <= b]. *)
Definition substring (text : jsstring) (a b : nat) : jsstring :=
  take (b - a) (drop a text).

(** [if (match[2])]: a group that took part in the match and is not the
    empty string. *)
Definition truthyGroup (g : option jsstring) : option jsstring :=
  match g with
  | Some (c :: t) => Some (c :: t)
  | _ => None
  end.

(* ===================================================================== *)
(** * processors/docxWriter.js                                            *)
(* ===================================================================== *)

(** The objects of the docx library, with the options the writer sets. *)
Inductive HeadingLevel :=
| TITLE | HEADING_1 | HEADING_2 | HEADING_3 | HEADING_4 | HEADING_5 | HEADING_6.

Inductive AlignmentType := JUSTIFIED | LEFT | CENTER.

Record TextRun := {
  tr_text : jsstring;
  tr_bold : bool;
  tr_italics : bool }.

Inductive ParagraphChild :=
| Run (r : TextRun)
| PageBreak.

Record Spacing := { sp_before : option Z; sp_after : option Z }.
Record Indent := { in_left : Z; in_hanging : Z }.

Record Paragraph := {
  p_text : option jsstring;
  p_children : list ParagraphChild;
  p_heading : option HeadingLevel;
  p_alignment : option AlignmentType;
  p_spacing : option Spacing;
  p_indent : option Indent;
  p_bullet : option nat;
  p_bold : bool }.

Record TableCell := {
  cell_children : list Paragraph;
  cell_shading : option jsstring }.

Record TableRow := {
  row_children : list TableCell;
  row_tableHeader : bool }.

(** A child of the document section: a paragraph or a table (the width and
    the borders of a table are constants of [createTable]). *)
Inductive DocxElement :=
| EParagraph (p : Paragraph)
| ETable (rows : list TableRow).

(** [new TextRun(text)], [new TextRun({ text, bold: true })] and
    [new TextRun({ text, italics: true })] *)
Definition plainRun (t : jsstring) : TextRun :=
  {| tr_text := t; tr_bold := false; tr_italics := false |}.
Definition boldRun (t : jsstring) : TextRun :=
  {| tr_text := t; tr_bold := true; tr_italics := false |}.
Definition italicRun (t : jsstring) : TextRun :=
  {| tr_text := t; tr_bold := false; tr_italics := true |}.

(** [getDocxHeadingLevel]: [mapping[level] || HeadingLevel.HEADING_1] *)
Definition getDocxHeadingLevel (level : Z) : HeadingLevel :=
  if (level =? 1)%Z then HEADING_1
  else if (level =? 2)%Z then HEADING_2
  else if (level =? 3)%Z then HEADING_3
  else if (level =? 4)%Z then HEADING_4
  else if (level =? 5)%Z then HEADING_5
  else if (level =? 6)%Z then HEADING_6
  else HEADING_1.

(** The [while] loop of [parseFormattedText].  [patternLastIndex] is the
    [lastIndex] of the global pattern, [lastIndex] the local variable; the
    loop returns the runs and [lastIndex] when [exec] finds no match, and
    [None] only when the fuel is used up. *)
Fixpoint formattedLoop (fuel : nat) (text : jsstring)
    (patternLastIndex lastIndex : nat) (runs : list TextRun)
    : option (list TextRun * nat) :=
  match fuel with
  | O => None
  | S fuel' =>
      match emphasisExec text patternLastIndex with
      | None => Some (runs, lastIndex)
      | Some (index, m) =>
          let runs1 :=
            if (lastIndex <? index)%nat
            then runs ++ [plainRun (substring text lastIndex index)]
            else runs in
          let runs2 :=
            match truthyGroup (em_bold m) with
            | Some b => runs1 ++ [boldRun b]
            | None =>
                match truthyGroup (em_italic m) with
                | Some i => runs1 ++ [italicRun i]
                | None => runs1
                end
            end in
          formattedLoop fuel' text (index + em_length m) (index + em_length m) runs2
      end
  end.

(** [parseFormattedText]; the loop is given one step per character and one
    more, which it never uses up ([formattedLoop_total]). *)
Definition parseFormattedText (text : jsstring) : list TextRun :=
  match formattedLoop (S (length text)) text 0 0 [] with
  | Some (runs, lastIndex) =>
      let runs1 :=
        if (lastIndex <? length text)%nat
        then runs ++ [plainRun (drop lastIndex text)]
        else runs in
      if (length runs1 =? 0)%nat then [plainRun text] else runs1
  | None => []
  end.

(** The options of [createParagraph]. *)
Record ParagraphOptions := {
  po_alignment : option AlignmentType;
  po_spacing : option Spacing;
  po_indent : option Indent }.

Definition noOptions : ParagraphOptions :=
  {| po_alignment := None; po_spacing := None; po_indent := None |}.

Definition createParagraph (text : jsstring) (options : ParagraphOptions) : Paragraph :=
  {| p_text := None;
     p_children := map Run (parseFormattedText text);
     p_heading := None;
     p_alignment := Some (default JUSTIFIED (po_alignment options));
     p_spacing := Some (default {| sp_before := None; sp_after := Some 200%Z |}
                                (po_spacing options));
     p_indent := po_indent options;
     p_bullet := None;
     p_bold := false |}.

Definition createHeading (text : jsstring) (level : Z) : Paragraph :=
  {| p_text := Some text;
     p_children := [];
     p_heading := Some (getDocxHeadingLevel level);
     p_alignment := None;
     p_spacing := Some {| sp_before := Some 400%Z; sp_after := Some 200%Z |};
     p_indent := None;
     p_bullet := None;
     p_bold := false |}.

Record TableData := {
  headers : list jsstring;
  rows : list (list jsstring) }.

Definition createTable (tableData : TableData) : DocxElement :=
  let headerRow :=
    match headers tableData with
    | [] => []
    | hs =>
        [ {| row_children :=
               map (fun header =>
                      {| cell_children :=
                           [ {| p_text := Some header; p_children := [];
                                p_heading := None; p_alignment := None;
                                p_spacing := None; p_indent := None;
                                p_bullet := None; p_bold := true |} ];
                         cell_shading := Some (lit "E0E0E0") |}) hs;
             row_tableHeader := true |} ]
    end in
  let dataRows :=
    map (fun row =>
           {| row_children :=
                map (fun cell =>
                       {| cell_children :=
                            [ {| p_text := Some cell; p_children := [];
                                 p_heading := None; p_alignment := None;
                                 p_spacing := None; p_indent := None;
                                 p_bullet := None; p_bold := false |} ];
                          cell_shading := None |}) row;
              row_tableHeader := false |}) (rows tableData) in
  ETable (headerRow ++ dataRows).

(** The test [cell.match] of [parseRow]: a cell of dashes only. *)
Definition allDashes (cell : jsstring) : bool :=
  nonEmpty cell && forallb (N.eqb DASH) cell.

(** [parseRow] of [parseMarkdownTable] *)
Definition parseRow (line : jsstring) : list jsstring :=
  List.filter (fun cell => nonEmpty cell && negb (allDashes cell))
              (map trim (splitChar PIPE line)).

(** [parseMarkdownTable]; [None] is the [null] of the source. *)
Definition parseMarkdownTable (tableText : jsstring) : option TableData :=
  let lines := List.filter nonBlank (splitChar LF (trim tableText)) in
  match lines with
  | line0 :: line1 :: _ =>
      let dataStartIndex := if includesChar DASH line1 then 2%nat else 1%nat in
      Some {| headers := parseRow line0;
              rows := map parseRow (drop dataStartIndex lines) |}
  | _ => None
  end.

(** The list tests of [convertContentToDocx], anchored at the start of the
    paragraph: a dash or a star and a white space, or digits, a dot and a
    white space. *)
Definition startsBullet (s : jsstring) : bool :=
  match s with
  | a :: b :: _ => ((a =? DASH) || (a =? STAR)) && isWhiteSpace b
  | _ => false
  end.

Definition startsNumbered (s : jsstring) : bool :=
  match takeWhile isDigit s with
  | [] => false
  | ds =>
      match drop (length ds) s with
      | a :: b :: _ => (a =? DOT) && isWhiteSpace b
      | _ => false
      end
  end.

(** [item.replace] of the list branch: one leading dash, star, digit or dot
    and the white space after it. *)
Definition stripListMarker (item : jsstring) : jsstring :=
  match item with
  | a :: rest =>
      if (a =? DASH) || (a =? STAR) || isDigit a || (a =? DOT)
      then dropWhile isWhiteSpace rest
      else item
  | [] => []
  end.

Definition bulletParagraph (text : jsstring) : Paragraph :=
  {| p_text := None;
     p_children := map Run (parseFormattedText text);
     p_heading := None;
     p_alignment := None;
     p_spacing := Some {| sp_before := None; sp_after := Some 100%Z |};
     p_indent := None;
     p_bullet := Some 0%nat;
     p_bold := false |}.

(** The body of the loop of [convertContentToDocx] for one paragraph. *)
Definition convertParagraphToDocx (para : jsstring) : list DocxElement :=
  let trimmed := trim para in
  let asList :=
    if startsBullet trimmed || startsNumbered trimmed then
      flat_map (fun item =>
                  let text := trim (stripListMarker item) in
                  if nonEmpty text then [EParagraph (bulletParagraph text)] else [])
               (splitChar LF trimmed)
    else [EParagraph (createParagraph trimmed noOptions)] in
  if includesChar PIPE trimmed && (1 <? length (splitChar LF trimmed))%nat then
    match parseMarkdownTable trimmed with
    | Some tableData => [createTable tableData]
    | None => asList
    end
  else asList.

Definition convertContentToDocx (content : jsstring) : list DocxElement :=
  let paragraphs := List.filter nonBlank (splitBlank content) in
  fold_left (fun elements para => elements ++ convertParagraphToDocx para)
            paragraphs [].

(** The draft and the template as [generateDocx] reads them. *)
Record DraftSection := {
  templateSectionId : option jsstring;
  templateSectionTitle : jsstring;
  ds_content : jsstring }.

Record Reference := {
  formatted : option jsstring;
  rawText : option jsstring }.

Record ExportDraft := {
  sections : option (list DraftSection);
  references : option (list Reference) }.

Record TemplateSection := {
  ts_id : jsstring;
  ts_title : jsstring;
  ts_level : Z }.

Record ExportOptions := {
  opt_title : option jsstring;
  opt_includeReferences : option bool;
  opt_includeTableOfContents : option bool }.

Definition placeholderText : jsstring := lit "[Content not yet generated]".

(** [draft.sections?.find]: the first section with the id or the title of
    the template section. *)
Definition findDraftSection (draft : ExportDraft) (templateSection : TemplateSection)
    : option DraftSection :=
  match sections draft with
  | None => None
  | Some ss =>
      List.find (fun s =>
                   bool_decide (templateSectionId s = Some (ts_id templateSection)) ||
                   bool_decide (templateSectionTitle s = ts_title templateSection))
                ss
  end.

(** One turn of the loop over [template.structure]. *)
Definition exportSection (draft : ExportDraft) (children : list DocxElement)
    (templateSection : TemplateSection) : list DocxElement :=
  let draftSection := findDraftSection draft templateSection in
  let children1 :=
    children ++ [EParagraph (createHeading (ts_title templateSection)
                                           (ts_level templateSection))] in
  match draftSection with
  | Some s =>
      if nonEmpty (ds_content s)
      then children1 ++ convertContentToDocx (ds_content s)
      else children1 ++
           [EParagraph (createParagraph placeholderText
              {| po_alignment := Some LEFT; po_spacing := None; po_indent := None |})]
  | None =>
      children1 ++
      [EParagraph (createParagraph placeholderText
         {| po_alignment := Some LEFT; po_spacing := None; po_indent := None |})]
  end.

(** [formatted || rawText || `Reference ${i + 1}`] *)
Definition referenceText (ref : Reference) (i : nat) : jsstring :=
  match truthyGroup (formatted ref) with
  | Some t => t
  | None =>
      match truthyGroup (rawText ref) with
      | Some t => t
      | None => lit "Reference " ++ numberToString (N.of_nat (i + 1))
      end
  end.

Definition referenceParagraph (ref : Reference) (i : nat) : Paragraph :=
  {| p_text := None;
     p_children :=
       [Run (plainRun (lit "[" ++ numberToString (N.of_nat (i + 1)) ++ lit "] "
                       ++ referenceText ref i))];
     p_heading := None;
     p_alignment := None;
     p_spacing := Some {| sp_before := None; sp_after := Some 100%Z |};
     p_indent := Some {| in_left := 720; in_hanging := 720 |};
     p_bullet := None;
     p_bold := false |}.

(** The children of the one section of the document [generateDocx] packs
    (the page margins and the styles are constants; [Packer.toBuffer] is
    the library's). *)
Definition generateDocx (draft : ExportDraft) (structure : list TemplateSection)
    (options : ExportOptions) : list DocxElement :=
  let title := default (lit "Research Report") (opt_title options) in
  let includeReferences := default true (opt_includeReferences options) in
  let children0 :=
    [EParagraph {| p_text := Some title; p_children := [];
                   p_heading := Some TITLE; p_alignment := Some CENTER;
                   p_spacing := Some {| sp_before := None; sp_after := Some 400%Z |};
                   p_indent := None; p_bullet := None; p_bold := false |}] in
  let children1 := fold_left (exportSection draft) structure children0 in
  match references draft with
  | Some (r :: rs) =>
      if includeReferences then
        children1
        ++ [EParagraph {| p_text := None; p_children := [PageBreak];
                          p_heading := None; p_alignment := None;
                          p_spacing := None; p_indent := None;
                          p_bullet := None; p_bold := false |}]
        ++ [EParagraph (createHeading (lit "References") 1)]
        ++ imap (fun i ref => EParagraph (referenceParagraph ref i)) (r :: rs)
      else children1
  | _ => children1
  end.

(* ===================================================================== *)
(** * processors/docxParser.js                                            *)
(* ===================================================================== *)

(** A section of the flat structure, and the same with its parent. *)
Record Section := {
  sec_id : jsstring;
  sec_level : Z;
  sec_title : jsstring;
  sec_placeholder : option jsstring;
  sec_order : nat;
  sec_isTitle : bool }.

(** [{ ...section, parentId }] *)
Record SectionWithParent := {
  section : Section;
  parentId : option jsstring }.

(** The [while] loop of [buildHierarchy]: entries are popped while the top
    has a level at or above the level of the section.  The stack is a list
    whose head is the top. *)
Fixpoint popStack (stack : list (Z * jsstring)) (level : Z) : list (Z * jsstring) :=
  match stack with
  | (l, i) :: rest => if (level <=? l)%Z then popStack rest level else stack
  | [] => []
  end.

(** One turn of the [for] loop over the flat structure, on the pair of
    [result] and [stack]. *)
Definition hierarchyStep (st : list SectionWithParent * list (Z * jsstring))
    (s : Section) : list SectionWithParent * list (Z * jsstring) :=
  let stack := popStack (snd st) (sec_level s) in
  let parent := match stack with (_, i) :: _ => Some i | [] => None end in
  (fst st ++ [{| section := s; parentId := parent |}],
   (sec_level s, sec_id s) :: stack).

Definition buildHierarchy (flatStructure : list Section) : list SectionWithParent :=
  fst (fold_left hierarchyStep flatStructure ([], [])).

(** The placeholder pattern, two braces around an upper case letter and
    upper case letters, digits and underscores, tried at the head of [s]:
    the length of the match and the name. *)
Definition isPlaceholderChar (c : N) : bool :=
  isUpper c || isDigit c || (c =? 95).

Definition placeholderAt (s : jsstring) : option (nat * jsstring) :=
  match s with
  | a :: b :: c :: rest =>
      if (a =? 123) && (b =? 123) && isUpper c then
        let name := c :: takeWhile isPlaceholderChar rest in
        match drop (length name - 1) rest with
        | d :: e :: _ =>
            if (d =? 125) && (e =? 125)
            then Some ((2 + length name + 2)%nat, name)
            else None
        | _ => None
        end
      else None
  | _ => None
  end.

Fixpoint placeholderSearch (s : jsstring) (i : nat) : option (nat * (nat * jsstring)) :=
  match placeholderAt s with
  | Some m => Some (i, m)
  | None =>
      match s with
      | [] => None
      | _ :: s' => placeholderSearch s' (S i)
      end
  end.

Record PlaceholderMatch := {
  ph_full : jsstring;
  ph_name : jsstring;
  ph_index : nat }.

(** The loop of [extractPlaceholders] over the global pattern; [None] only
    when the fuel is used up. *)
Fixpoint placeholderLoop (fuel : nat) (text : jsstring) (patternLastIndex : nat)
    (placeholders : list PlaceholderMatch) : option (list PlaceholderMatch) :=
  match fuel with
  | O => None
  | S fuel' =>
      let found :=
        if (patternLastIndex <=? length text)%nat
        then placeholderSearch (drop patternLastIndex text) patternLastIndex
        else None in
      match found with
      | None => Some placeholders
      | Some (index, (len, name)) =>
          placeholderLoop fuel' text (index + len)
            (placeholders ++ [{| ph_full := substring text index (index + len);
                                 ph_name := name; ph_index := index |}])
      end
  end.

Definition extractPlaceholders (text : jsstring) : list PlaceholderMatch :=
  default [] (placeholderLoop (S (length text)) text 0 []).

(** The numbered heading test: digits, groups of a dot and digits, an
    optional dot, white space and an upper case letter.  [outlineRest] is
    given the text after the first digit and returns the text after the
    numeric prefix. *)
Fixpoint outlineRest (s : jsstring) : jsstring :=
  match s with
  | c :: s' =>
      if isDigit c then outlineRest s'
      else if c =? DOT then
        match s' with
        | d :: _ => if isDigit d then outlineRest s' else s'
        | [] => s'
        end
      else s
  | [] => []
  end.

Definition isNumberedHeading (s : jsstring) : bool :=
  match s with
  | c :: s' =>
      if isDigit c then
        match outlineRest s' with
        | w :: rest =>
            isWhiteSpace w &&
            match dropWhile isWhiteSpace rest with
            | u :: _ => isUpper u
            | [] => false
            end
        | [] => false
        end
      else false
  | [] => false
  end.

(** [(trimmed.match(/\./g) || []).length] *)
Definition dotCount (s : jsstring) : nat :=
  length (List.filter (N.eqb DOT) s).

(** The state of the fallback loop of [parseDocxTemplate]: the structure,
    the next [order] and the number of identifiers drawn so far from
    [generateId]. *)
Record FallbackState := {
  fb_structure : list Section;
  fb_order : nat;
  fb_ids : nat }.

(** One turn of the loop over the lines of the plain text; [generateId] is
    the supply of identifiers. *)
Definition fallbackLine (generateId : nat -> jsstring) (st : FallbackState)
    (line : jsstring) : FallbackState :=
  let trimmed := trim line in
  if (100 <? length trimmed)%nat then st
  else
    match extractPlaceholders trimmed with
    | ph :: _ =>
        {| fb_structure := fb_structure st ++
             [{| sec_id := generateId (fb_ids st); sec_level := 1;
                 sec_title := trimmed; sec_placeholder := Some (ph_name ph);
                 sec_order := fb_order st; sec_isTitle := false |}];
           fb_order := S (fb_order st);
           fb_ids := S (fb_ids st) |}
    | [] =>
        if isNumberedHeading trimmed then
          let level := Z.min (Z.of_nat (dotCount trimmed) + 1) 4 in
          {| fb_structure := fb_structure st ++
               [{| sec_id := generateId (fb_ids st); sec_level := level;
                   sec_title := trimmed; sec_placeholder := None;
                   sec_order := fb_order st; sec_isTitle := false |}];
             fb_order := S (fb_order st);
             fb_ids := S (fb_ids st) |}
        else st
    end.

(** The pattern based detection of [parseDocxTemplate], entered when no
    heading style gave a section: the flat structure found in the plain
    text. *)
Definition fallbackStructure (generateId : nat -> jsstring) (plainText : jsstring)
    : list Section :=
  let lines := List.filter nonBlank (splitChar LF plainText) in
  fb_structure
    (fold_left (fallbackLine generateId) lines
               {| fb_structure := []; fb_order := 1; fb_ids := 0 |}).

(** [parseDocxTemplate] on a document without heading styles: the
    structure with parents. *)
Definition parseTemplateFallback (generateId : nat -> jsstring) (plainText : jsstring)
    : list SectionWithParent :=
  buildHierarchy (fallbackStructure generateId plainText).

(* ===================================================================== *)
(** * ai/responseParser.js                                                *)
(* ===================================================================== *)

(** A pattern made of literal phrases under the [i] flag: its
    alternatives written out, in the order the pattern tries them. *)
Definition HALLUCINATION_MARKERS : list (list jsstring) :=
  [ [lit "I don't have access to"; lit "I don't have information about"];
    [lit "I cannot find"; lit "I cannot locate"; lit "I cannot access"];
    [lit "there is no information"; lit "there is no data";
     lit "there is no content"];
    [lit "I would need more information"; lit "I would need more context";
     lit "I would need more data"];
    [lit "I'm not sure"; lit "I'm not certain"; lit "I'm not able to confirm"];
    [lit "this may not be accurate"; lit "this might not be accurate";
     lit "this could not be accurate"];
    [lit "I cannot verify"];
    [lit "hypothetically"];
    [lit "I assume"];
    [lit "let me imagine"; lit "let me suppose"; lit "let me assume"] ].

Definition FAILURE_MARKERS : list (list jsstring) :=
  [ [lit "insufficient source content"];
    [lit "no relevant content found"; lit "no relevant information found"];
    [lit "unable to generate"; lit "unable to create"; lit "unable to write"];
    [lit "content not available"] ].

(** [text.match(pattern)[0]]: the text matched at the first index where an
    alternative of the pattern matches; [None] when [pattern.test(text)]
    is false. *)
Fixpoint matchPhrase (pattern : list jsstring) (text : jsstring) : option jsstring :=
  match List.find (fun alt => startsWithCI alt text) pattern with
  | Some alt => Some (take (length alt) text)
  | None =>
      match text with
      | [] => None
      | _ :: text' => matchPhrase pattern text'
      end
  end.

(** The opening fence: three backticks, word characters and one optional
    line feed, at the start of the text. *)
Definition stripOpeningFence (s : jsstring) : jsstring :=
  if startsWith (lit "```") s then
    match dropWhile isWord (drop 3 s) with
    | c :: r => if c =? LF then r else c :: r
    | [] => []
    end
  else s.

(** The closing fence: one optional line feed and three backticks at the
    very end of the text. *)
Definition stripClosingFence (s : jsstring) : jsstring :=
  let r := rev s in
  if startsWith (lit "```") r then
    match drop 3 r with
    | c :: r' => if c =? LF then rev r' else rev (c :: r')
    | [] => []
    end
  else s.

Definition PREAMBLES : list jsstring :=
  [lit "Here is"; lit "Here's"; lit "Below is"; lit "The following is"].

Definition notColon (c : N) : bool := negb (c =? COLON).

(** The preamble: one of the four openings at the start of the text, all
    the text up to the first colon, the colon and the white space after
    it. *)
Definition stripPreamble (s : jsstring) : jsstring :=
  match List.find (fun p => startsWithCI p s) PREAMBLES with
  | Some p =>
      let rest := drop (length p) s in
      match dropWhile notColon rest with
      | _ :: after => dropWhile isWhiteSpace after
      | [] => s
      end
  | None => s
  end.

Definition isHash (c : N) : bool := c =? HASH.
Definition isWordOrSpace (c : N) : bool := isWord c || isWhiteSpace c.

(** The index of the last line feed of [s] that is not its first
    character, counted from [i]. *)
Fixpoint lastLineFeed (s : jsstring) (i : nat) : option nat :=
  match s with
  | [] => None
  | c :: s' =>
      match lastLineFeed s' (S i) with
      | Some p => Some p
      | None => if (c =? LF) && (0 <? i)%nat then Some i else None
      end
  end.

(** The heading the model may have added: hashes at the start of the text,
    then white space, then word characters and white space, then line
    feeds.  The run of word characters and white space after the hashes is
    matched up to its last line feed, which must not be its first
    character. *)
Definition stripHeading (s : jsstring) : jsstring :=
  match s with
  | c :: _ =>
      if isHash c then
        let afterHashes := dropWhile isHash s in
        match lastLineFeed (takeWhile isWordOrSpace afterHashes) 0 with
        | Some p => drop (S p) afterHashes
        | None => s
        end
      else s
  | [] => []
  end.

Definition TRAILERS : list jsstring :=
  [lit "Note:"; lit "Please note:"; lit "I hope"; lit "Let me know";
   lit "Is there anything"].

Definition isLF (c : N) : bool := c =? LF.

(** The trailing explanations: the first run of line feeds that is
    followed by one of the five phrases, and everything after it. *)
Fixpoint stripTrailer (s : jsstring) : jsstring :=
  match s with
  | [] => []
  | c :: s' =>
      if isLF c && existsb (fun t => startsWithCI t (dropWhile isLF s')) TRAILERS
      then []
      else c :: stripTrailer s'
  end.

Definition blankLine : jsstring := [LF; LF].

(** The last step of [cleanGeneratedText]: the paragraphs are normalised,
    the empty ones dropped, and the rest joined again. *)
Definition normalizeParagraphs (s : jsstring) : jsstring :=
  trim (join blankLine
          (List.filter nonEmpty (map normalizeWhitespace (splitBlank s)))).

(** The four replacements of [cleanGeneratedText], in order. *)
Definition stripArtifacts (s : jsstring) : jsstring :=
  stripTrailer (stripHeading (stripPreamble (stripClosingFence (stripOpeningFence s)))).

Definition cleanGeneratedText (text : jsstring) : jsstring :=
  match text with
  | [] => []
  | _ => normalizeParagraphs (stripArtifacts text)
  end.

Record Hallucination := {
  detected : bool;
  markers : list jsstring }.

Definition detectHallucination (text : jsstring) : Hallucination :=
  let markers :=
    fold_left (fun markers pattern =>
                 match matchPhrase pattern text with
                 | Some m => markers ++ [m]
                 | None => markers
                 end)
              HALLUCINATION_MARKERS [] in
  {| detected := (0 <? length markers)%nat; markers := markers |}.

(** [detectFailure]: [Some reason] stands for [{ failed: true, reason }]
    and [None] for [{ failed: false }]. *)
Fixpoint detectFailureIn (patterns : list (list jsstring)) (text : jsstring)
    : option jsstring :=
  match patterns with
  | [] => None
  | pattern :: patterns' =>
      match matchPhrase pattern text with
      | Some reason => Some reason
      | None => detectFailureIn patterns' text
      end
  end.

Definition detectFailure (text : jsstring) : option jsstring :=
  detectFailureIn FAILURE_MARKERS text.

(** The number of pieces of [s.split] on the maximal runs of at least
    [atLeast] characters of the class [p], less one. *)
Fixpoint countRuns (p : N -> bool) (atLeast : nat) (s : jsstring) (run : nat) : nat :=
  match s with
  | [] => if (atLeast <=? run)%nat && (0 <? run)%nat then 1 else 0
  | c :: s' =>
      if p c then countRuns p atLeast s' (S run)
      else ((if (atLeast <=? run)%nat && (0 <? run)%nat then 1 else 0)
            + countRuns p atLeast s' 0)%nat
  end.

Record Metadata := {
  wordCount : nat;
  paragraphCount : nat;
  hasHallucinationMarkers : bool }.

(** The object [parseSectionContent] returns; a key the object does not
    have is [None]. *)
Record SectionContent := {
  sc_success : bool;
  sc_content : jsstring;
  sc_sectionTitle : jsstring;
  sc_error : option jsstring;
  sc_needsManualInput : option bool;
  sc_warnings : option (list jsstring);
  sc_metadata : option Metadata }.

Definition parseSectionContent (response sectionTitle : jsstring) : SectionContent :=
  let cleaned := cleanGeneratedText response in
  match detectFailure cleaned with
  | Some reason =>
      {| sc_success := false;
         sc_content := [];
         sc_sectionTitle := sectionTitle;
         sc_error := Some (lit "Could not generate content: " ++ reason);
         sc_needsManualInput := Some true;
         sc_warnings := None;
         sc_metadata := None |}
  | None =>
      let hallucination := detectHallucination cleaned in
      let isTooShort := (length cleaned <? 50)%nat in
      {| sc_success := negb isTooShort;
         sc_content := cleaned;
         sc_sectionTitle := sectionTitle;
         sc_error := None;
         sc_needsManualInput := None;
         sc_warnings := Some (
           (if detected hallucination
            then [lit "Potential uncertainty detected: "
                  ++ join (lit ", ") (markers hallucination)]
            else [])
           ++
           (if isTooShort
            then [lit "Generated content is very short. May need additional source material."]
            else []));
         sc_metadata := Some
           {| wordCount := S (countRuns isWhiteSpace 1 cleaned 0);
              paragraphCount := S (countRuns isLF 2 cleaned 0);
              hasHallucinationMarkers := detected hallucination |} |}
  end.

(* ===================================================================== *)
(** * services/draftService.js                                            *)
(* ===================================================================== *)

(** The nodes of the editor document. *)
Inductive Mark := bold | italic.

#[global] Instance Mark_eq_dec : EqDecision Mark.
Proof. solve_decision. Defined.

Record Attrs := {
  attr_id : option jsstring;
  attr_title : option jsstring;
  attr_level : option Z }.

Inductive PMNode :=
| PMText (text : jsstring) (marks : list Mark)
| PMElem (type : string) (attrs : option Attrs) (content : option (list PMNode)).

Definition noAttrs : Attrs :=
  {| attr_id := None; attr_title := None; attr_level := None |}.

(** [node.attrs?.id] *)
Definition nodeId (n : PMNode) : option jsstring :=
  match n with
  | PMElem _ (Some a) _ => attr_id a
  | _ => None
  end.

(** The [while] loop of [parseInlineFormatting]; see [formattedLoop]. *)
Fixpoint inlineLoop (fuel : nat) (text : jsstring)
    (patternLastIndex lastIndex : nat) (nodes : list PMNode)
    : option (list PMNode * nat) :=
  match fuel with
  | O => None
  | S fuel' =>
      match emphasisExec text patternLastIndex with
      | None => Some (nodes, lastIndex)
      | Some (index, m) =>
          let nodes1 :=
            if (lastIndex <? index)%nat
            then nodes ++ [PMText (substring text lastIndex index) []]
            else nodes in
          let nodes2 :=
            match truthyGroup (em_bold m) with
            | Some b => nodes1 ++ [PMText b [bold]]
            | None =>
                match truthyGroup (em_italic m) with
                | Some i => nodes1 ++ [PMText i [italic]]
                | None => nodes1
                end
            end in
          inlineLoop fuel' text (index + em_length m) (index + em_length m) nodes2
      end
  end.

Definition parseInlineFormatting (text : jsstring) : list PMNode :=
  match inlineLoop (S (length text)) text 0 0 [] with
  | Some (nodes, lastIndex) =>
      let nodes1 :=
        if (lastIndex <? length text)%nat
        then nodes ++ [PMText (drop lastIndex text) []]
        else nodes in
      if (length nodes1 =? 0)%nat then [PMText text []] else nodes1
  | None => []
  end.

Definition paragraphOf (inline : list PMNode) : PMNode :=
  PMElem "paragraph" None (Some inline).

(** [parseMarkdownTableToNodes] *)
Definition parseMarkdownTableToNodes (tableText : jsstring) : list PMNode :=
  let lines := List.filter nonBlank (splitChar LF (trim tableText)) in
  flat_map
    (fun '(i, line) =>
       if includes (lit "---") line then []
       else
         let cells := List.filter nonEmpty (map trim (splitChar PIPE line)) in
         let isHeader := (i =? 0)%nat in
         [PMElem "tableRow" None
            (Some (map (fun cell =>
                          PMElem (if isHeader then "tableHeader" else "tableCell")
                                 None
                                 (Some [paragraphOf [PMText cell []]]))
                       cells))])
    (imap (fun i line => (i, line)) lines).

(** The list tests of [convertContentToProseMirror], which carry the [m]
    flag: the pattern is tried at the start of every line. *)
Fixpoint anyLineStart (test : jsstring -> bool) (s : jsstring) (atStart : bool) : bool :=
  (atStart && test s) ||
  match s with
  | [] => false
  | c :: s' => anyLineStart test s' (isLineTerminator c)
  end.

Definition hasListLine (para : jsstring) : bool :=
  anyLineStart startsBullet para true || anyLineStart startsNumbered para true.

(** The body of the loop of [convertContentToProseMirror] for one
    paragraph. *)
Definition convertParagraphToNode (para : jsstring) : PMNode :=
  if includesChar PIPE para && (1 <? length (splitChar LF para))%nat then
    PMElem "table" (Some noAttrs) (Some (parseMarkdownTableToNodes para))
  else if hasListLine para then
    let listItems := List.filter nonBlank (splitChar LF para) in
    let isOrdered := match listItems with
                     | item :: _ => startsNumbered item
                     | [] => false
                     end in
    PMElem (if isOrdered then "orderedList" else "bulletList") None
      (Some (map (fun item =>
                    PMElem "listItem" None
                      (Some [paragraphOf [PMText (trim (stripListMarker item)) []]]))
                 listItems))
  else paragraphOf (parseInlineFormatting (trim para)).

Definition convertContentToProseMirror (content : jsstring) : list PMNode :=
  match content with
  | [] => []
  | _ =>
      let paragraphs := List.filter nonBlank (splitBlank content) in
      fold_left (fun nodes para => nodes ++ [convertParagraphToNode para])
                paragraphs []
  end.

(** Plain data as it is stored with a draft. *)
Inductive Json :=
| JNull
| JBool (b : bool)
| JString (s : jsstring)
| JArray (items : list Json).

(** A row of the table of drafts; the key of the table is the [id]. *)
Record Draft := {
  project_id : jsstring;
  version : Z;
  content : option PMNode;
  section_sources : option (gmap jsstring (gmap string Json)) }.

Record SourceRef := {
  documentId : jsstring;
  ref_sections : list jsstring }.

Record SectionData := {
  sd_templateSectionId : jsstring;
  sd_templateSectionTitle : jsstring;
  sd_content : jsstring;
  sd_sourceRefs : option (list SourceRef);
  sd_warnings : option (list jsstring) }.

(** A call either returns or throws an error with a message. *)
Inductive Outcome (A : Type) :=
| Returned (a : A)
| Thrown (message : string).
Arguments Returned {A} a.
Arguments Thrown {A} message.

(** [getDraftById]: the row with that key, if any. *)
Definition getDraftById (db : gmap jsstring Draft) (draftId : jsstring) : option Draft :=
  db !! draftId.

(** [getDraftByProject]: the row of the project with the highest
    version. *)
Definition getDraftByProject (db : gmap jsstring Draft) (projectId : jsstring)
    : option (jsstring * Draft) :=
  map_fold
    (fun id row best =>
       if bool_decide (project_id row = projectId) then
         match best with
         | Some (_, b) => if (version b <? version row)%Z then Some (id, row) else best
         | None => Some (id, row)
         end
       else best)
    None db.

(** [draft.content?.content || []] *)
Definition currentContentOf (draft : Draft) : list PMNode :=
  match content draft with
  | Some (PMElem _ _ (Some nodes)) => nodes
  | _ => []
  end.

(** The section node [updateDraftSection] builds. *)
Definition sectionNodeOf (sectionData : SectionData) : PMNode :=
  PMElem "section"
    (Some {| attr_id := Some (sd_templateSectionId sectionData);
             attr_title := Some (sd_templateSectionTitle sectionData);
             attr_level := None |})
    (Some (PMElem "heading"
             (Some {| attr_id := Some (sd_templateSectionId sectionData);
                      attr_title := None; attr_level := Some 1%Z |})
             (Some [PMText (sd_templateSectionTitle sectionData) []])
           :: convertContentToProseMirror (sd_content sectionData))).

(** The entry of [section_sources] that [updateDraftSection] writes;
    [now] is the reading of the clock. *)
Definition sourcesEntry (sectionData : SectionData) (now : jsstring) : gmap string Json :=
  {[ "sourceDocuments" :=
       JArray (map (fun r => JString (documentId r))
                   (default [] (sd_sourceRefs sectionData)));
     "sourceSections" :=
       JArray (flat_map (fun r => map JString (ref_sections r))
                        (default [] (sd_sourceRefs sectionData)));
     "aiGenerated" := JBool true;
     "warnings" := JArray (map JString (default [] (sd_warnings sectionData)));
     "generatedAt" := JString now ]}.

Section Clock.

(** The readings of [new Date().toISOString()], in the order they are
    taken; the functions below count them in [tick]. *)
Variable clock : nat -> jsstring.

(** [updateDraftSection], on the table of drafts. *)
Definition updateDraftSection
    (db : gmap jsstring Draft) (tick : nat)
    (draftId : jsstring) (sectionData : SectionData)
    : Outcome (gmap jsstring Draft * nat) :=
  match getDraftById db draftId with
  | None => Thrown "Draft not found"
  | Some draft =>
      let sectionNode := sectionNodeOf sectionData in
      let currentContent := currentContentOf draft in
      let existingIndex :=
        list_find (fun node => nodeId node = Some (sd_templateSectionId sectionData))
                  currentContent in
      let newContent :=
        match existingIndex with
        | Some (i, _) => <[i := sectionNode]> currentContent
        | None => currentContent ++ [sectionNode]
        end in
      let sectionSources :=
        <[sd_templateSectionId sectionData := sourcesEntry sectionData (clock tick)]>
          (default ∅ (section_sources draft)) in
      Returned
        (<[draftId := {| project_id := project_id draft;
                         version := version draft;
                         content := Some (PMElem "doc" None (Some newContent));
                         section_sources := Some sectionSources |}]> db,
         S tick)
  end.

(** One turn of the loop of [markSectionsAsEdited], on the pair of
    [updated] and the number of readings of the clock: the entry is copied
    with the two stamps. *)
Definition markEntry
    (st : gmap jsstring (gmap string Json) * nat)
    (entry : jsstring * gmap string Json)
    : gmap jsstring (gmap string Json) * nat :=
  (<[entry.1 := <["lastEditedAt" := JString (clock st.2)]>
                  (<["manuallyEdited" := JBool true]> entry.2)]> st.1,
   S st.2).

(** [markSectionsAsEdited], over the entries of the object; the clock is
    read once for each entry. *)
Definition markSectionsAsEdited
    (sectionSources : option (gmap jsstring (gmap string Json))) (tick : nat)
    : gmap jsstring (gmap string Json) * nat :=
  fold_left markEntry
            (map_to_list (default ∅ sectionSources))
            (∅, tick).

(** [saveDraftContent]: the row it returns, with the table and the
    clock. *)
Definition saveDraftContent
    (db : gmap jsstring Draft) (tick : nat)
    (projectId : jsstring) (newContent : option PMNode)
    : Outcome (Draft * gmap jsstring Draft * nat) :=
  match getDraftByProject db projectId with
  | None => Thrown "No draft found for this project"
  | Some (id, draft) =>
      let '(marked, tick') := markSectionsAsEdited (section_sources draft) tick in
      let data := {| project_id := project_id draft;
                     version := version draft;
                     content := newContent;
                     section_sources := Some marked |} in
      Returned (data, <[id := data]> db, tick')
  end.

End Clock.

(* ===================================================================== *)
(** * services/exportService.js                                           *)
(* ===================================================================== *)

(** [extractText] of [extractSectionText]: the parts it pushes for one
    node, in order. *)
Fixpoint extractText (n : PMNode) : list jsstring :=
  match n with
  | PMText text _ => [text]
  | PMElem type _ content =>
      if String.eqb type "text" then []
      else if String.eqb type "heading" then []
      else
        match content with
        | Some nodes =>
            flat_map extractText nodes
            ++ (if String.eqb type "paragraph" then [blankLine] else [])
        | None => []
        end
  end.

Definition extractSectionText (node : PMNode) : jsstring :=
  match node with
  | PMElem _ _ (Some nodes) => trim (concat (flat_map extractText nodes))
  | _ => []
  end.

(** [extractHeadingText] *)
Definition extractHeadingText (node : PMNode) : jsstring :=
  let headingNode :=
    match node with
    | PMElem _ _ (Some nodes) =>
        List.find (fun n => match n with
                            | PMElem type _ _ => String.eqb type "heading"
                            | PMText _ _ => false
                            end) nodes
    | _ => None
    end in
  match headingNode with
  | Some (PMElem _ _ (Some (PMText (c :: t) _ :: _))) => c :: t
  | _ => lit "Untitled Section"
  end.

(** [convertDraftForExport] *)
Definition convertDraftForExport (draft : Draft) (refs : option (list Reference))
    : ExportDraft :=
  {| sections :=
       Some (flat_map
               (fun node =>
                  match node with
                  | PMElem type attrs _ =>
                      if String.eqb type "section" || nonEmpty (default [] (nodeId node)) then
                        [{| templateSectionId := nodeId node;
                            templateSectionTitle :=
                              match truthyGroup (attrs ≫= attr_title) with
                              | Some t => t
                              | None => extractHeadingText node
                              end;
                            ds_content := extractSectionText node |}]
                      else []
                  | PMText _ _ => []
                  end)
               (currentContentOf draft));
     references := Some (default [] refs) |}.

(** ** ai/responseParser.js, the other parsers *)

Definition QUOTE : N := 34.
Definition PERCENT : N := 37.

(** The three patterns [parseMultiDocResponse] builds for the document
    [i]. *)
Definition sourcePatterns (i : nat) : list jsstring :=
  [ lit "Paper " ++ numberToString (N.of_nat i);
    lit "Study " ++ numberToString (N.of_nat i);
    lit "Document " ++ numberToString (N.of_nat i) ].

(** The inner loop: [pattern.test(cleaned)] for the three patterns, left
    at the first that matches. *)
Definition sourceIsReferenced (cleaned : jsstring) (i : nat) : bool :=
  existsb (fun pattern => bool_decide (is_Some (matchPhrase [pattern] cleaned)))
          (sourcePatterns i).

Record MultiDocMetadata := {
  md_sourcesReferenced : list nat;
  md_allSourcesUsed : bool;
  md_wordCount : nat }.

Record MultiDocResponse := {
  mr_success : bool;
  mr_content : jsstring;
  mr_warnings : list jsstring;
  mr_metadata : MultiDocMetadata }.

Definition parseMultiDocResponse (response : jsstring) (documentCount : nat)
    : MultiDocResponse :=
  let cleaned := cleanGeneratedText response in
  let sourceReferences :=
    fold_left (fun sourceReferences i =>
                 if sourceIsReferenced cleaned i
                 then sourceReferences ++ [i]
                 else sourceReferences)
              (seq 1 documentCount) [] in
  let allSourcesReferenced := (length sourceReferences =? documentCount)%nat in
  {| mr_success := true;
     mr_content := cleaned;
     mr_warnings :=
       if allSourcesReferenced then []
       else [lit "Only " ++ numberToString (N.of_nat (length sourceReferences))
             ++ lit " of " ++ numberToString (N.of_nat documentCount)
             ++ lit " sources were referenced"];
     mr_metadata :=
       {| md_sourcesReferenced := sourceReferences;
          md_allSourcesUsed := allSourcesReferenced;
          md_wordCount := S (countRuns isWhiteSpace 1 cleaned 0) |} |}.

(** The number pattern of [validateGrounding] tried at the head of [s]:
    digits, then a dot and digits if there are any, then a percent sign if
    there is one; the length of the match. *)
Definition numberAt (s : jsstring) : option nat :=
  match takeWhile isDigit s with
  | [] => None
  | ds =>
      let rest := drop (length ds) s in
      let fraction :=
        match rest with
        | d :: rest' =>
            if d =? DOT then
              match takeWhile isDigit rest' with
              | [] => 0%nat
              | fs => S (length fs)
              end
            else 0%nat
        | [] => 0%nat
        end in
      let percent :=
        match drop fraction rest with
        | p :: _ => if p =? PERCENT then 1%nat else 0%nat
        | [] => 0%nat
        end in
      Some (length ds + fraction + percent)%nat
  end.

(** [text.match(pattern) || []] for the global number pattern: the matches
    from left to right; [skip] characters belong to the match before. *)
Fixpoint numberMatches (s : jsstring) (skip : nat) : list jsstring :=
  match s with
  | [] => []
  | _ :: s' =>
      match skip with
      | S k => numberMatches s' k
      | O =>
          match numberAt s with
          | Some len => take len s :: numberMatches s' (len - 1)
          | None => numberMatches s' 0
          end
      end
  end.

Definition COMMON_NUMBERS : list jsstring :=
  [lit "1"; lit "2"; lit "3"; lit "4"; lit "5"; lit "10"; lit "100"].

Record Grounding := {
  isGrounded : bool;
  gr_warnings : list jsstring }.

Definition validateGrounding (generatedContent sourceContent : jsstring) : Grounding :=
  let generatedNumbers := numberMatches generatedContent 0 in
  let sourceNumbers := numberMatches sourceContent 0 in
  let warnings :=
    fold_left (fun warnings num =>
                 if bool_decide (num ∈ COMMON_NUMBERS) then warnings
                 else if bool_decide (num ∈ sourceNumbers) then warnings
                 else warnings ++ [lit "Number " ++ [QUOTE] ++ num ++ [QUOTE]
                                   ++ lit " in generated content may not be in source"])
              generatedNumbers [] in
  {| isGrounded := (length warnings =? 0)%nat; gr_warnings := warnings |}.

(** ** processors/docxParser.js, [validateTemplate] *)

(** What [parseDocxTemplate] resolves to. *)
Record ParsedTemplate := {
  pt_success : bool;
  pt_warnings : list jsstring;
  pt_structure : list SectionWithParent;
  pt_plainText : jsstring;
  pt_htmlPreview : jsstring }.

(** What [validateTemplate] resolves to; a key the object does not have is
    [None]. *)
Record TemplateValidation := {
  tv_valid : bool;
  tv_errors : list jsstring;
  tv_structure : option (list SectionWithParent);
  tv_warnings : option (list jsstring) }.

(** [structure.filter(s => s.placeholder).map(s => s.placeholder)] *)
Definition placeholdersOf (structure : list SectionWithParent) : list jsstring :=
  omap (fun s => truthyGroup (sec_placeholder (section s))) structure.

(** [placeholders.indexOf(p)]; [None] stands for -1. *)
Definition indexOf (placeholders : list jsstring) (p : jsstring) : option nat :=
  fst <$> list_find (fun q => q = p) placeholders.

(** [placeholders.filter((p, i) => placeholders.indexOf(p) !== i)] *)
Definition duplicatesOf (placeholders : list jsstring) : list jsstring :=
  flat_map (fun '(i, p) =>
              if bool_decide (indexOf placeholders p = Some i) then [] else [p])
           (imap (fun i p => (i, p)) placeholders).

(** [[...new Set(duplicates)]]: the values in the order they first
    appear. *)
Definition distinctValues (duplicates : list jsstring) : list jsstring :=
  fold_left (fun seen p => if bool_decide (p ∈ seen) then seen else seen ++ [p])
            duplicates [].

(** [validateTemplate], given what [parseDocxTemplate] did with the
    buffer. *)
Definition validateTemplate (parsed : Outcome ParsedTemplate) : TemplateValidation :=
  match parsed with
  | Thrown message =>
      {| tv_valid := false;
         tv_errors := [lit "Validation failed: " ++ lit message];
         tv_structure := None; tv_warnings := None |}
  | Returned result =>
      if negb (pt_success result) then
        {| tv_valid := false;
           tv_errors := [lit "Could not parse the DOCX file"];
           tv_structure := None; tv_warnings := None |}
      else
        let errors1 :=
          if (length (pt_structure result) =? 0)%nat
          then [lit "No sections detected in template. Add headings or placeholders."]
          else [] in
        let placeholders := placeholdersOf (pt_structure result) in
        let duplicates := duplicatesOf placeholders in
        let errors2 :=
          if (0 <? length duplicates)%nat
          then errors1 ++ [lit "Duplicate placeholders found: "
                           ++ join (lit ", ") (distinctValues duplicates)]
          else errors1 in
        {| tv_valid := (length errors2 =? 0)%nat;
           tv_errors := errors2;
           tv_structure := Some (pt_structure result);
           tv_warnings := Some (pt_warnings result) |}
  end.

(* ===================================================================== *)
(** * utils/helpers.js, the other helpers                                 *)
(* ===================================================================== *)

Definition UNDERSCORE : N := 95.

(** [Math.ceil(a / b)] for two natural numbers. *)
Definition ceilDiv (a b : nat) : nat := ((a + (b - 1)) / b)%nat.

(** [text.replace] with a global pattern made of one character class and
    [+]: every maximal run of characters of the class [p] becomes the one
    character [r]. *)
Fixpoint replaceRuns (p : N -> bool) (r : N) (s : jsstring) : jsstring :=
  match s with
  | [] => []
  | c :: s' =>
      if p c then
        match s' with
        | d :: _ => if p d then replaceRuns p r s' else r :: replaceRuns p r s'
        | [] => [r]
        end
      else c :: replaceRuns p r s'
  end.

(** [truncateText]; [maxLength] is [None] when the argument is left
    out. *)
Definition truncateText (text : jsstring) (maxLength : option Z) : jsstring :=
  let maxLength := default 100%Z maxLength in
  if negb (nonEmpty text) || (Z.of_nat (length text) <=? maxLength)%Z then text
  else take (Z.to_nat (maxLength - 3)) text ++ lit "...".

(** [s.lastIndexOf(c)] for a one character string, counted from [i];
    [None] stands for -1. *)
Fixpoint lastIndexOf (c : N) (s : jsstring) (i : nat) : option nat :=
  match s with
  | [] => None
  | d :: s' =>
      match lastIndexOf c s' (S i) with
      | Some j => Some j
      | None => if d =? c then Some i else None
      end
  end.

Definition getFilenameWithoutExtension (filename : jsstring) : jsstring :=
  match lastIndexOf DOT filename 0 with
  | Some (S i) => take (S i) filename
  | _ => filename
  end.

(** [calculateReadingTime]: the pieces of the trimmed text between runs of
    white space, 200 to the minute. *)
Definition calculateReadingTime (text : jsstring) : nat :=
  let words := S (countRuns isWhiteSpace 1 (trim text) 0) in
  ceilDiv words 200.

(** A promise settles: it is resolved with a value or rejected with an
    error. *)
Inductive Settled (A E : Type) :=
| Resolved (a : A)
| Rejected (e : E).
Arguments Resolved {A E} a.
Arguments Rejected {A E} e.

(** The [for] loop of [retryWithBackoff].  [fn attempt] is what the call
    of [fn] in the turn [attempt] settles to; the loop returns what the
    function settles to, the number of calls of [fn] and the delays it
    slept, in order.  [lastError] starts undefined, [None]. *)
Fixpoint retryLoop {A E : Type} (fn : nat -> Settled A E)
    (maxRetries : nat) (baseDelay : N) (remaining attempt : nat)
    (lastError : option E) (sleeps : list N)
    : Settled A (option E) * nat * list N :=
  match remaining with
  | O => (Rejected lastError, attempt, sleeps)
  | S remaining' =>
      match fn attempt with
      | Resolved a => (Resolved a, S attempt, sleeps)
      | Rejected error =>
          let sleeps' :=
            if (attempt <? maxRetries - 1)%nat
            then sleeps ++ [baseDelay * 2 ^ N.of_nat attempt]
            else sleeps in
          retryLoop fn maxRetries baseDelay remaining' (S attempt) (Some error) sleeps'
      end
  end.

Definition retryWithBackoff {A E : Type} (fn : nat -> Settled A E)
    (maxRetries : option nat) (baseDelay : option N)
    : Settled A (option E) * nat * list N :=
  let maxRetries := default 3%nat maxRetries in
  let baseDelay := default 1000 baseDelay in
  retryLoop fn maxRetries baseDelay maxRetries 0 None [].

Section CaseMapping.

(** [String.prototype.toLowerCase], which follows the case mappings of
    Unicode; the functions below are read for any such function. *)
Variable toLowerCase : jsstring -> jsstring.

(** [getFileExtension] *)
Definition getFileExtension (filename : jsstring) : jsstring :=
  let parts := splitChar DOT filename in
  if (1 <? length parts)%nat then toLowerCase (List.last parts []) else [].

Definition isSlugSeparator (c : N) : bool :=
  isWhiteSpace c || (c =? UNDERSCORE) || (c =? DASH).

Definition isDash (c : N) : bool := c =? DASH.

(** [slugify]: the special characters are removed, the runs of white
    space, underscores and hyphens become one hyphen, and the hyphens at
    the two ends are removed. *)
Definition slugify (text : jsstring) : jsstring :=
  let lowered := trim (toLowerCase text) in
  let kept := List.filter (fun c => isWord c || isWhiteSpace c || (c =? DASH)) lowered in
  let hyphenated := replaceRuns isSlugSeparator DASH kept in
  rev (dropWhile isDash (rev (dropWhile isDash hyphenated))).

Definition isLowerOrDigit (c : N) : bool := isLower c || isDigit c.

(** services/exportService.js, [generateExportFilename]: the value of
    [sanitized]. *)
Definition sanitized (projectName : jsstring) : jsstring :=
  let underscored :=
    replaceRuns (fun c => negb (isLowerOrDigit c)) UNDERSCORE (toLowerCase projectName) in
  let withoutLeading :=
    match underscored with
    | c :: rest => if c =? UNDERSCORE then rest else underscored
    | [] => []
    end in
  let withoutTrailing :=
    match rev withoutLeading with
    | c :: rest => if c =? UNDERSCORE then rev rest else withoutLeading
    | [] => []
    end in
  take 50 withoutTrailing.

(** [generateExportFilename]; [now] is [new Date().toISOString()]. *)
Definition generateExportFilename (projectName now : jsstring) : jsstring :=
  let timestamp := hd [] (splitChar 84 now) in
  sanitized projectName ++ lit "_" ++ timestamp ++ lit ".docx".

End CaseMapping.

(** ** ai/geminiClient.js and ai/promptBuilder.js: the size of a prompt *)

Definition MAX_INPUT_TOKENS : N := 900000.

(** [Math.ceil(text.length / 4)] *)
Definition estimateTokens (text : jsstring) : N :=
  if nonEmpty text then (N.of_nat (length text) + 3) / 4 else 0.

Definition fitsInContext (text : jsstring) : bool :=
  estimateTokens text <? MAX_INPUT_TOKENS.

Record Truncation := {
  tc_text : jsstring;
  tc_truncated : bool;
  tc_originalTokens : option N;
  tc_newTokens : option N }.

Definition truncationMark : jsstring :=
  [LF; LF] ++ lit "[... Content truncated for length ...]" ++ [LF; LF].

Definition truncateForContext (text : jsstring) (maxTokens : option N) : Truncation :=
  let maxTokens := default 500000 maxTokens in
  let currentTokens := estimateTokens text in
  if currentTokens <=? maxTokens then
    {| tc_text := text; tc_truncated := false;
       tc_originalTokens := None; tc_newTokens := None |}
  else
    let targetChars := maxTokens * 4 in
    let halfTarget := N.to_nat (targetChars / 2) in
    let beginning := take halfTarget text in
    let ending := drop (length text - halfTarget) text in
    let truncatedText := beginning ++ truncationMark ++ ending in
    {| tc_text := truncatedText; tc_truncated := true;
       tc_originalTokens := Some currentTokens;
       tc_newTokens := Some (estimateTokens truncatedText) |}.

(** ** services/draftService.js, [createDraft] *)

(** [createDraft].  The table is keyed by the id of the row, so the insert
    is refused when the id is taken; [generateId] is the supply of
    identifiers and [ids] the number of identifiers drawn so far.  The
    column [references] of the new row is the empty list: it is not part
    of [Draft], which [convertDraftForExport] is given apart. *)
Definition createDraft (generateId : nat -> jsstring)
    (db : gmap jsstring Draft) (ids : nat) (projectId : jsstring)
    : Outcome (Draft * gmap jsstring Draft * nat) :=
  let draftId := generateId ids in
  let existingDraft := getDraftByProject db projectId in
  let version :=
    match existingDraft with
    | Some (_, existing) => (version existing + 1)%Z
    | None => 1%Z
    end in
  match db !! draftId with
  | Some _ => Thrown "Failed to create draft: duplicate key value"
  | None =>
      let draft := {| project_id := projectId;
                      version := version;
                      content := Some (PMElem "doc" None (Some []));
                      section_sources := Some ∅ |} in
      Returned (draft, <[draftId := draft]> db, S ids)
  end.

(** ** routes/drafts.js, the list of sections *)

(** A value read as a condition: [null], [false] and the empty string
    count as false. *)
Definition truthyJson (v : Json) : bool :=
  match v with
  | JNull => false
  | JBool b => b
  | JString s => nonEmpty s
  | JArray _ => true
  end.

Record SectionSummary := {
  ss_id : jsstring;
  ss_title : jsstring;
  ss_hasContent : bool;
  ss_warnings : Json }.

(** The [sections] of the route [GET /project/:projectId/sections], from
    the draft [getDraftByProject] returned. *)
Definition listSections (draft : Draft) : list SectionSummary :=
  flat_map
    (fun node =>
       match truthyGroup (nodeId node), node with
       | Some id, PMElem _ attrs nodeContent =>
           [{| ss_id := id;
               ss_title := default (lit "Untitled") (truthyGroup (attrs ≫= attr_title));
               ss_hasContent :=
                 match nodeContent with
                 | Some nodes => (1 <? length nodes)%nat
                 | None => false
                 end;
               ss_warnings :=
                 match default ∅ (section_sources draft) !! id ≫= (.!! "warnings") with
                 | Some w => if truthyJson w then w else JArray []
                 | None => JArray []
                 end |}]
       | _, _ => []
       end)
    (currentContentOf draft).

(* ===================================================================== *)
(** * services/templateService.js and services/projectService.js         *)
(* ===================================================================== *)

(** The standard section names and their aliases, in the order of the
    object literal. *)
Definition sectionAliases : list (jsstring * list jsstring) :=
  [ (lit "introduction",
     [lit "introduction"; lit "background"; lit "overview"; lit "preamble"]);
    (lit "literature_review",
     [lit "literature"; lit "related work"; lit "prior work"; lit "background"]);
    (lit "methods",
     [lit "method"; lit "methodology"; lit "materials"; lit "approach"; lit "procedure"]);
    (lit "results", [lit "result"; lit "finding"; lit "outcome"; lit "analysis"]);
    (lit "discussion", [lit "discussion"; lit "interpretation"; lit "implications"]);
    (lit "conclusion", [lit "conclusion"; lit "summary"; lit "concluding"]) ].

(** A source document, as far as the mapping reads it:
    [extracted_content?.sections]. *)
Record SourceDocument := {
  extracted_sections : option (gmap jsstring Json) }.

Record SourceMapping := {
  sm_type : jsstring;
  sm_sourceSections : list jsstring;
  sm_sourceDocuments : list jsstring }.

Record MappingEntry := {
  me_templateSectionId : jsstring;
  me_templateSectionTitle : jsstring;
  me_sourceMapping : SourceMapping;
  me_instructions : jsstring;
  me_targetLength : jsstring }.

Section TemplateService.

Variable toLowerCase : jsstring -> jsstring.

(** The keys of the sections of all documents. *)
Definition availableSectionsOf (documents : list SourceDocument) : gset jsstring :=
  fold_left (fun available doc => available ∪ dom (default ∅ (extracted_sections doc)))
            documents ∅.

(** The inner loop of [buildDefaultSectionMapping]: the first standard
    name one of whose aliases occurs in the title or in the placeholder and
    which some document has. *)
Definition matchSourceSection (availableSections : gset jsstring)
    (templateSection : SectionWithParent) : option jsstring :=
  let sectionName := toLowerCase (sec_title (section templateSection)) in
  let placeholder := toLowerCase <$> sec_placeholder (section templateSection) in
  fst <$>
    List.find
      (fun '(key, aliases) =>
         existsb (fun alias =>
                    includes alias sectionName ||
                    match placeholder with
                    | Some p => includes alias p
                    | None => false
                    end)
                 (key :: aliases)
         && bool_decide (key ∈ availableSections))
      sectionAliases.

Definition buildDefaultSectionMapping
    (structure : list SectionWithParent) (documents : list SourceDocument)
    : list MappingEntry :=
  let availableSections := availableSectionsOf documents in
  fold_left
    (fun mapping templateSection =>
       let matchedSourceSection := matchSourceSection availableSections templateSection in
       mapping ++
       [{| me_templateSectionId := sec_id (section templateSection);
           me_templateSectionTitle := sec_title (section templateSection);
           me_sourceMapping :=
             {| sm_type := match matchedSourceSection with
                           | Some _ => lit "auto"
                           | None => lit "manual"
                           end;
                sm_sourceSections := match matchedSourceSection with
                                     | Some key => [key]
                                     | None => []
                                     end;
                sm_sourceDocuments := [lit "all"] |};
           me_instructions := [];
           me_targetLength := lit "medium" |}])
    structure [].

End TemplateService.

(** [updateProject]: the fields a request may change. *)
Definition allowedFields : list string :=
  ["name"; "section_mapping"; "global_instructions"; "document_order"].

Definition filteredUpdatesOf (updates : gmap string Json) : gmap string Json :=
  fold_left (fun filteredUpdates field =>
               match updates !! field with
               | Some value => <[field := value]> filteredUpdates
               | None => filteredUpdates
               end)
            allowedFields ∅.

(** [.eq('user_id', userId)] on a row. *)
Definition ownedBy (row : gmap string Json) (userId : jsstring) : bool :=
  match row !! "user_id" with
  | Some (JString owner) => bool_decide (owner = userId)
  | _ => false
  end.

(** [updateProject], on the table of projects, whose rows are read as
    objects; the row is found by its id and its [user_id], and the update
    is refused when there is none. *)
Definition updateProject (projects : gmap jsstring (gmap string Json))
    (projectId userId : jsstring) (updates : gmap string Json)
    : Outcome (gmap string Json * gmap jsstring (gmap string Json)) :=
  let filteredUpdates := filteredUpdatesOf updates in
  if (size filteredUpdates =? 0)%nat then Thrown "No valid fields to update"
  else
    match projects !! projectId with
    | Some row =>
        if ownedBy row userId then
          let data := filteredUpdates ∪ row in
          Returned (data, <[projectId := data]> projects)
        else Thrown "Failed to update project: no row"
    | None => Thrown "Failed to update project: no row"
    end.

(* MARK: end of definitions *)

(* ===================================================================== *)
(** * Views used to state the properties                                  *)
(* ===================================================================== *)

(** What a run of either inline parser carries: its text and whether it is
    marked bold and italic. *)
Definition runOfTextRun (r : TextRun) : jsstring * bool * bool :=
  (tr_text r, tr_bold r, tr_italics r).

Definition runOfNode (n : PMNode) : jsstring * bool * bool :=
  match n with
  | PMText t ms => (t, bool_decide (bold ∈ ms), bool_decide (italic ∈ ms))
  | PMElem _ _ _ => ([], false, false)
  end.

Definition isTextNode (n : PMNode) : Prop :=
  match n with PMText _ _ => True | PMElem _ _ _ => False end.

(** The parent the hierarchy should name: the id of the nearest section
    before, of a strictly lower level.  [before] holds the sections before,
    the nearest first. *)
Fixpoint nearestLower (before : list Section) (level : Z) : option jsstring :=
  match before with
  | s :: rest =>
      if (sec_level s <? level)%Z then Some (sec_id s)
      else nearestLower rest level
  | [] => None
  end.

(** The section an id names: the first one of the structure with that
    id. *)
Definition findById (out : list SectionWithParent) (i : jsstring)
    : option SectionWithParent :=
  List.find (fun x => bool_decide (sec_id (section x) = i)) out.

(** The chain of ancestors of [x], the parent first, followed up to a
    section without a parent; [None] when an id names no section or the
    chain is longer than [fuel]. *)
Fixpoint ancestors (fuel : nat) (out : list SectionWithParent)
    (x : SectionWithParent) : option (list SectionWithParent) :=
  match parentId x with
  | None => Some []
  | Some p =>
      match fuel with
      | O => None
      | S fuel' =>
          match findById out p with
          | None => None
          | Some a => cons a <$> ancestors fuel' out a
          end
      end
  end.

Definition levelOf (x : SectionWithParent) : Z := sec_level (section x).
Definition idOf (x : SectionWithParent) : jsstring := sec_id (section x).

(** Every section of the chain has a strictly lower level than the one
    before it. *)
Fixpoint strictlyDecreasing (chain : list SectionWithParent) : Prop :=
  match chain with
  | a :: rest =>
      match rest with
      | b :: _ => (levelOf b < levelOf a)%Z
      | [] => True
      end /\ strictlyDecreasing rest
  | [] => True
  end.

Definition stackTop (stack : list (Z * jsstring)) : option jsstring :=
  match stack with (_, i) :: _ => Some i | [] => None end.

(** A phrase occurs in a text, whatever the case of its letters. *)
Fixpoint containsCI (phrase text : jsstring) : bool :=
  startsWithCI phrase text ||
  match text with
  | [] => false
  | _ :: text' => containsCI phrase text'
  end.

(** Two texts of the same length that differ in the case of letters
    only. *)
Definition equalCI (a b : jsstring) : bool :=
  (length a =? length b)%nat && startsWithCI a b.

(** An entry of [section_sources] with the two stamps of a manual edit. *)
Definition stampEdited (now : jsstring) (value : gmap string Json) : gmap string Json :=
  <["lastEditedAt" := JString now]> (<["manuallyEdited" := JBool true]> value).

(** [entry.manuallyEdited], read as a condition: an absent key is
    [undefined], which counts as false. *)
Definition isManuallyEdited (entry : gmap string Json) : bool :=
  match entry !! "manuallyEdited" with
  | Some (JBool true) => true
  | _ => false
  end.

(** A text with no white space at either end. *)
Definition edgeFree (t : jsstring) : Prop :=
  (forall c t', t = c :: t' -> isWhiteSpace c = false) /\
  (forall t' c, t = t' ++ [c] -> isWhiteSpace c = false).

Definition allSpace (s : jsstring) : Prop :=
  Forall (fun c => isWhiteSpace c = true) s.

(** The words of a text: its maximal runs of characters that are not white
    space. *)
Fixpoint words (s : jsstring) : list jsstring :=
  match s with
  | [] => []
  | c :: s' =>
      if isWhiteSpace c then words s'
      else
        match s' with
        | d :: _ =>
            if isWhiteSpace d then [c] :: words s'
            else match words s' with
                 | w :: r => (c :: w) :: r
                 | [] => [[c]]
                 end
        | [] => [[c]]
        end
  end.

(** A word: not empty, without white space. *)
Definition isWordText (w : jsstring) : Prop :=
  w <> [] /\ Forall (fun c => isWhiteSpace c = false) w.

Definition startsWithSpace (s : jsstring) : bool :=
  match s with c :: _ => isWhiteSpace c | [] => false end.

Fixpoint endsWithSpace (s : jsstring) : bool :=
  match s with
  | [] => false
  | c :: s' => match s' with [] => isWhiteSpace c | _ :: _ => endsWithSpace s' end
  end.

(** A normalised paragraph: words joined by single spaces, at least
    one. *)
Definition tidy (p : jsstring) : Prop :=
  exists ws, ws <> [] /\ Forall isWordText ws /\ p = join [SPACE] ws.

(** A row as it would be read if only the empty cells at the two edges,
    left by the leading and the trailing pipe, were dropped. *)
Definition dropEmptyEdges (cells : list jsstring) : list jsstring :=
  let cells1 := match cells with [] :: rest => rest | _ => cells end in
  match rev cells1 with
  | [] :: rest => rev rest
  | _ => cells1
  end.

Definition parseRowKeepingInterior (line : jsstring) : list jsstring :=
  dropEmptyEdges (map trim (splitChar PIPE line)).

(** A separator line of a table: dashes, colons, pipes and white space
    only, with a dash. *)
Definition isSeparatorLine (line : jsstring) : bool :=
  includesChar DASH line &&
  forallb (fun c => (c =? DASH) || (c =? COLON) || (c =? PIPE) || isWhiteSpace c) line.

(** Sample inputs. *)
Definition preambleTwice : jsstring := lit "Here is a: Here is b: c".

Definition sampleResponse : jsstring :=
  lit "Here is the summary:  Results   show" ++ [LF; LF; LF]
  ++ lit "  steady growth. ".

Definition tableAB : jsstring :=
  lit "| A | B |" ++ [LF] ++ lit "| --- | --- |" ++ [LF] ++ lit "| 1 | 2 |".

Definition tableWithGap : jsstring :=
  lit "| A | B | C |" ++ [LF] ++ lit "| --- | --- | --- |" ++ [LF]
  ++ lit "| 1 |  | 3 |".

Definition tableWithoutSeparator : jsstring :=
  lit "| A | B |" ++ [LF] ++ lit "| x-y | 2 |".

(** The numeric prefix of a numbered heading: the digits, the groups of a
    dot and digits and the optional dot the pattern matches before the
    white space. *)
Definition outlinePrefix (s : jsstring) : jsstring :=
  match s with
  | _ :: s' => take (length s - length (outlineRest s')) s
  | [] => []
  end.

(** The text after the numeric prefix. *)
Definition afterOutlinePrefix (s : jsstring) : jsstring :=
  match s with
  | _ :: s' => outlineRest s'
  | [] => []
  end.

(** A supply of identifiers for the examples. *)
Definition sampleIds (n : nat) : jsstring :=
  lit "id-" ++ numberToString (N.of_nat n).

(** A section heading of the export: a paragraph with one of the six
    heading levels (the title of the document has the style [TITLE]). *)
Definition isHeadingElement (e : DocxElement) : bool :=
  match e with
  | EParagraph p =>
      match p_heading p with
      | Some TITLE => false
      | Some _ => true
      | None => false
      end
  | ETable _ => false
  end.

(** The text and the level of the section headings, in order. *)
Definition headingsOf (out : list DocxElement) : list (option jsstring * option HeadingLevel) :=
  flat_map (fun e =>
              match e with
              | EParagraph p => if isHeadingElement e then [(p_text p, p_heading p)] else []
              | ETable _ => []
              end) out.

(** The paragraph that stands for a section without content. *)
Definition placeholderParagraph : DocxElement :=
  EParagraph (createParagraph placeholderText
                {| po_alignment := Some LEFT; po_spacing := None; po_indent := None |}).

Definition isPlaceholderElement (e : DocxElement) : bool :=
  match e with
  | EParagraph p =>
      match p_alignment p, p_children p with
      | Some LEFT, [Run r] => bool_decide (tr_text r = placeholderText)
      | _, _ => false
      end
  | ETable _ => false
  end.

(** The template section has a draft section with content. *)
Definition populated (draft : ExportDraft) (ts : TemplateSection) : bool :=
  match findDraftSection draft ts with
  | Some s => nonEmpty (ds_content s)
  | None => false
  end.

(** What follows the heading of a template section. *)
Definition sectionBody (draft : ExportDraft) (ts : TemplateSection) : list DocxElement :=
  match findDraftSection draft ts with
  | Some s => if nonEmpty (ds_content s) then convertContentToDocx (ds_content s)
              else [placeholderParagraph]
  | None => [placeholderParagraph]
  end.

(** The export ends with a list of references. *)
Definition emitsReferences (draft : ExportDraft) (options : ExportOptions) : bool :=
  match references draft with
  | Some (_ :: _) => default true (opt_includeReferences options)
  | _ => false
  end.

Definition count {A} (f : A -> bool) (l : list A) : nat := length (List.filter f l).

(** The heading and the body [generateDocx] emits for a template
    section. *)
Definition sectionBlock (draft : ExportDraft) (ts : TemplateSection) : list DocxElement :=
  EParagraph (createHeading (ts_title ts) (ts_level ts)) :: sectionBody draft ts.

(** A template of five sections and a draft with content for three of
    them, no references. *)
Definition sampleTemplate : list TemplateSection :=
  [ {| ts_id := lit "s1"; ts_title := lit "Introduction"; ts_level := 1 |};
    {| ts_id := lit "s2"; ts_title := lit "Background"; ts_level := 2 |};
    {| ts_id := lit "s3"; ts_title := lit "Methods"; ts_level := 1 |};
    {| ts_id := lit "s4"; ts_title := lit "Results"; ts_level := 1 |};
    {| ts_id := lit "s5"; ts_title := lit "Discussion"; ts_level := 1 |} ].

Definition sampleDraft : ExportDraft :=
  {| sections := Some
       [ {| templateSectionId := Some (lit "s1");
            templateSectionTitle := lit "Introduction";
            ds_content := lit "We study **growth**." |};
         {| templateSectionId := Some (lit "s3");
            templateSectionTitle := lit "Methods";
            ds_content := lit "- survey" ++ [LF] ++ lit "- interviews" |};
         {| templateSectionId := None;
            templateSectionTitle := lit "Results";
            ds_content := lit "Growth was steady." |};
         {| templateSectionId := Some (lit "s5");
            templateSectionTitle := lit "Discussion";
            ds_content := [] |} ];
     references := Some [] |}.

Definition defaultOptions : ExportOptions :=
  {| opt_title := None; opt_includeReferences := None;
     opt_includeTableOfContents := None |}.

(** The node names the section [sid]. *)
Definition hasId (sid : jsstring) (n : PMNode) : bool :=
  bool_decide (nodeId n = Some sid).

(** The nodes of [updateDraftSection] after its search: the section node
    takes the place of the first node with its id, or comes last. *)
Definition upsertNode (sid : jsstring) (node : PMNode) (nodes : list PMNode) : list PMNode :=
  match list_find (fun n => nodeId n = Some sid) nodes with
  | Some (i, _) => <[i := node]> nodes
  | None => nodes ++ [node]
  end.

(** A table with one draft that holds a section for the id [s1], and two
    generation results for that id. *)
Definition firstResult : SectionData :=
  {| sd_templateSectionId := lit "s1";
     sd_templateSectionTitle := lit "Introduction";
     sd_content := lit "A first **draft**.";
     sd_sourceRefs := Some [{| documentId := lit "doc-1"; ref_sections := [lit "Abstract"] |}];
     sd_warnings := Some [lit "Generated content is very short."] |}.

Definition secondResult : SectionData :=
  {| sd_templateSectionId := lit "s1";
     sd_templateSectionTitle := lit "Introduction";
     sd_content := lit "A second draft." ++ [LF; LF] ++ lit "With two paragraphs.";
     sd_sourceRefs := None;
     sd_warnings := None |}.

Definition sampleClock (t : nat) : jsstring :=
  lit "2024-01-01T00:00:0" ++ numberToString (N.of_nat t) ++ lit ".000Z".

Definition sampleDraftRow : Draft :=
  {| project_id := lit "project-1";
     version := 1;
     content := Some (PMElem "doc" None
                        (Some [PMElem "section"
                                 (Some {| attr_id := Some (lit "s0");
                                          attr_title := Some (lit "Abstract");
                                          attr_level := None |})
                                 (Some []);
                               PMElem "section"
                                 (Some {| attr_id := Some (lit "s1");
                                          attr_title := Some (lit "Introduction");
                                          attr_level := None |})
                                 (Some [paragraphOf [PMText (lit "Old text.") []]]);
                               PMElem "section"
                                 (Some {| attr_id := Some (lit "s2");
                                          attr_title := Some (lit "Methods");
                                          attr_level := None |})
                                 (Some [])]));
     section_sources :=
       Some {[ lit "s1" :=
                 {[ "aiGenerated" := JBool true;
                    "manuallyEdited" := JBool true;
                    "warnings" := JArray [] ]} ;
               lit "s2" :=
                 {[ "aiGenerated" := JBool true;
                    "warnings" := JArray [JString (lit "short")] ]} ]} |}.

Definition sampleDb : gmap jsstring Draft :=
  {[ lit "draft-1" := sampleDraftRow ]}.

(** A flat structure with distinct ids. *)
Definition sampleSection (i : string) (level : Z) (order : nat) : Section :=
  {| sec_id := lit i; sec_level := level; sec_title := lit i;
     sec_placeholder := None; sec_order := order; sec_isTitle := false |}.

Definition sampleStructure : list Section :=
  [ sampleSection "a" 1 1; sampleSection "b" 2 2; sampleSection "c" 3 3;
    sampleSection "d" 2 4; sampleSection "e" 1 5 ].

Definition failedResponse : jsstring :=
  lit "Here is the section: I was UNABLE to generate this part.".

(** A text of plain paragraphs: no star, no pipe, and no line that starts
    as a list item. *)
Definition plainParagraphs (text : jsstring) : Prop :=
  includesChar STAR text = false /\
  includesChar PIPE text = false /\
  hasListLine text = false.

Definition samplePlainText : jsstring :=
  lit "  Growth was   steady. " ++ [LF; LF; LF] ++ lit "It slowed in 2020."
  ++ [LF] ++ lit "Then it recovered." ++ [LF; LF].

(** One of the three ways the text may name the document [i]. *)
Definition mentionsSource (cleaned : jsstring) (i : nat) : Prop :=
  exists word, word ∈ [lit "Paper "; lit "Study "; lit "Document "] /\
               containsCI (word ++ numberToString (N.of_nat i)) cleaned = true.

(** A placeholder name as the pattern takes it: an upper case letter, then
    upper case letters, digits and underscores. *)
Definition isPlaceholderName (name : jsstring) : Prop :=
  exists c r, name = c :: r /\ isUpper c = true /\
              Forall (fun x => isPlaceholderChar x = true) r.

(** The invariants of a section the pattern based detection builds. *)
Definition fallbackSection (s : Section) : Prop :=
  (1 <= sec_level s <= 4)%Z /\
  sec_isTitle s = false /\
  (1 <= length (sec_title s) <= 100)%nat /\
  edgeFree (sec_title s) /\
  match sec_placeholder s with
  | Some name =>
      sec_level s = 1%Z /\
      exists ph rest, extractPlaceholders (sec_title s) = ph :: rest /\ ph_name ph = name
  | None =>
      extractPlaceholders (sec_title s) = [] /\
      isNumberedHeading (sec_title s) = true /\
      sec_level s = Z.min (Z.of_nat (dotCount (sec_title s)) + 1) 4
  end.

(** A match of the placeholder pattern in [text]. *)
Definition placeholderIn (text : jsstring) (m : PlaceholderMatch) : Prop :=
  ph_full m = lit "{{" ++ ph_name m ++ lit "}}" /\
  isPlaceholderName (ph_name m) /\
  substring text (ph_index m) (ph_index m + length (ph_full m)) = ph_full m.

Definition endsBefore (a b : PlaceholderMatch) : Prop :=
  (ph_index a + length (ph_full a) <= ph_index b)%nat.

Definition fallbackInvariant (generateId : nat -> jsstring) (st : FallbackState) : Prop :=
  Forall fallbackSection (fb_structure st) /\
  map sec_order (fb_structure st) = seq 1 (length (fb_structure st)) /\
  map sec_id (fb_structure st) = map generateId (seq 0 (length (fb_structure st))) /\
  fb_order st = S (length (fb_structure st)) /\
  fb_ids st = length (fb_structure st).

(** Two characters [r] next to each other. *)
Fixpoint adjacentPair (r : N) (s : jsstring) : bool :=
  match s with
  | x :: s' =>
      match s' with
      | y :: _ => ((x =? r) && (y =? r)) || adjacentPair r s'
      | [] => false
      end
  | [] => false
  end.

(** The ASCII case mapping, for the examples. *)
Definition asciiLower (s : jsstring) : jsstring :=
  map (fun c => if isUpper c then c + 32 else c) s.

Definition backoffDelay (baseDelay : N) (attempt : nat) : N :=
  baseDelay * 2 ^ N.of_nat attempt.

(** The export section [convertDraftForExport] makes of the section node
    of a generation result. *)
Definition exportedSection (d : SectionData) : DraftSection :=
  {| templateSectionId := Some (sd_templateSectionId d);
     templateSectionTitle :=
       match sd_templateSectionTitle d with
       | [] => lit "Untitled Section"
       | title => title
       end;
     ds_content := extractSectionText (sectionNodeOf d) |}.

(** The section [convertDraftForExport] makes of a node, if any. *)
Definition exportedNode (node : PMNode) : list DraftSection :=
  match node with
  | PMElem type attrs _ =>
      if String.eqb type "section" || nonEmpty (default [] (nodeId node)) then
        [{| templateSectionId := nodeId node;
            templateSectionTitle :=
              match truthyGroup (attrs ≫= attr_title) with
              | Some t => t
              | None => extractHeadingText node
              end;
            ds_content := extractSectionText node |}]
      else []
  | PMText _ _ => []
  end.

(** A run written back as the text it was read from: its text between the
    stars of its marking. *)
Definition renderMarked (run : jsstring * bool * bool) : jsstring :=
  match run with
  | (text, true, _) => lit "**" ++ text ++ lit "**"
  | (text, false, true) => lit "*" ++ text ++ lit "*"
  | (text, false, false) => text
  end.

(** A table of projects with one row, and a request that names one field
    of the list and two that are not in it. *)
Definition sampleProjectRow : gmap string Json :=
  {[ "user_id" := JString (lit "u1"); "name" := JString (lit "Old");
     "status" := JString (lit "draft") ]}.

Definition sampleProjects : gmap jsstring (gmap string Json) :=
  {[ lit "p1" := sampleProjectRow ]}.

Definition sampleProjectUpdates : gmap string Json :=
  {[ "name" := JString (lit "New"); "status" := JString (lit "exported");
     "user_id" := JString (lit "u2") ]}.

Definition sampleProjectData : gmap string Json :=
  <["name" := JString (lit "New")]> sampleProjectRow.

(** The cells both table parsers read from a line: its pieces between the
    pipes, trimmed, the empty ones left out. *)
Definition cellsOf (line : jsstring) : list jsstring :=
  List.filter nonEmpty (map trim (splitChar PIPE line)).

(** A row of the editor's table over given cells. *)
Definition tableRowNode (isHeader : bool) (cells : list jsstring) : PMNode :=
  PMElem "tableRow" None
    (Some (map (fun cell =>
                  PMElem (if isHeader then "tableHeader" else "tableCell")
                         None
                         (Some [paragraphOf [PMText cell []]]))
               cells)).

(* MARK: end of views *)

(* ===================================================================== *)
(** * The definitions at sample inputs                                    *)
(* ===================================================================== *)

Example parseFormattedText_sample :
  parseFormattedText (lit "a **b** and *c*!")
  = [plainRun (lit "a "); boldRun (lit "b"); plainRun (lit " and ");
     italicRun (lit "c"); plainRun (lit "!")].
Proof. vm_compute. reflexivity. Qed.

Example parseFormattedText_unclosed :
  parseFormattedText (lit "**a*") = [plainRun (lit "*"); italicRun (lit "a")].
Proof. vm_compute. reflexivity. Qed.

Example parseInlineFormatting_empty : parseInlineFormatting [] = [PMText [] []].
Proof. vm_compute. reflexivity. Qed.

Example normalizeWhitespace_sample :
  normalizeWhitespace (lit "  Hello    world" ++ [LF; LF; LF] ++ lit "test ")
  = lit "Hello world test".
Proof. vm_compute. reflexivity. Qed.

Example splitBlank_three_line_feeds :
  splitBlank (lit "a" ++ [LF; LF; LF] ++ lit "b") = [lit "a"; LF :: lit "b"].
Proof. vm_compute. reflexivity. Qed.

Example cleanGeneratedText_fenced :
  cleanGeneratedText (lit "```markdown" ++ [LF] ++ lit "Some   text." ++ [LF]
                      ++ lit "```")
  = lit "Some text.".
Proof. vm_compute. reflexivity. Qed.

Example cleanGeneratedText_trailer :
  cleanGeneratedText (lit "The result holds." ++ [LF; LF]
                      ++ lit "Let me know if you need more.")
  = lit "The result holds.".
Proof. vm_compute. reflexivity. Qed.

Example cleanGeneratedText_heading :
  cleanGeneratedText (lit "## Methods" ++ [LF; LF] ++ lit "We ran a survey.")
  = lit "We ran a survey.".
Proof. vm_compute. reflexivity. Qed.

Example detectFailure_sample :
  detectFailure (lit "Sorry: No Relevant Information found here")
  = Some (lit "No Relevant Information found").
Proof. vm_compute. reflexivity. Qed.

Example detectHallucination_sample :
  detectHallucination
    (lit "I cannot verify this claim, but the results show 42% improvement.")
  = {| detected := true; markers := [lit "I cannot verify"] |}.
Proof. vm_compute. reflexivity. Qed.

Example parseSectionContent_short :
  parseSectionContent (lit "Too short.") (lit "Results")
  = {| sc_success := false;
       sc_content := lit "Too short.";
       sc_sectionTitle := lit "Results";
       sc_error := None;
       sc_needsManualInput := None;
       sc_warnings := Some
         [lit "Generated content is very short. May need additional source material."];
       sc_metadata := Some {| wordCount := 2; paragraphCount := 1;
                              hasHallucinationMarkers := false |} |}.
Proof. vm_compute. reflexivity. Qed.

Example extractPlaceholders_sample :
  map (fun m => (ph_name m, ph_index m))
      (extractPlaceholders (lit "1. {{INTRO}} and {{RELATED_WORK_2}} {{bad}}"))
  = [(lit "INTRO", 3%nat); (lit "RELATED_WORK_2", 17%nat)].
Proof. vm_compute. reflexivity. Qed.

Example fallbackStructure_sample :
  map (fun x => (sec_title (section x), sec_level (section x),
                 sec_placeholder (section x), parentId x))
      (parseTemplateFallback sampleIds
         (lit "1. Introduction" ++ [LF] ++ lit "some body text" ++ [LF]
          ++ lit "1.1.1 Scope" ++ [LF] ++ lit "{{SUMMARY}}"))
  = [(lit "1. Introduction", 2%Z, None, None);
     (lit "1.1.1 Scope", 3%Z, None, Some (sampleIds 0));
     (lit "{{SUMMARY}}", 1%Z, Some (lit "SUMMARY"), None)].
Proof. vm_compute. reflexivity. Qed.

Example convertContentToProseMirror_sample :
  convertContentToProseMirror
    (lit "Intro *text*." ++ [LF; LF] ++ lit "1. one" ++ [LF] ++ lit "2. two"
     ++ [LF; LF] ++ lit "| A | B |" ++ [LF] ++ lit "| --- | --- |" ++ [LF]
     ++ lit "| 1 | 2 |")
  = [ paragraphOf [PMText (lit "Intro ") []; PMText (lit "text") [italic];
                   PMText (lit ".") []];
      PMElem "orderedList" None
        (Some [PMElem "listItem" None (Some [paragraphOf [PMText (lit ". one") []]]);
               PMElem "listItem" None (Some [paragraphOf [PMText (lit ". two") []]])]);
      PMElem "table" (Some noAttrs)
        (Some [PMElem "tableRow" None
                 (Some [PMElem "tableHeader" None (Some [paragraphOf [PMText (lit "A") []]]);
                        PMElem "tableHeader" None (Some [paragraphOf [PMText (lit "B") []]])]);
               PMElem "tableRow" None
                 (Some [PMElem "tableCell" None (Some [paragraphOf [PMText (lit "1") []]]);
                        PMElem "tableCell" None (Some [paragraphOf [PMText (lit "2") []]])])]) ].
Proof. vm_compute. reflexivity. Qed.

Example generateDocx_sample_headings :
  headingsOf (generateDocx sampleDraft sampleTemplate defaultOptions)
  = [(Some (lit "Introduction"), Some HEADING_1);
     (Some (lit "Background"), Some HEADING_2);
     (Some (lit "Methods"), Some HEADING_1);
     (Some (lit "Results"), Some HEADING_1);
     (Some (lit "Discussion"), Some HEADING_1)].
Proof. vm_compute. reflexivity. Qed.

Example updateDraftSection_missing_draft :
  updateDraftSection sampleClock sampleDb 0 (lit "draft-2") firstResult
  = Thrown "Draft not found".
Proof. vm_compute. reflexivity. Qed.

(* ===================================================================== *)
(** * Facts about strings                                                 *)
(* ===================================================================== *)

Lemma takeWhile_dropWhile p s : takeWhile p s ++ dropWhile p s = s.
Proof.
  induction s as [|c s IH]; simpl; [done|].
  destruct (p c); simpl; [by rewrite IH | done].
Qed.

Lemma takeWhile_all p s : Forall (fun c => p c = true) (takeWhile p s).
Proof.
  induction s as [|c s IH]; simpl; [constructor|].
  destruct (p c) eqn:E; [by constructor | constructor].
Qed.

Lemma dropWhile_head p s c r : dropWhile p s = c :: r -> p c = false.
Proof.
  induction s as [|d s IH]; simpl; [done|].
  destruct (p d) eqn:E; [done|]. intros; by simplify_eq.
Qed.

Lemma dropWhile_app_all p l r :
  Forall (fun c => p c = true) l -> dropWhile p (l ++ r) = dropWhile p r.
Proof.
  induction 1 as [|c l Hc _ IH]; simpl; [done|]. by rewrite Hc.
Qed.

Lemma dropWhile_stop p s :
  (forall c r, s = c :: r -> p c = false) -> dropWhile p s = s.
Proof.
  destruct s as [|c s]; simpl; [done|]. intros H.
  by rewrite (H c s eq_refl).
Qed.

Lemma dropWhile_nil p s :
  dropWhile p s = [] <-> Forall (fun c => p c = true) s.
Proof.
  induction s as [|c s IH]; simpl.
  - split; [constructor | done].
  - destruct (p c) eqn:E.
    + rewrite IH. split; [by constructor | by inversion 1].
    + split; [done | inversion 1; congruence].
Qed.

Lemma allSpace_nil : allSpace [].
Proof. constructor. Qed.

(** [trim] is determined by the white space it removes. *)
Lemma trim_unique lead t tail :
  allSpace lead -> allSpace tail -> edgeFree t ->
  trim (lead ++ t ++ tail) = t.
Proof.
  intros Hl Ht [Hhead Hlast]. unfold trim, trimStart, trimEnd.
  rewrite dropWhile_app_all by done.
  destruct t as [|c t'].
  - simpl. by rewrite (proj2 (dropWhile_nil isWhiteSpace tail) Ht).
  - assert (dropWhile isWhiteSpace ((c :: t') ++ tail) = (c :: t') ++ tail) as ->.
    { simpl. by rewrite (Hhead c t' eq_refl). }
    rewrite rev_app_distr.
    rewrite dropWhile_app_all by (by apply Forall_rev).
    rewrite dropWhile_stop; [apply rev_involutive|].
    intros d r Hr. apply (Hlast (rev r) d).
    rewrite <- (rev_involutive (c :: t')), Hr. reflexivity.
Qed.

Lemma trim_decompose s :
  exists lead tail,
    s = lead ++ trim s ++ tail /\ allSpace lead /\ allSpace tail /\
    edgeFree (trim s).
Proof.
  unfold trim, trimStart, trimEnd.
  set (x := dropWhile isWhiteSpace s).
  set (y := dropWhile isWhiteSpace (rev x)).
  exists (takeWhile isWhiteSpace s), (rev (takeWhile isWhiteSpace (rev x))).
  assert (Hx : x = rev y ++ rev (takeWhile isWhiteSpace (rev x))).
  { rewrite <- rev_app_distr. unfold y. rewrite takeWhile_dropWhile.
    by rewrite rev_involutive. }
  split; [|split; [|split]].
  - rewrite <- Hx. unfold x. by rewrite takeWhile_dropWhile.
  - apply takeWhile_all.
  - apply Forall_rev, takeWhile_all.
  - split.
    + intros c t' Hy.
      destruct x as [|d x'] eqn:Ex.
      { unfold y in Hy. simpl in Hy. done. }
      assert (d = c) as <-.
      { rewrite Hy in Hx. simpl in Hx. by simplify_eq. }
      eapply (dropWhile_head isWhiteSpace s). exact Ex.
    + intros t' c Hy.
      assert (y = c :: rev t') as Hy'.
      { rewrite <- (rev_involutive y), Hy, rev_app_distr. reflexivity. }
      eapply (dropWhile_head isWhiteSpace (rev x)). exact Hy'.
Qed.

Lemma trim_edgeFree s : edgeFree (trim s).
Proof. by destruct (trim_decompose s) as (? & ? & ? & ? & ? & ?). Qed.

Lemma trim_id t : edgeFree t -> trim t = t.
Proof.
  intros H. rewrite <- (trim_unique [] t [] allSpace_nil allSpace_nil H) at 2.
  simpl. by rewrite app_nil_r.
Qed.

Lemma trim_idem s : trim (trim s) = trim s.
Proof. apply trim_id, trim_edgeFree. Qed.

Lemma trim_nil_iff s : trim s = [] <-> allSpace s.
Proof.
  split.
  - intros H. destruct (trim_decompose s) as (lead & tail & Hs & Hl & Ht & _).
    rewrite H in Hs. simpl in Hs. rewrite Hs. by apply Forall_app.
  - intros H. rewrite <- (app_nil_r s).
    apply (trim_unique s [] [] H allSpace_nil).
    split; intros; [done | by destruct t'].
Qed.

Lemma nonBlank_false s : nonBlank s = false <-> allSpace s.
Proof.
  unfold nonBlank. rewrite <- trim_nil_iff.
  destruct (trim s); split; done.
Qed.

Lemma trim_chars s c : c ∈ trim s -> c ∈ s.
Proof.
  intros H. destruct (trim_decompose s) as (lead & tail & Hs & _).
  rewrite Hs. apply elem_of_app. right. apply elem_of_app. by left.
Qed.


(** ** Words and the normalisation of white space *)

Lemma words_cons c s' :
  words (c :: s') =
  if isWhiteSpace c then words s'
  else match s' with
       | d :: _ =>
           if isWhiteSpace d then [c] :: words s'
           else match words s' with
                | w :: r => (c :: w) :: r
                | [] => [[c]]
                end
       | [] => [[c]]
       end.
Proof. reflexivity. Qed.

Lemma words_allSpace s : allSpace s -> words s = [].
Proof.
  induction 1 as [|c s Hc _ IH]; [done|].
  by rewrite words_cons, Hc.
Qed.

Lemma words_nonspace_head c s :
  isWhiteSpace c = false -> exists w r, words (c :: s) = (c :: w) :: r.
Proof.
  intros Hc. rewrite words_cons, Hc.
  destruct s as [|d s]; [by exists [], []|].
  destruct (isWhiteSpace d); [by exists [], (words (d :: s))|].
  destruct (words (d :: s)) as [|w r]; [by exists [], [] | by exists w, r].
Qed.

Lemma words_nil s : words s = [] -> allSpace s.
Proof.
  induction s as [|c s IH]; [constructor|].
  destruct (isWhiteSpace c) eqn:Hc.
  - rewrite words_cons, Hc. intros H. constructor; [done | by apply IH].
  - destruct (words_nonspace_head c s Hc) as (w & r & ->). done.
Qed.

Lemma words_wordy s : Forall isWordText (words s).
Proof.
  induction s as [|c s IH]; [constructor|].
  rewrite words_cons. destruct (isWhiteSpace c) eqn:Hc; [done|].
  assert (isWordText [c]) as H1 by (split; [done | by repeat constructor]).
  destruct s as [|d s]; [by repeat constructor|].
  destruct (isWhiteSpace d); [by constructor|].
  destruct (words (d :: s)) as [|w r]; [by repeat constructor|].
  apply Forall_cons in IH as [[Hw1 Hw2] Hr].
  constructor; [|done]. split; [done | by constructor].
Qed.

Lemma words_app_sep a c b :
  isWhiteSpace c = true -> words (a ++ c :: b) = words a ++ words b.
Proof.
  intros Hc. induction a as [|x a IH].
  - cbn [app]. by rewrite words_cons, Hc.
  - change ((x :: a) ++ c :: b) with (x :: (a ++ c :: b)).
    rewrite (words_cons x (a ++ c :: b)), (words_cons x a).
    destruct (isWhiteSpace x); [exact IH|].
    destruct a as [|d a].
    + cbn [app] in *. rewrite Hc. by rewrite IH.
    + change ((d :: a) ++ c :: b) with (d :: (a ++ c :: b)) in *.
      destruct (isWhiteSpace d) eqn:Hd; rewrite ?Hd; [by rewrite IH|].
      rewrite IH.
      destruct (words_nonspace_head d a Hd) as (w & r & ->). done.
Qed.

Lemma words_app_lead l x : allSpace l -> words (l ++ x) = words x.
Proof.
  induction 1 as [|c l Hc _ IH]; [done|].
  change ((c :: l) ++ x) with (c :: (l ++ x)). by rewrite words_cons, Hc.
Qed.

Lemma words_app_tail x t : allSpace t -> words (x ++ t) = words x.
Proof.
  intros Ht. destruct Ht as [|c t Hc Ht]; [by rewrite app_nil_r|].
  rewrite words_app_sep by done.
  by rewrite (words_allSpace t Ht), app_nil_r.
Qed.

Lemma words_trim s : words (trim s) = words s.
Proof.
  destruct (trim_decompose s) as (lead & tail & Hs & Hl & Ht & _).
  rewrite Hs at 2. by rewrite words_app_lead, words_app_tail.
Qed.

Lemma words_word w : isWordText w -> words w = [w].
Proof.
  intros [Hne Hall]. induction Hall as [|c w Hc Hall IH]; [done|].
  rewrite words_cons, Hc. destruct w as [|d w]; [done|].
  inversion Hall as [|? ? Hd _]; subst. rewrite Hd.
  by rewrite IH.
Qed.

Lemma join_cons sep p q ps :
  join sep (p :: q :: ps) = p ++ sep ++ join sep (q :: ps).
Proof. reflexivity. Qed.

Lemma join_nonempty sep q ps : q <> [] -> join sep (q :: ps) <> [].
Proof.
  intros Hq. destruct ps; simpl; [done|].
  destruct q; [done|]. done.
Qed.

Lemma app_last_inv (a b t' : jsstring) (c : N) :
  a ++ b = t' ++ [c] -> b <> [] -> exists t'', b = t'' ++ [c].
Proof.
  intros H Hb. destruct (exists_last Hb) as (l' & x & ->).
  rewrite app_assoc in H. apply app_inj_tail in H as [_ ->]. by exists l'.
Qed.

Lemma words_join ws :
  Forall isWordText ws -> words (join [SPACE] ws) = ws.
Proof.
  induction 1 as [|w ws Hw Hws IH]; [done|].
  destruct ws as [|q ws]; [by apply words_word|].
  rewrite join_cons. change ([SPACE] ++ ?x) with (SPACE :: x).
  rewrite words_app_sep by done.
  by rewrite IH, (words_word w Hw).
Qed.

Lemma join_words_edgeFree ws :
  Forall isWordText ws -> edgeFree (join [SPACE] ws).
Proof.
  intros Hws. split.
  - intros c t' H. destruct Hws as [|w ws [Hne Hall] Hws]; [done|].
    destruct w as [|x w]; [done|].
    assert (c = x) as ->.
    { destruct ws; simpl in H; by simplify_eq. }
    by inversion Hall.
  - induction Hws as [|w ws [Hne Hall] Hws IH]; intros t' c H.
    + by destruct t'.
    + destruct ws as [|q ws].
      * simpl in H. rewrite H in Hall.
        apply Forall_app in Hall as [_ Hc]. by inversion Hc.
      * rewrite join_cons, app_assoc in H.
        apply app_last_inv in H as [t'' Ht].
        -- by apply (IH t'' c).
        -- apply join_nonempty. apply Forall_cons in Hws as [[Hq _] _]. done.
Qed.

Lemma collapseSpaces_cons c s' :
  collapseSpaces (c :: s') =
  if isWhiteSpace c then
    match s' with
    | d :: _ => if isWhiteSpace d then collapseSpaces s'
                else SPACE :: collapseSpaces s'
    | [] => [SPACE]
    end
  else c :: collapseSpaces s'.
Proof. reflexivity. Qed.

Lemma endsWithSpace_cons c d s :
  endsWithSpace (c :: d :: s) = endsWithSpace (d :: s).
Proof. reflexivity. Qed.

Lemma allSpace_endsWithSpace s :
  s <> [] -> allSpace s -> endsWithSpace s = true.
Proof.
  intros Hne Hs. induction Hs as [|c s Hc Hs IH]; [done|].
  destruct s as [|d s]; [done|]. rewrite endsWithSpace_cons. by apply IH.
Qed.

(** What [replace] leaves of a text: its words joined by single spaces,
    with one more space in front when the text starts with white space and
    one more at the end when it ends with white space. *)
Lemma collapseSpaces_words s :
  collapseSpaces s =
  (if startsWithSpace s then [SPACE] else [])
  ++ join [SPACE] (words s)
  ++ (if endsWithSpace s then match words s with [] => [] | _ => [SPACE] end else []).
Proof.
  induction s as [|c s IH]; [done|].
  rewrite collapseSpaces_cons, words_cons. unfold startsWithSpace at 1.
  destruct (isWhiteSpace c) eqn:Hc.
  - destruct s as [|d s]; [by simpl; rewrite Hc|].
    rewrite endsWithSpace_cons.
    rewrite IH. unfold startsWithSpace.
    destruct (isWhiteSpace d); done.
  - destruct s as [|d s]; [by simpl; rewrite Hc|].
    rewrite endsWithSpace_cons. rewrite IH. unfold startsWithSpace.
    destruct (isWhiteSpace d) eqn:Hd.
    + destruct (words (d :: s)) as [|w r] eqn:Ew.
      * apply words_nil in Ew.
        rewrite (allSpace_endsWithSpace (d :: s)) by done. done.
      * rewrite join_cons. by cbn [app].
    + destruct (words_nonspace_head d s Hd) as (w & r & Ew).
      rewrite Ew. destruct r; done.
Qed.

Lemma normalizeWhitespace_words s :
  normalizeWhitespace s = join [SPACE] (words s).
Proof.
  unfold normalizeWhitespace. rewrite collapseSpaces_words.
  apply trim_unique.
  - destruct (startsWithSpace s); by repeat constructor.
  - destruct (endsWithSpace s); [destruct (words s)|]; by repeat constructor.
  - apply join_words_edgeFree, words_wordy.
Qed.

Lemma normalizeWhitespace_idem s :
  normalizeWhitespace (normalizeWhitespace s) = normalizeWhitespace s.
Proof.
  rewrite !normalizeWhitespace_words.
  by rewrite (words_join _ (words_wordy s)).
Qed.

(** ** Paragraphs *)

Lemma splitBlank_cons_other c s' :
  (c =? LF) = false ->
  splitBlank (c :: s') =
  match splitBlank s' with
  | p :: ps => (c :: p) :: ps
  | [] => [[c]]
  end.
Proof.
  intros Hc. destruct s' as [|d s'']; [done|].
  cbn [splitBlank]. by rewrite Hc.
Qed.

Lemma splitBlank_cons_unfold c d s'' :
  splitBlank (c :: d :: s'') =
  if (c =? LF) && (d =? LF) then [] :: splitBlank s''
  else match splitBlank (d :: s'') with
       | p :: ps => (c :: p) :: ps
       | [] => [[c]]
       end.
Proof. reflexivity. Qed.

Lemma splitBlank_nonempty s : exists p ps, splitBlank s = p :: ps.
Proof.
  destruct s as [|c [|d s'']]; [by eexists _, _ ..|].
  rewrite splitBlank_cons_unfold.
  destruct (_ && _); [by eexists _, _|].
  destruct (splitBlank (d :: s'')); by eexists _, _.
Qed.

Lemma splitBlank_single p : LF ∉ p -> splitBlank p = [p].
Proof.
  induction p as [|c p IH]; [done|].
  intros [Hc Hp]%not_elem_of_cons.
  rewrite splitBlank_cons_other by (by apply N.eqb_neq).
  by rewrite IH.
Qed.

Lemma splitBlank_app p rest :
  LF ∉ p -> splitBlank (p ++ LF :: LF :: rest) = p :: splitBlank rest.
Proof.
  induction p as [|c p IH]; [done|].
  intros [Hc Hp]%not_elem_of_cons.
  change ((c :: p) ++ LF :: LF :: rest) with (c :: (p ++ LF :: LF :: rest)).
  rewrite splitBlank_cons_other by (by apply N.eqb_neq).
  by rewrite IH.
Qed.

Lemma splitBlank_join ps :
  ps <> [] -> Forall (fun p => LF ∉ p) ps ->
  splitBlank (join blankLine ps) = ps.
Proof.
  intros Hne Hall. induction Hall as [|p ps Hp Hall IH]; [done|].
  destruct ps as [|q ps]; [by apply splitBlank_single|].
  rewrite join_cons. unfold blankLine at 1. cbn [app].
  rewrite splitBlank_app by done. by rewrite IH.
Qed.

Lemma join_cons_head sep c p ps :
  join sep ((c :: p) :: ps) = c :: join sep (p :: ps).
Proof. by destruct ps. Qed.

Lemma join_splitBlank s : join blankLine (splitBlank s) = s.
Proof.
  remember (length s) as n eqn:Hn. revert s Hn.
  induction n as [n IH] using lt_wf_ind. intros s Hn.
  destruct s as [|c [|d s'']]; [done..|].
  rewrite splitBlank_cons_unfold.
  destruct ((c =? LF) && (d =? LF)) eqn:E.
  - apply andb_true_iff in E as [->%N.eqb_eq ->%N.eqb_eq].
    destruct (splitBlank_nonempty s'') as (q & qs & Eq).
    rewrite Eq, join_cons, <- Eq.
    rewrite (IH (length s'')); [done | simpl in Hn; lia | done].
  - destruct (splitBlank_nonempty (d :: s'')) as (q & qs & Eq).
    rewrite Eq, join_cons_head, <- Eq.
    rewrite (IH (length (d :: s''))); [done | simpl in *; lia | done].
Qed.

Lemma join_chars sep ps c :
  c ∈ join sep ps -> c ∈ sep \/ exists p, p ∈ ps /\ c ∈ p.
Proof.
  induction ps as [|p ps IH]; [by intros ?%elem_of_nil|].
  destruct ps as [|q ps].
  - intros H. right. exists p. split; [left | done].
  - rewrite join_cons. intros [H|[H|H]%elem_of_app]%elem_of_app.
    + right. exists p. split; [left | done].
    + by left.
    + destruct (IH H) as [?|(p' & Hp' & Hc)]; [by left|].
      right. exists p'. split; [by right | done].
Qed.

Lemma splitBlank_chars s p c : p ∈ splitBlank s -> c ∈ p -> c ∈ s.
Proof.
  intros Hp Hc. rewrite <- (join_splitBlank s).
  clear -Hp Hc. induction (splitBlank s) as [|q qs IH]; [by apply elem_of_nil in Hp|].
  destruct qs as [|r qs].
  - apply list_elem_of_singleton in Hp as ->. done.
  - rewrite join_cons. apply elem_of_cons in Hp as [->|Hp].
    + apply elem_of_app. by left.
    + apply elem_of_app. right. apply elem_of_app. right. by apply IH.
Qed.

Lemma join_edgeFree sep ps :
  Forall (fun p => p <> [] /\ edgeFree p) ps -> edgeFree (join sep ps).
Proof.
  intros Hps. split.
  - intros c t' H. destruct Hps as [|p ps [Hne [Hh _]] Hps]; [done|].
    destruct p as [|x p]; [done|].
    assert (c = x) as ->.
    { destruct ps; simpl in H; by simplify_eq. }
    by apply (Hh x p).
  - induction Hps as [|p ps [Hne [_ Hl]] Hps IH]; intros t' c H.
    + by destruct t'.
    + destruct ps as [|q ps].
      * simpl in H. by apply (Hl t' c).
      * rewrite join_cons, app_assoc in H.
        apply app_last_inv in H as [t'' Ht].
        -- by apply (IH t'' c).
        -- apply join_nonempty. by apply Forall_cons in Hps as [[Hq _] _].
Qed.

Lemma tidy_nonempty p : tidy p -> p <> [].
Proof.
  intros (ws & Hne & Hws & ->). destruct Hws as [|w ws [Hw _] _]; [done|].
  by apply join_nonempty.
Qed.

Lemma tidy_edgeFree p : tidy p -> edgeFree p.
Proof. intros (ws & Hne & Hws & ->). by apply join_words_edgeFree. Qed.

Lemma tidy_no_LF p : tidy p -> LF ∉ p.
Proof.
  intros (ws & Hne & Hws & ->) Hin.
  apply join_chars in Hin as [Hin|(w & Hw & Hin)].
  - apply list_elem_of_singleton in Hin. done.
  - rewrite Forall_forall in Hws. destruct (Hws w Hw) as [_ Hall].
    rewrite Forall_forall in Hall. by specialize (Hall LF Hin).
Qed.

Lemma tidy_normalized p : tidy p -> normalizeWhitespace p = p.
Proof.
  intros (ws & Hne & Hws & ->).
  by rewrite normalizeWhitespace_words, words_join.
Qed.

Lemma normalizeWhitespace_tidy s :
  normalizeWhitespace s <> [] -> tidy (normalizeWhitespace s).
Proof.
  rewrite normalizeWhitespace_words. intros Hne.
  exists (words s). split; [by destruct (words s)|].
  split; [apply words_wordy | done].
Qed.

Create HintDb jsstrings.
#[local] Hint Resolve allSpace_nil trim_edgeFree words_wordy takeWhile_all
  tidy_nonempty tidy_edgeFree tidy_no_LF : jsstrings.

(** The paragraphs [cleanGeneratedText] keeps are normalised. *)
Lemma kept_paragraphs_tidy s :
  Forall tidy (List.filter nonEmpty (map normalizeWhitespace (splitBlank s))).
Proof.
  apply Forall_forall. intros p Hp.
  apply list_elem_of_In, filter_In in Hp as [Hin Hne].
  apply in_map_iff in Hin as (q & <- & _).
  apply normalizeWhitespace_tidy. by destruct (normalizeWhitespace q).
Qed.

Lemma join_tidy_trim ps :
  Forall tidy ps -> trim (join blankLine ps) = join blankLine ps.
Proof.
  intros H. apply trim_id, join_edgeFree.
  eapply Forall_impl; [exact H|]. intros p Hp.
  split; auto with jsstrings.
Qed.

Lemma filter_tidy ps :
  Forall tidy ps -> List.filter nonEmpty (map normalizeWhitespace ps) = ps.
Proof.
  induction 1 as [|p ps Hp _ IH]; [done|].
  simpl. rewrite (tidy_normalized p Hp), IH.
  apply tidy_nonempty in Hp. by destruct p.
Qed.

(** The normalisation of the paragraphs is idempotent. *)
Lemma normalizeParagraphs_idem s :
  normalizeParagraphs (normalizeParagraphs s) = normalizeParagraphs s.
Proof.
  unfold normalizeParagraphs.
  pose proof (kept_paragraphs_tidy s) as Ht.
  set (ps := List.filter nonEmpty (map normalizeWhitespace (splitBlank s))) in *.
  rewrite (join_tidy_trim ps Ht).
  destruct (decide (ps = [])) as [->|Hne]; [done|].
  rewrite splitBlank_join.
  - by rewrite filter_tidy, join_tidy_trim.
  - done.
  - eapply Forall_impl; [exact Ht|]. auto with jsstrings.
Qed.

(* ===================================================================== *)
(** * The inline parsers                                                  *)
(* ===================================================================== *)

Ltac destruct_matches H :=
  repeat match type of H with
         | context [match ?x with _ => _ end] => destruct x eqn:?
         | context [if ?x then _ else _] => destruct x eqn:?
         end.

Lemma emphasisAt_length s m :
  emphasisAt s = Some m -> (1 <= em_length m <= length s)%nat.
Proof.
  unfold emphasisAt. destruct (boldAt s) as [m'|] eqn:Hb.
  - intros; simplify_eq. unfold boldAt in Hb.
    destruct_matches Hb; simplify_eq; simpl.
    match goal with
    | E : drop ?n ?l = _ |- _ =>
        apply (f_equal length) in E; rewrite length_drop in E; simpl in *; lia
    end.
  - intros Hi. unfold italicAt in Hi.
    destruct_matches Hi; simplify_eq; simpl.
    match goal with
    | E : drop ?n ?l = _ |- _ =>
        apply (f_equal length) in E; rewrite length_drop in E; simpl in *; lia
    end.
Qed.

Lemma emphasisSearch_index s i index m :
  emphasisSearch s i = Some (index, m) ->
  (i <= index)%nat /\ (1 <= em_length m)%nat /\
  (index + em_length m <= i + length s)%nat.
Proof.
  revert i. induction s as [|c s IH]; intros i; simpl.
  - intros H. cbn in H. done.
  - destruct (emphasisAt (c :: s)) eqn:E.
    + intros; simplify_eq. apply emphasisAt_length in E. simpl in E. lia.
    + intros H. apply IH in H. lia.
Qed.

Lemma emphasisExec_progress text from index m :
  emphasisExec text from = Some (index, m) ->
  (from < index + em_length m <= length text)%nat.
Proof.
  unfold emphasisExec. destruct (from <=? length text)%nat eqn:E; [|done].
  apply Nat.leb_le in E. intros H. apply emphasisSearch_index in H.
  rewrite length_drop in H. lia.
Qed.

(** The loop of the writer returns before its fuel is used up. *)
Lemma formattedLoop_total fuel text pl li runs :
  (pl <= length text < pl + fuel)%nat ->
  is_Some (formattedLoop fuel text pl li runs).
Proof.
  revert pl li runs. induction fuel as [|fuel IH]; intros pl li runs Hf; simpl.
  - lia.
  - destruct (emphasisExec text pl) as [[index m]|] eqn:E; [|by eexists].
    apply emphasisExec_progress in E. apply IH. lia.
Qed.

Lemma inlineLoop_total fuel text pl li nodes :
  (pl <= length text < pl + fuel)%nat ->
  is_Some (inlineLoop fuel text pl li nodes).
Proof.
  revert pl li nodes. induction fuel as [|fuel IH]; intros pl li nodes Hf; simpl.
  - lia.
  - destruct (emphasisExec text pl) as [[index m]|] eqn:E; [|by eexists].
    apply emphasisExec_progress in E. apply IH. lia.
Qed.

(** The two loops walk the same matches: from related lists of runs they
    return related lists and the same index. *)
Lemma loops_agree fuel text pl li runs nodes :
  map runOfTextRun runs = map runOfNode nodes ->
  match formattedLoop fuel text pl li runs, inlineLoop fuel text pl li nodes with
  | Some (rs, i), Some (ns, j) => map runOfTextRun rs = map runOfNode ns /\ i = j
  | None, None => True
  | _, _ => False
  end.
Proof.
  revert pl li runs nodes.
  induction fuel as [|fuel IH]; intros pl li runs nodes Hrel; simpl; [done|].
  destruct (emphasisExec text pl) as [[index m]|]; [|done].
  apply IH.
  destruct (li <? index)%nat;
    destruct (truthyGroup (em_bold m)); destruct (truthyGroup (em_italic m));
    rewrite ?map_app, ?Hrel; reflexivity.
Qed.

Lemma inlineLoop_text fuel text pl li nodes ns j :
  Forall isTextNode nodes ->
  inlineLoop fuel text pl li nodes = Some (ns, j) ->
  Forall isTextNode ns.
Proof.
  revert pl li nodes. induction fuel as [|fuel IH]; intros pl li nodes Hn; simpl; [done|].
  destruct (emphasisExec text pl) as [[index m]|]; [|intros; by simplify_eq].
  apply IH.
  destruct (li <? index)%nat;
    destruct (truthyGroup (em_bold m)); destruct (truthyGroup (em_italic m));
    repeat (apply Forall_app; split); try done; by repeat constructor.
Qed.

Lemma parseInlineFormatting_text text :
  Forall isTextNode (parseInlineFormatting text).
Proof.
  unfold parseInlineFormatting.
  destruct (inlineLoop _ _ _ _ _) as [[ns j]|] eqn:E; [|constructor].
  apply inlineLoop_text in E; [|constructor].
  destruct (j <? length text)%nat.
  - destruct (_ =? _)%nat; [by repeat constructor|].
    apply Forall_app; split; [done | by repeat constructor].
  - destruct (_ =? _)%nat; [by repeat constructor | done].
Qed.

(** ** C10 *)

(** C10. For every text the inline parser of the DOCX writer and the one
    of the draft service give the same segmentation: the same number of
    runs, and at every position the same text with the same bold and
    italic marking.  Neither loop stops for lack of fuel. *)
Theorem inline_parsers_same_segmentation (text : jsstring) :
  is_Some (formattedLoop (S (length text)) text 0 0 []) /\
  is_Some (inlineLoop (S (length text)) text 0 0 []) /\
  map runOfTextRun (parseFormattedText text)
    = map runOfNode (parseInlineFormatting text) /\
  length (parseFormattedText text) = length (parseInlineFormatting text) /\
  (forall (i : nat) (r : TextRun) (n : PMNode),
      parseFormattedText text !! i = Some r ->
      parseInlineFormatting text !! i = Some n ->
      match n with
      | PMText t ms =>
          tr_text r = t /\
          (tr_bold r = true <-> bold ∈ ms) /\
          (tr_italics r = true <-> italic ∈ ms)
      | PMElem _ _ _ => False
      end).
Proof.
  assert (Hm : map runOfTextRun (parseFormattedText text)
               = map runOfNode (parseInlineFormatting text)).
  { unfold parseFormattedText, parseInlineFormatting.
    pose proof (loops_agree (S (length text)) text 0 0 [] [] eq_refl) as H.
    destruct (formattedLoop _ _ _ _ _) as [[rs i]|];
      destruct (inlineLoop _ _ _ _ _) as [[ns j]|]; try done.
    destruct H as [H ->].
    destruct (j <? length text)%nat.
    - rewrite !length_app. simpl.
      replace (length rs + 1 =? 0)%nat with false
        by (symmetry; apply Nat.eqb_neq; lia).
      replace (length ns + 1 =? 0)%nat with false
        by (symmetry; apply Nat.eqb_neq; lia).
      rewrite !map_app, H. reflexivity.
    - assert (length rs = length ns) as Hl
        by (rewrite <- (length_map runOfTextRun), H, length_map; reflexivity).
      rewrite Hl. destruct (length ns =? 0)%nat; [reflexivity | exact H]. }
  assert (Hnodes : Forall isTextNode (parseInlineFormatting text)).
  { apply parseInlineFormatting_text. }
  split; [apply formattedLoop_total; lia|].
  split; [apply inlineLoop_total; lia|].
  split; [exact Hm|].
  split.
  { rewrite <- (length_map runOfTextRun), Hm, length_map. reflexivity. }
  intros i r n Hr Hn.
  assert (runOfTextRun r = runOfNode n) as E.
  { apply (f_equal (fun l => l !! i)) in Hm.
    rewrite !list_lookup_fmap, Hr, Hn in Hm. by simplify_eq. }
  rewrite Forall_forall in Hnodes.
  specialize (Hnodes n). 
  destruct n as [t ms|]; [|apply Hnodes; eapply list_elem_of_lookup_2; eauto].
  unfold runOfTextRun, runOfNode in E. simplify_eq.
  split; [done|]. rewrite H0, H1. split; apply bool_decide_eq_true.
Qed.


Lemma inline_parsers_same_segmentation_witness :
  parseFormattedText (lit "a **b** and *c*") !! 1%nat = Some (boldRun (lit "b")) /\
  parseInlineFormatting (lit "a **b** and *c*") !! 1%nat = Some (PMText (lit "b") [bold]) /\
  tr_text (boldRun (lit "b")) = lit "b" /\
  (tr_bold (boldRun (lit "b")) = true <-> bold ∈ [bold]) /\
  (tr_italics (boldRun (lit "b")) = true <-> italic ∈ [bold]).
Proof.
  assert (parseFormattedText (lit "a **b** and *c*") !! 1%nat = Some (boldRun (lit "b")))
    as H1 by (vm_compute; reflexivity).
  assert (parseInlineFormatting (lit "a **b** and *c*") !! 1%nat
          = Some (PMText (lit "b") [bold])) as H2 by (vm_compute; reflexivity).
  split; [exact H1|]. split; [exact H2|].
  destruct (inline_parsers_same_segmentation (lit "a **b** and *c*"))
    as (_ & _ & _ & _ & H).
  exact (H 1%nat _ _ H1 H2).
Defined.

(* ===================================================================== *)
(** * The hierarchy of the template                                       *)
(* ===================================================================== *)

Lemma popStack_popStack stack a b :
  (b <= a)%Z -> popStack (popStack stack a) b = popStack stack b.
Proof.
  intros Hab. induction stack as [|[l i] stack IH]; simpl; [done|].
  destruct (a <=? l)%Z eqn:Ea.
  - rewrite IH. destruct (b <=? l)%Z eqn:Eb; [done|]. lia.
  - simpl. by destruct (b <=? l)%Z.
Qed.

(** The stack after a prefix of the structure answers, for every level,
    with the nearest section of the prefix below that level. *)
Definition stackInvariant (prefix : list Section) (stack : list (Z * jsstring)) : Prop :=
  forall level, stackTop (popStack stack level) = nearestLower (rev prefix) level.

Lemma stackInvariant_push prefix stack s :
  stackInvariant prefix stack ->
  stackInvariant (prefix ++ [s])
                 ((sec_level s, sec_id s) :: popStack stack (sec_level s)).
Proof.
  intros Hinv level. rewrite rev_app_distr. simpl.
  destruct (level <=? sec_level s)%Z eqn:E1;
    destruct (sec_level s <? level)%Z eqn:E2; try lia; [|done].
  rewrite popStack_popStack by lia. apply Hinv.
Qed.

Lemma hierarchy_fold flat prefix result stack :
  stackInvariant prefix stack ->
  fst (fold_left hierarchyStep flat (result, stack))
  = result ++ imap (fun i s =>
                      {| section := s;
                         parentId := nearestLower (rev (prefix ++ take i flat))
                                                  (sec_level s) |}) flat.
Proof.
  revert prefix result stack.
  induction flat as [|s flat IH]; intros prefix result stack Hinv; simpl.
  - by rewrite app_nil_r.
  - unfold hierarchyStep at 2. simpl.
    rewrite (IH (prefix ++ [s])) by (by apply stackInvariant_push).
    rewrite <- app_assoc. f_equal. simpl. f_equal.
    + f_equal. rewrite app_nil_r. apply (Hinv (sec_level s)).
    + apply imap_ext. intros i x _. simpl. by rewrite <- app_assoc.
Qed.

Lemma buildHierarchy_imap flat :
  buildHierarchy flat
  = imap (fun i s => {| section := s;
                        parentId := nearestLower (rev (take i flat)) (sec_level s) |})
         flat.
Proof.
  unfold buildHierarchy. rewrite (hierarchy_fold flat [] [] []); [done|].
  intros level. reflexivity.
Qed.

Lemma buildHierarchy_sections flat : map section (buildHierarchy flat) = flat.
Proof.
  rewrite buildHierarchy_imap. apply list_eq. intros i.
  rewrite list_lookup_fmap, list_lookup_imap.
  by destruct (flat !! i).
Qed.

Lemma buildHierarchy_lookup flat i x :
  buildHierarchy flat !! i = Some x ->
  flat !! i = Some (section x) /\
  parentId x = nearestLower (rev (take i flat)) (sec_level (section x)).
Proof.
  rewrite buildHierarchy_imap, list_lookup_imap.
  destruct (flat !! i) as [s|]; simpl; [|done].
  intros; by simplify_eq.
Qed.

Lemma nearestLower_Some before level p :
  nearestLower before level = Some p ->
  exists s, s ∈ before /\ sec_id s = p /\ (sec_level s < level)%Z.
Proof.
  induction before as [|s before IH]; simpl; [done|].
  destruct (sec_level s <? level)%Z eqn:E.
  - intros; simplify_eq. exists s. split; [left|]. split; [done | lia].
  - intros H. destruct (IH H) as (s' & Hin & Hid & Hl).
    exists s'. split; [by right | done].
Qed.

Lemma find_by_unique_id out j a :
  NoDup (map idOf out) ->
  out !! j = Some a ->
  findById out (idOf a) = Some a.
Proof.
  unfold findById. revert j. induction out as [|y out IH]; intros j Hnd Hj; [done|].
  apply NoDup_cons in Hnd as [Hy Hnd]. simpl.
  destruct j as [|j]; simpl in Hj.
  - simplify_eq. by rewrite bool_decide_eq_true_2.
  - case_bool_decide as E; [|by eapply IH].
    exfalso. apply Hy. change (idOf y) with (sec_id (section y)). rewrite E.
    apply list_elem_of_fmap. exists a. split; [done|].
    by eapply list_elem_of_lookup_2.
Qed.

Lemma same_id_same_section out a b :
  NoDup (map idOf out) -> a ∈ out -> b ∈ out -> idOf a = idOf b -> a = b.
Proof.
  intros Hnd Ha Hb E.
  apply list_elem_of_lookup in Ha as [i Hi].
  apply list_elem_of_lookup in Hb as [j Hj].
  assert (i = j) as ->.
  { eapply (NoDup_lookup _ i j (idOf a)); [exact Hnd | |].
    - by rewrite list_lookup_fmap, Hi.
    - by rewrite list_lookup_fmap, Hj, E. }
  by simplify_eq.
Qed.

Lemma buildHierarchy_ids flat :
  map idOf (buildHierarchy flat) = map sec_id flat.
Proof.
  rewrite <- (buildHierarchy_sections flat) at 2.
  by rewrite map_map.
Qed.

Section DistinctIds.

(** A flat structure whose ids are distinct, as [generateId] makes
    them. *)
Variable flat : list Section.
Hypothesis distinct_ids : NoDup (map sec_id flat).

Lemma distinct_ids_out : NoDup (map idOf (buildHierarchy flat)).
Proof. by rewrite buildHierarchy_ids. Qed.

(** The chain of ancestors of the section at index [i] is found in at most
    [i] steps. *)
Lemma ancestors_chain :
  forall (i : nat) x fuel,
    buildHierarchy flat !! i = Some x -> (i <= fuel)%nat ->
    exists chain root,
      ancestors fuel (buildHierarchy flat) x = Some chain /\
      strictlyDecreasing (x :: chain) /\
      Forall (fun a => a ∈ buildHierarchy flat /\ (levelOf a < levelOf x)%Z) chain /\
      last (x :: chain) = Some root /\ parentId root = None.
Proof.
  pose proof distinct_ids_out as Hnd.
  induction i as [i IH] using lt_wf_ind. intros x fuel Hx Hfuel.
  destruct (buildHierarchy_lookup _ _ _ Hx) as [Hs Hp].
  destruct (parentId x) as [p|] eqn:Epar.
  2:{ exists [], x. destruct fuel; simpl; rewrite Epar; repeat split; done. }
  symmetry in Hp. apply nearestLower_Some in Hp as (s & Hin & Hid & Hlt).
  apply list_elem_of_In, in_rev, list_elem_of_In, elem_of_take in Hin
    as (j & Hj & Hji).
  assert (exists a, buildHierarchy flat !! j = Some a /\ section a = s) as (a & Ha & Hsa).
  { pose proof (buildHierarchy_sections flat) as Hm.
    apply (f_equal (fun l => l !! j)) in Hm.
    rewrite list_lookup_fmap, Hj in Hm.
    destruct (buildHierarchy flat !! j) as [a|]; simpl in Hm; [|done].
    exists a. split; [done | by simplify_eq]. }
  destruct fuel as [|fuel]; [lia|].
  destruct (IH j Hji a fuel Ha ltac:(lia)) as (chain & root & Hc & Hdec & Hall & Hlast & Hroot).
  exists (a :: chain), root. simpl. rewrite Epar.
  assert (idOf a = p) as Hida by (unfold idOf; by rewrite Hsa).
  rewrite <- Hida, (find_by_unique_id _ j a Hnd Ha), Hc. simpl.
  assert (levelOf a < levelOf x)%Z as Hax by (unfold levelOf; by rewrite Hsa).
  split; [done|]. split; [split; [done | exact Hdec]|].
  split; [|done].
  constructor.
  - split; [by eapply list_elem_of_lookup_2 | done].
  - eapply Forall_impl; [exact Hall|]. simpl. intros b [Hb Hlb]. split; [done | lia].
Qed.

(** No section has its own id among its ancestors. *)
Lemma ancestors_other_ids x chain :
  x ∈ buildHierarchy flat ->
  Forall (fun a => a ∈ buildHierarchy flat /\ (levelOf a < levelOf x)%Z) chain ->
  idOf x ∉ map idOf chain.
Proof.
  intros Hx Hall Hmem. apply list_elem_of_fmap in Hmem as (a & Hid & Ha).
  rewrite Forall_forall in Hall. destruct (Hall a Ha) as [Hao Hlt].
  assert (a = x) as -> by (eapply same_id_same_section; eauto using distinct_ids_out).
  lia.
Qed.

End DistinctIds.

(** ** C1 *)

(** C1. For every flat list of sections, [buildHierarchy] returns the
    sections in the same order, each with a [parentId]: the id of the
    nearest section before it whose level is strictly lower, or none when
    there is no such section.  Consequently, the ids being distinct, the
    chain of ancestors of every section has strictly decreasing levels,
    ends at a section without a parent, and does not contain the id of the
    section itself. *)
Theorem buildHierarchy_nearest_lower_parent (flat : list Section) :
  map section (buildHierarchy flat) = flat /\
  (forall (i : nat) x,
      buildHierarchy flat !! i = Some x ->
      parentId x = nearestLower (rev (take i flat)) (sec_level (section x))) /\
  (NoDup (map sec_id flat) ->
   forall x, x ∈ buildHierarchy flat ->
     exists chain root,
       ancestors (length flat) (buildHierarchy flat) x = Some chain /\
       strictlyDecreasing (x :: chain) /\
       last (x :: chain) = Some root /\ parentId root = None /\
       idOf x ∉ map idOf chain).
Proof.
  split; [apply buildHierarchy_sections|].
  split; [intros i x Hx; by apply buildHierarchy_lookup|].
  intros Hnd x Hin.
  apply list_elem_of_lookup in Hin as [i Hi].
  assert (i <= length flat)%nat as Hle.
  { apply lookup_lt_Some in Hi.
    rewrite <- (length_map section), buildHierarchy_sections in Hi. lia. }
  destruct (ancestors_chain flat Hnd i x (length flat) Hi Hle)
    as (chain & root & Hc & Hdec & Hall & Hlast & Hroot).
  exists chain, root. repeat (split; [done|]).
  apply (ancestors_other_ids flat Hnd); [by eapply list_elem_of_lookup_2 | done].
Qed.

(* ===================================================================== *)
(** * The failure screen of the response parser                           *)
(* ===================================================================== *)

Lemma startsWithCI_take alt text :
  startsWithCI alt text = true ->
  equalCI alt (take (length alt) text) = true /\
  exists after, text = take (length alt) text ++ after.
Proof.
  unfold equalCI. revert text. induction alt as [|a alt IH]; intros text; simpl.
  - intros _. split; [done|]. by exists text.
  - destruct text as [|b text]; [done|]. simpl.
    intros [Hab H]%andb_true_iff. destruct (IH _ H) as [[Hl Hs]%andb_true_iff [after Ha]].
    split.
    + rewrite Hab, Hs, andb_true_r. simpl. exact Hl.
    + exists after. by rewrite <- Ha.
Qed.

Lemma matchPhrase_sound pattern text reason :
  matchPhrase pattern text = Some reason ->
  exists alt before after,
    alt ∈ pattern /\ equalCI alt reason = true /\
    text = before ++ reason ++ after.
Proof.
  induction text as [|c text IH]; simpl.
  - destruct (List.find _ pattern) as [alt|] eqn:E; [|done].
    intros; simplify_eq. apply find_some in E as [Hin Hs].
    destruct (startsWithCI_take _ _ Hs) as [Heq [after Ha]].
    exists alt, [], after. by rewrite <- list_elem_of_In in Hin.
  - destruct (List.find _ pattern) as [alt|] eqn:E.
    + intros; simplify_eq. apply find_some in E as [Hin Hs].
      destruct (startsWithCI_take _ _ Hs) as [Heq [after Ha]].
      exists alt, [], after. by rewrite <- list_elem_of_In in Hin.
    + intros H. destruct (IH H) as (alt & before & after & Hin & Heq & Ht).
      exists alt, (c :: before), after. by rewrite Ht.
Qed.

Lemma matchPhrase_complete pattern alt text :
  alt ∈ pattern -> containsCI alt text = true ->
  is_Some (matchPhrase pattern text).
Proof.
  intros Hin. induction text as [|c text IH]; simpl.
  - rewrite orb_false_r. intros Hs.
    destruct (List.find _ pattern) eqn:E; [by eexists|].
    apply list_elem_of_In in Hin.
    by rewrite (find_none _ _ E alt Hin) in Hs.
  - intros H. destruct (List.find _ pattern) eqn:E; [by eexists|].
    apply orb_true_iff in H as [Hs|Hc]; [|by apply IH].
    apply list_elem_of_In in Hin.
    by rewrite (find_none _ _ E alt Hin) in Hs.
Qed.

Lemma detectFailureIn_complete patterns pattern text :
  pattern ∈ patterns -> is_Some (matchPhrase pattern text) ->
  is_Some (detectFailureIn patterns text).
Proof.
  induction patterns as [|q patterns IH]; simpl; [by intros ?%elem_of_nil|].
  intros [->|Hin]%elem_of_cons Hm.
  - destruct Hm as [r ->]. by eexists.
  - destruct (matchPhrase q text); [by eexists | by apply IH].
Qed.

Lemma detectFailureIn_sound patterns text reason :
  detectFailureIn patterns text = Some reason ->
  exists pattern, pattern ∈ patterns /\ matchPhrase pattern text = Some reason.
Proof.
  induction patterns as [|q patterns IH]; simpl; [done|].
  destruct (matchPhrase q text) as [r|] eqn:E.
  - intros; simplify_eq. exists q. split; [left | done].
  - intros H. destruct (IH H) as (pattern & Hin & Hm).
    exists pattern. split; [by right | done].
Qed.

(** ** C7 *)

(** C7. For every response whose cleaned form holds one of the failure
    phrases, [parseSectionContent] returns [success = false], an empty
    content, an error that names the phrase as it was matched in the
    cleaned text, and [needsManualInput = true]; the object has neither
    warnings nor metadata: the hallucination and length checks are not
    reached. *)
Theorem failure_phrase_short_circuits
    (response sectionTitle : jsstring) (pattern : list jsstring) (alt : jsstring) :
  pattern ∈ FAILURE_MARKERS ->
  alt ∈ pattern ->
  containsCI alt (cleanGeneratedText response) = true ->
  exists reason phrase before after,
    phrase ∈ concat FAILURE_MARKERS /\
    equalCI phrase reason = true /\
    cleanGeneratedText response = before ++ reason ++ after /\
    detectFailure (cleanGeneratedText response) = Some reason /\
    parseSectionContent response sectionTitle =
      {| sc_success := false;
         sc_content := [];
         sc_sectionTitle := sectionTitle;
         sc_error := Some (lit "Could not generate content: " ++ reason);
         sc_needsManualInput := Some true;
         sc_warnings := None;
         sc_metadata := None |}.
Proof.
  intros Hp Ha Hc.
  pose proof (matchPhrase_complete _ _ _ Ha Hc) as Hm.
  destruct (detectFailureIn_complete _ _ _ Hp Hm) as [reason Hr].
  destruct (detectFailureIn_sound _ _ _ Hr) as (q & Hq & Hmq).
  destruct (matchPhrase_sound _ _ _ Hmq) as (phrase & before & after & Hin & Heq & Ht).
  exists reason, phrase, before, after.
  split.
  { apply list_elem_of_In, in_concat. exists q.
    split; by apply list_elem_of_In. }
  repeat (split; [done|]).
  unfold parseSectionContent, detectFailure. by rewrite Hr.
Qed.

(* ===================================================================== *)
(** * Saving the editor content                                           *)
(* ===================================================================== *)

Lemma getDraftByProject_lookup db projectId id draft :
  getDraftByProject db projectId = Some (id, draft) ->
  db !! id = Some draft /\ project_id draft = projectId.
Proof.
  unfold getDraftByProject. revert id draft.
  apply (map_fold_weak_ind
           (fun r m => forall id draft, r = Some (id, draft) ->
                       m !! id = Some draft /\ project_id draft = projectId)).
  - done.
  - intros i x m r Hi IH id draft.
    case_bool_decide as Hp.
    + destruct r as [[j b]|].
      * destruct (version b <? version x)%Z.
        -- intros; simplify_eq. by rewrite lookup_insert_eq.
        -- intros H. destruct (IH _ _ H) as [Hl Hq]. split; [|done].
           rewrite lookup_insert_ne; [done|]. intros ->. congruence.
      * intros; simplify_eq. by rewrite lookup_insert_eq.
    + intros H. destruct (IH _ _ H) as [Hl Hq]. split; [|done].
      rewrite lookup_insert_ne; [done|]. intros ->. congruence.
Qed.

(** The loop of [markSectionsAsEdited] over the entries [l]: the entry at
    index [i] is stamped with the reading [t + i] of the clock, and no
    other key is touched. *)
Lemma mark_fold (clock : nat -> jsstring) (l : list (jsstring * gmap string Json))
    (acc : gmap jsstring (gmap string Json)) (t : nat) :
  NoDup (l.*1) ->
  let r := fold_left (markEntry clock) l (acc, t) in
  r.2 = (t + length l)%nat /\
  (forall (i : nat) key value,
      l !! i = Some (key, value) ->
      r.1 !! key = Some (stampEdited (clock (t + i)%nat) value)) /\
  (forall key, key ∉ l.*1 -> r.1 !! key = acc !! key).
Proof.
  revert acc t. induction l as [|[k v] l IH]; intros acc t Hnd; cbv zeta.
  - cbn. split; [lia|]. split; [done|done].
  - rewrite fmap_cons in Hnd. apply NoDup_cons in Hnd as [Hk Hnd]. cbn [fst] in Hk.
    cbn [fold_left].
    change (markEntry clock (acc, t) (k, v))
      with (<[k := stampEdited (clock t) v]> acc, S t).
    destruct (IH (<[k := stampEdited (clock t) v]> acc) (S t) Hnd) as (Ht & Hin & Hout).
    split; [rewrite Ht; cbn [length]; lia|]. split.
    + intros [|i] key value Hl; cbn in Hl.
      * simplify_eq. rewrite Hout by done. rewrite Nat.add_0_r.
        by rewrite lookup_insert_eq.
      * rewrite (Hin i key value Hl). do 3 f_equal. lia.
    + intros key Hkey. rewrite fmap_cons in Hkey.
      apply not_elem_of_cons in Hkey as [Hne Hkey].
      rewrite Hout by done. by rewrite lookup_insert_ne.
Qed.

Lemma markSectionsAsEdited_spec (clock : nat -> jsstring) sources tick :
  let old := default ∅ sources in
  let r := markSectionsAsEdited clock sources tick in
  r.2 = (tick + size old)%nat /\
  forall key,
    match old !! key with
    | Some value =>
        exists t, (tick <= t < r.2)%nat /\
                  r.1 !! key = Some (stampEdited (clock t) value)
    | None => r.1 !! key = None
    end.
Proof.
  intros old r. unfold r, markSectionsAsEdited. fold old.
  destruct (mark_fold clock (map_to_list old) ∅ tick (NoDup_fst_map_to_list old))
    as (Ht & Hin & Hout).
  rewrite length_map_to_list in Ht.
  split; [exact Ht|].
  intros key. destruct (old !! key) as [value|] eqn:E.
  - apply elem_of_map_to_list in E. apply list_elem_of_lookup in E as [i Hi].
    exists (tick + i)%nat. split.
    + apply lookup_lt_Some in Hi. rewrite length_map_to_list in Hi.
      rewrite Ht. lia.
    + by apply Hin.
  - rewrite Hout; [done|].
    intros Hk. apply list_elem_of_fmap in Hk as ([k v] & -> & Hkv).
    apply elem_of_map_to_list in Hkv. simpl in E. congruence.
Qed.

(** ** C8 *)

(** C8. When the project has a draft, [saveDraftContent] stores the
    content it is given as the content of that draft and writes, for every
    entry of its [section_sources], the same entry with
    [manuallyEdited = true] and a [lastEditedAt] read from the clock during
    the call; whether the nodes of the section changed plays no part.
    Every other field of every entry keeps its value, no entry is added or
    removed, and the other rows of the table are left as they were. *)
Theorem saveDraftContent_marks_every_entry
    (clock : nat -> jsstring) (db : gmap jsstring Draft) (tick : nat)
    (projectId : jsstring) (newContent : option PMNode)
    (id : jsstring) (draft : Draft) :
  getDraftByProject db projectId = Some (id, draft) ->
  exists data marked tick',
    saveDraftContent clock db tick projectId newContent
      = Returned (data, <[id := data]> db, tick') /\
    db !! id = Some draft /\
    content data = newContent /\
    project_id data = project_id draft /\
    version data = version draft /\
    section_sources data = Some marked /\
    (forall key,
        match default ∅ (section_sources draft) !! key with
        | Some value =>
            exists (t : nat) entry,
              (tick <= t < tick')%nat /\
              marked !! key = Some entry /\
              entry = stampEdited (clock t) value /\
              entry !! "manuallyEdited" = Some (JBool true) /\
              entry !! "lastEditedAt" = Some (JString (clock t)) /\
              (forall field, field <> "manuallyEdited" -> field <> "lastEditedAt" ->
                             entry !! field = value !! field)
        | None => marked !! key = None
        end) /\
    (forall other, other <> id -> (<[id := data]> db) !! other = db !! other).
Proof.
  intros Hget. unfold saveDraftContent. rewrite Hget.
  destruct (markSectionsAsEdited_spec clock (section_sources draft) tick) as [Ht Hm].
  destruct (markSectionsAsEdited clock (section_sources draft) tick) as [marked tick'] eqn:E.
  simpl in *.
  eexists _, marked, tick'. split; [reflexivity|]. simpl.
  split; [by apply getDraftByProject_lookup in Hget as [? ?]|].
  repeat (split; [reflexivity|]).
  split.
  - intros key. specialize (Hm key).
    destruct (default ∅ (section_sources draft) !! key) as [value|]; [|done].
    destruct Hm as (t & Hr & Hl).
    exists t, (stampEdited (clock t) value). unfold stampEdited.
    repeat split; try done; try lia.
    + rewrite lookup_insert_ne by done. by rewrite lookup_insert_eq.
    + by rewrite lookup_insert_eq.
    + intros field H1 H2. by rewrite !lookup_insert_ne.
  - intros other Ho. by rewrite lookup_insert_ne.
Qed.

(* ===================================================================== *)
(** * Cleaning the generated text                                         *)
(* ===================================================================== *)

Lemma cleanGeneratedText_normalizeParagraphs text :
  cleanGeneratedText text = normalizeParagraphs (stripArtifacts text).
Proof. by destruct text. Qed.

(** ** C4 *)

(** C4, as stated, fails: each replacement of [cleanGeneratedText] is
    applied once, so a second preamble survives the first cleaning and is
    removed by the second. *)
Lemma clean_not_idempotent :
  cleanGeneratedText preambleTwice = lit "Here is b: c" /\
  cleanGeneratedText (cleanGeneratedText preambleTwice) = lit "c" /\
  cleanGeneratedText (cleanGeneratedText preambleTwice)
    <> cleanGeneratedText preambleTwice.
Proof. vm_compute. repeat split. discriminate. Qed.

(** C4, amended. For every text whose cleaned form is left unchanged by
    the four replacements (it shows no fence, preamble, heading or trailing
    explanation any more), cleaning the cleaned text gives the cleaned text
    again. *)
Theorem clean_idempotent_without_artifacts (text : jsstring) :
  stripArtifacts (cleanGeneratedText text) = cleanGeneratedText text ->
  cleanGeneratedText (cleanGeneratedText text) = cleanGeneratedText text.
Proof.
  intros H.
  rewrite (cleanGeneratedText_normalizeParagraphs (cleanGeneratedText text)), H.
  rewrite (cleanGeneratedText_normalizeParagraphs text).
  apply normalizeParagraphs_idem.
Qed.

Lemma clean_idempotent_witness :
  cleanGeneratedText sampleResponse
    = lit "Results show" ++ [LF; LF] ++ lit "steady growth." /\
  cleanGeneratedText (cleanGeneratedText sampleResponse)
    = cleanGeneratedText sampleResponse.
Proof.
  split; [vm_compute; reflexivity|].
  apply (clean_idempotent_without_artifacts sampleResponse).
  vm_compute. reflexivity.
Defined.

(* ===================================================================== *)
(** * The markdown table parser                                           *)
(* ===================================================================== *)

Lemma filter_sublist {A} (f : A -> bool) (l : list A) :
  sublist (List.filter f l) l.
Proof.
  induction l as [|x l IH]; simpl; [constructor|].
  destruct (f x); by constructor.
Qed.

Lemma splitChar_no_separator c s p : p ∈ splitChar c s -> c ∉ p.
Proof.
  revert p. induction s as [|d s IH]; intros p; simpl.
  - intros ->%list_elem_of_singleton. apply not_elem_of_nil.
  - destruct (d =? c) eqn:E.
    + intros [->|H]%elem_of_cons; [apply not_elem_of_nil | by apply IH].
    + destruct (splitChar c s) as [|q qs].
      * intros ->%list_elem_of_singleton.
        apply not_elem_of_cons. split; [|apply not_elem_of_nil].
        apply N.eqb_neq in E. congruence.
      * intros [->|H]%elem_of_cons.
        -- apply not_elem_of_cons. split.
           ++ apply N.eqb_neq in E. congruence.
           ++ apply IH. left.
        -- apply IH. by right.
Qed.

Lemma parseRow_cell line cell :
  cell ∈ parseRow line <->
  cell ∈ map trim (splitChar PIPE line) /\ cell <> [] /\ allDashes cell = false.
Proof.
  unfold parseRow. rewrite !list_elem_of_In, filter_In, andb_true_iff, negb_true_iff.
  destruct cell; simpl; intuition congruence.
Qed.

(** ** C9 *)

(** C9, as stated, fails: [parseRow] drops every empty cell, the ones
    between two pipes too, and the second line is skipped as soon as it
    holds a dash, whatever else it holds. *)
Lemma interior_empty_cell_dropped :
  parseMarkdownTable tableWithGap
    = Some {| headers := [lit "A"; lit "B"; lit "C"];
              rows := [[lit "1"; lit "3"]] |} /\
  parseRowKeepingInterior (lit "| 1 |  | 3 |") = [lit "1"; []; lit "3"] /\
  rows <$> parseMarkdownTable tableWithGap
    <> Some [parseRowKeepingInterior (lit "| 1 |  | 3 |")] /\
  parseMarkdownTable tableWithoutSeparator
    = Some {| headers := [lit "A"; lit "B"]; rows := [] |}.
Proof. vm_compute. repeat split. discriminate. Qed.

(** C9, amended. [parseMarkdownTable] reads the non blank lines of the
    trimmed text and returns nothing when there are fewer than two;
    otherwise the first line gives the headers, the second line is skipped
    when it is a separator line (dashes, colons, pipes and white space only)
    and is the first body row when it holds no dash, and every remaining
    line gives a body row.  A row is made of the cells between the pipes,
    trimmed, in their order, without the empty cells (at the edges or
    between two pipes) and without the cells made of dashes only.  The
    table of the example parses to the headers A, B and the one body row
    1, 2. *)
Theorem parseMarkdownTable_rows (tableText : jsstring) :
  let lines := List.filter nonBlank (splitChar LF (trim tableText)) in
  match parseMarkdownTable tableText with
  | None => (length lines < 2)%nat
  | Some data =>
      exists line0 line1 rest,
        lines = line0 :: line1 :: rest /\
        headers data = parseRow line0 /\
        (isSeparatorLine line1 = true -> rows data = map parseRow rest) /\
        (includesChar DASH line1 = false -> rows data = map parseRow (line1 :: rest))
  end /\
  (forall line,
      sublist (parseRow line) (map trim (splitChar PIPE line)) /\
      forall cell,
        (cell ∈ parseRow line <->
         cell ∈ map trim (splitChar PIPE line) /\ cell <> [] /\
         allDashes cell = false) /\
        (cell ∈ parseRow line -> trim cell = cell /\ PIPE ∉ cell)) /\
  parseMarkdownTable tableAB
    = Some {| headers := [lit "A"; lit "B"]; rows := [[lit "1"; lit "2"]] |}.
Proof.
  intros lines. split; [|split].
  - unfold parseMarkdownTable. fold lines.
    destruct lines as [|line0 [|line1 rest]]; simpl; [lia | lia |].
    exists line0, line1, rest. split; [done|]. split; [done|]. split.
    + unfold isSeparatorLine. intros [-> _]%andb_true_iff. done.
    + by intros ->.
  - intros line. split; [apply filter_sublist|].
    intros cell. split; [apply parseRow_cell|].
    intros [Hin _]%parseRow_cell.
    apply list_elem_of_fmap in Hin as (raw & -> & Hraw).
    split; [apply trim_idem|].
    intros Hp. apply trim_chars in Hp.
    by apply (splitChar_no_separator PIPE line raw).
  - vm_compute. reflexivity.
Qed.

Lemma parseMarkdownTable_rows_witness :
  rows <$> parseMarkdownTable tableAB = Some [[lit "1"; lit "2"]] /\
  trim (lit "3") = lit "3" /\ PIPE ∉ lit "3".
Proof.
  destruct (parseMarkdownTable_rows tableAB) as (Hshape & Hrow & _). split.
  - destruct (parseMarkdownTable tableAB) as [data|] eqn:E; [|vm_compute in E; discriminate].
    destruct Hshape as (line0 & line1 & rest & Hlines & _ & Hsep & _).
    assert (line1 = lit "| --- | --- |" /\ rest = [lit "| 1 | 2 |"]) as [-> ->].
    { vm_compute in Hlines. by injection Hlines as _ <- <-. }
    simpl. rewrite Hsep; [vm_compute; reflexivity | vm_compute; reflexivity].
  - destruct (Hrow (lit "| 1 |  | 3 |")) as [_ Hcell].
    apply Hcell. apply list_elem_of_In. vm_compute. tauto.
Defined.


(* ===================================================================== *)
(** * The numbered headings of the fallback                               *)
(* ===================================================================== *)

Lemma dotCount_app a b : dotCount (a ++ b) = (dotCount a + dotCount b)%nat.
Proof. unfold dotCount. by rewrite List.filter_app, length_app. Qed.

Lemma outlineRest_suffix s : exists pre, s = pre ++ outlineRest s.
Proof.
  induction s as [|c s [pre IH]]; [by exists []|]. simpl.
  destruct (isDigit c).
  - exists (c :: pre). by rewrite <- app_comm_cons, <- IH.
  - destruct (c =? DOT); [|by exists []].
    destruct s as [|d s]; [by exists [c]|].
    destruct (isDigit d); [|by exists [c]].
    exists (c :: pre). by rewrite <- app_comm_cons, <- IH.
Qed.

Lemma outlinePrefix_split s :
  s = outlinePrefix s ++ afterOutlinePrefix s.
Proof.
  destruct s as [|c s]; [done|]. unfold outlinePrefix, afterOutlinePrefix.
  destruct (outlineRest_suffix s) as [pre H].
  assert (length (c :: s) - length (outlineRest s) = length (c :: pre))%nat as ->.
  { rewrite H at 1. simpl. rewrite length_app. lia. }
  rewrite H at 1 2. change (c :: pre ++ outlineRest s) with ((c :: pre) ++ outlineRest s).
  by rewrite take_app_length.
Qed.

Lemma placeholderAt_length s len name :
  placeholderAt s = Some (len, name) -> (1 <= len <= length s)%nat.
Proof.
  unfold placeholderAt. intros H. destruct_matches H; simplify_eq.
  match goal with
  | E : drop ?n ?l = _ |- _ =>
      apply (f_equal length) in E; rewrite length_drop in E;
      cbn [length] in *; lia
  end.
Qed.

Lemma placeholderSearch_index s i index len name :
  placeholderSearch s i = Some (index, (len, name)) ->
  (i <= index)%nat /\ (1 <= len)%nat /\ (index + len <= i + length s)%nat.
Proof.
  revert i. induction s as [|c s IH]; intros i.
  - intros H. cbn in H. done.
  - cbn [placeholderSearch]. destruct (placeholderAt (c :: s)) as [[l n]|] eqn:E.
    + intros; simplify_eq. apply placeholderAt_length in E. lia.
    + intros H. apply IH in H. cbn [length]. lia.
Qed.

(** The loop of [extractPlaceholders] returns before its fuel is used
    up. *)
Lemma placeholderLoop_total fuel text pl acc :
  (pl <= length text < pl + fuel)%nat ->
  is_Some (placeholderLoop fuel text pl acc).
Proof.
  revert pl acc. induction fuel as [|fuel IH]; intros pl acc Hf; [lia|].
  cbn [placeholderLoop].
  destruct (pl <=? length text)%nat eqn:E; [|by eexists].
  destruct (placeholderSearch (drop pl text) pl) as [[index [len name]]|] eqn:Es;
    [|by eexists].
  apply placeholderSearch_index in Es. rewrite length_drop in Es.
  apply IH. lia.
Qed.

Lemma extractPlaceholders_total text :
  placeholderLoop (S (length text)) text 0 [] = Some (extractPlaceholders text).
Proof.
  unfold extractPlaceholders.
  destruct (placeholderLoop_total (S (length text)) text 0 []) as [r ->]; [lia|].
  reflexivity.
Qed.

(** ** C6 *)

(** C6, as stated, fails.  A short numbered line that holds a placeholder
    is taken by the placeholder branch and gets level 1; and the dots are
    counted in the whole line, so a dot in the title raises the level. *)
Lemma numbered_line_level_differs :
  map sec_level (fallbackStructure sampleIds (lit "2.1 Background {{BG}}")) = [1%Z] /\
  isNumberedHeading (lit "2.1 Background {{BG}}") = true /\
  Z.min 4 (Z.of_nat (dotCount (outlinePrefix (lit "2.1 Background {{BG}}"))) + 1) = 2%Z /\
  map sec_level (fallbackStructure sampleIds (lit "1.1 Results vs. Baseline")) = [3%Z] /\
  isNumberedHeading (lit "1.1 Results vs. Baseline") = true /\
  outlinePrefix (lit "1.1 Results vs. Baseline") = lit "1.1" /\
  Z.min 4 (Z.of_nat (dotCount (outlinePrefix (lit "1.1 Results vs. Baseline"))) + 1) = 2%Z.
Proof. vm_compute. repeat split. Qed.

(** C6, amended. In the pattern based fallback a line of at most 100
    characters, once trimmed, that holds no placeholder, starts with a
    numeric outline prefix followed by white space and an upper case letter
    and has no dot after that prefix, becomes a section whose level is
    [min(4, dotCount + 1)], [dotCount] being the number of dots of the
    prefix; a line of at most 100 characters that holds a placeholder
    becomes a section of level 1 instead; the search for placeholders
    always ends.  The line 2.1 Background gives level 2. *)
Theorem numbered_heading_level
    (generateId : nat -> jsstring) (st : FallbackState) (line : jsstring) :
  (length (trim line) <= 100)%nat ->
  placeholderLoop (S (length (trim line))) (trim line) 0 []
    = Some (extractPlaceholders (trim line)) /\
  (extractPlaceholders (trim line) = [] ->
   isNumberedHeading (trim line) = true ->
   dotCount (afterOutlinePrefix (trim line)) = 0%nat ->
   fallbackLine generateId st line =
     {| fb_structure := fb_structure st ++
          [{| sec_id := generateId (fb_ids st);
              sec_level := Z.min 4 (Z.of_nat (dotCount (outlinePrefix (trim line))) + 1);
              sec_title := trim line;
              sec_placeholder := None;
              sec_order := fb_order st;
              sec_isTitle := false |}];
        fb_order := S (fb_order st);
        fb_ids := S (fb_ids st) |}) /\
  (forall ph rest,
      extractPlaceholders (trim line) = ph :: rest ->
      fallbackLine generateId st line =
        {| fb_structure := fb_structure st ++
             [{| sec_id := generateId (fb_ids st);
                 sec_level := 1;
                 sec_title := trim line;
                 sec_placeholder := Some (ph_name ph);
                 sec_order := fb_order st;
                 sec_isTitle := false |}];
           fb_order := S (fb_order st);
           fb_ids := S (fb_ids st) |}) /\
  map (fun x => (sec_title (section x), sec_level (section x), parentId x))
      (parseTemplateFallback generateId (lit "2.1 Background"))
    = [(lit "2.1 Background", 2%Z, None)].
Proof.
  intros Hlen.
  assert ((100 <? length (trim line))%nat = false) as Hshort
    by (apply Nat.ltb_ge; lia).
  split; [apply extractPlaceholders_total|].
  split; [|split].
  - intros Hph Hnum Hdots. unfold fallbackLine.
    rewrite Hshort, Hph, Hnum.
    rewrite (outlinePrefix_split (trim line)) at 1.
    rewrite dotCount_app, Hdots, Nat.add_0_r.
    by rewrite Z.min_comm.
  - intros ph rest Hph. unfold fallbackLine. by rewrite Hshort, Hph.
  - vm_compute. reflexivity.
Qed.

Lemma numbered_heading_level_witness :
  fb_structure
    (fallbackLine sampleIds {| fb_structure := []; fb_order := 1; fb_ids := 0 |}
                  (lit "  1.2.3 Related Work "))
  = [{| sec_id := sampleIds 0; sec_level := 3;
        sec_title := lit "1.2.3 Related Work"; sec_placeholder := None;
        sec_order := 1; sec_isTitle := false |}].
Proof.
  pose proof (numbered_heading_level sampleIds
                {| fb_structure := []; fb_order := 1; fb_ids := 0 |}
                (lit "  1.2.3 Related Work ")) as H.
  destruct H as (_ & H & _); [vm_compute; lia|].
  rewrite H; [vm_compute; reflexivity | vm_compute; reflexivity ..].
Defined.

(* ===================================================================== *)
(** * The export                                                          *)
(* ===================================================================== *)

Lemma count_app {A} (f : A -> bool) l k :
  count f (l ++ k) = (count f l + count f k)%nat.
Proof. unfold count. by rewrite List.filter_app, length_app. Qed.

Lemma count_none {A} (f : A -> bool) l :
  Forall (fun x => f x = false) l -> count f l = 0%nat.
Proof.
  unfold count. induction 1 as [|x l Hx _ IH]; [done|]. simpl. by rewrite Hx.
Qed.

Lemma count_cons {A} (f : A -> bool) x l :
  count f (x :: l) = ((if f x then 1 else 0) + count f l)%nat.
Proof. unfold count. simpl. by destruct (f x). Qed.

Lemma headingsOf_none body :
  count isHeadingElement body = 0%nat -> headingsOf body = [].
Proof.
  unfold headingsOf. induction body as [|e body IH]; [done|].
  rewrite count_cons. cbn [flat_map].
  destruct e as [p|rows0]; [|exact IH].
  destruct (isHeadingElement (EParagraph p)); [lia | exact IH].
Qed.

Lemma fold_append_Forall {A B} (P : B -> Prop) (f : A -> list B) l acc :
  Forall P acc -> (forall x, Forall P (f x)) ->
  Forall P (fold_left (fun elements x => elements ++ f x) l acc).
Proof.
  revert acc. induction l as [|x l IH]; intros acc Ha Hf; simpl; [done|].
  apply IH; [|done]. apply Forall_app. split; [done | apply Hf].
Qed.

(** The content of a section gives tables, bullets and justified
    paragraphs: no heading, and nothing that looks like the placeholder. *)
Lemma convertParagraphToDocx_plain para :
  Forall (fun e => isHeadingElement e = false /\ isPlaceholderElement e = false)
         (convertParagraphToDocx para).
Proof.
  unfold convertParagraphToDocx.
  set (trimmed := trim para).
  assert (Forall (fun e => isHeadingElement e = false /\ isPlaceholderElement e = false)
            (if startsBullet trimmed || startsNumbered trimmed
             then flat_map
                    (fun item =>
                       let text := trim (stripListMarker item) in
                       if nonEmpty text then [EParagraph (bulletParagraph text)] else [])
                    (splitChar LF trimmed)
             else [EParagraph (createParagraph trimmed noOptions)])) as Hlist.
  { destruct (_ || _); [|by repeat constructor].
    induction (splitChar LF trimmed) as [|item items IH]; simpl; [constructor|].
    apply Forall_app. split; [|exact IH].
    destruct (nonEmpty _); by repeat constructor. }
  destruct (_ && _); [|exact Hlist].
  destruct (parseMarkdownTable trimmed); [|exact Hlist].
  by repeat constructor.
Qed.

Lemma convertContentToDocx_plain text :
  Forall (fun e => isHeadingElement e = false /\ isPlaceholderElement e = false)
         (convertContentToDocx text).
Proof.
  unfold convertContentToDocx.
  apply fold_append_Forall; [constructor | apply convertParagraphToDocx_plain].
Qed.

Lemma exportSection_block draft children ts :
  exportSection draft children ts = children ++ sectionBlock draft ts.
Proof.
  unfold exportSection, sectionBlock, sectionBody, placeholderParagraph.
  destruct (findDraftSection draft ts) as [sec|];
    [destruct (nonEmpty (ds_content sec))|]; by rewrite <- app_assoc.
Qed.

Lemma export_loop draft structure children :
  fold_left (exportSection draft) structure children
  = children ++ flat_map (sectionBlock draft) structure.
Proof.
  revert children. induction structure as [|ts structure IH]; intros children; simpl.
  - by rewrite app_nil_r.
  - by rewrite IH, exportSection_block, <- app_assoc.
Qed.

Lemma createHeading_is_heading title level :
  isHeadingElement (EParagraph (createHeading title level)) = true /\
  isPlaceholderElement (EParagraph (createHeading title level)) = false.
Proof.
  split; [|done]. unfold isHeadingElement, createHeading, getDocxHeadingLevel. simpl.
  repeat match goal with |- context [if ?b then _ else _] => destruct b end; done.
Qed.

Lemma sectionBody_headings draft ts :
  count isHeadingElement (sectionBody draft ts) = 0%nat.
Proof.
  apply count_none. unfold sectionBody.
  destruct (findDraftSection draft ts) as [sec|]; [|by repeat constructor].
  destruct (nonEmpty (ds_content sec)); [|by repeat constructor].
  eapply Forall_impl; [apply convertContentToDocx_plain|]. by intros e [? ?].
Qed.

Lemma sectionBody_placeholders draft ts :
  count isPlaceholderElement (sectionBody draft ts)
  = if populated draft ts then 0%nat else 1%nat.
Proof.
  unfold sectionBody, populated.
  destruct (findDraftSection draft ts) as [sec|]; [|by vm_compute].
  destruct (nonEmpty (ds_content sec)); [|by vm_compute].
  apply count_none.
  eapply Forall_impl; [apply convertContentToDocx_plain|]. by intros e [? ?].
Qed.

Lemma template_part_counts draft structure :
  let part := flat_map (sectionBlock draft) structure in
  count isHeadingElement part = length structure /\
  count isPlaceholderElement part
    = length (List.filter (fun ts => negb (populated draft ts)) structure) /\
  headingsOf part
    = map (fun ts => (Some (ts_title ts), Some (getDocxHeadingLevel (ts_level ts))))
          structure.
Proof.
  induction structure as [|ts structure (IH1 & IH2 & IH3)]; [done|].
  cbn zeta in *. cbn [flat_map]. unfold sectionBlock at 1 3 5.
  destruct (createHeading_is_heading (ts_title ts) (ts_level ts)) as [Hh Hp].
  split; [|split].
  - rewrite count_app, IH1, count_cons, Hh, sectionBody_headings. simpl. lia.
  - rewrite count_app, IH2, count_cons, Hp, sectionBody_placeholders.
    cbn [List.filter]. by destruct (populated draft ts).
  - unfold headingsOf in *. rewrite flat_map_app, IH3. cbn [flat_map map].
    rewrite Hh. cbn [app]. f_equal.
    fold (headingsOf (sectionBody draft ts)).
    by rewrite (headingsOf_none _ (sectionBody_headings draft ts)).
Qed.

Lemma imap_Forall {A B} (P : B -> Prop) (f : nat -> A -> B) (l : list A) :
  (forall i x, P (f i x)) -> Forall P (imap f l).
Proof.
  revert f. induction l as [|x l IH]; intros f Hf; [constructor|].
  cbn [imap]. constructor; [apply Hf|]. apply IH. intros i y. apply Hf.
Qed.

Lemma filter_negb_length {A} (f : A -> bool) (l : list A) :
  (length (List.filter f l) + length (List.filter (fun x => negb (f x)) l))%nat
  = length l.
Proof.
  induction l as [|x l IH]; [done|]. simpl.
  destruct (f x); simpl; lia.
Qed.

(** ** C2 *)

(** C2. For every template structure and every draft the export is the
    title paragraph, then for each template section, in template order, one
    section heading followed by the content of the matching draft section,
    or by the placeholder paragraph when there is no matching section or
    its content is empty, then the references when there are any.  The
    content never holds a heading, so the section headings before the
    references are those of the template, one each; the only other heading
    is the one of the references.  A template of five sections with
    content for three of them gives five template headings, and two
    placeholder paragraphs in the whole export. *)
Theorem export_follows_template
    (draft : ExportDraft) (structure : list TemplateSection) (options : ExportOptions) :
  let out := generateDocx draft structure options in
  let part := flat_map (sectionBlock draft) structure in
  exists titleParagraph referencesPart,
    out = titleParagraph :: part ++ referencesPart /\
    headingsOf [titleParagraph] = [] /\
    (forall ts, populated draft ts = false ->
                sectionBlock draft ts
                = [EParagraph (createHeading (ts_title ts) (ts_level ts));
                   placeholderParagraph]) /\
    (forall ts, exists body,
        sectionBlock draft ts
          = EParagraph (createHeading (ts_title ts) (ts_level ts)) :: body /\
        headingsOf body = [] /\
        (populated draft ts = true -> count isPlaceholderElement body = 0%nat)) /\
    headingsOf part
      = map (fun ts => (Some (ts_title ts), Some (getDocxHeadingLevel (ts_level ts))))
            structure /\
    headingsOf out
      = headingsOf part
        ++ (if emitsReferences draft options
            then [(Some (lit "References"), Some HEADING_1)] else []) /\
    (emitsReferences draft options = false -> referencesPart = []) /\
    count isPlaceholderElement out
      = length (List.filter (fun ts => negb (populated draft ts)) structure) /\
    (length structure = 5%nat ->
     length (List.filter (populated draft) structure) = 3%nat ->
     length (headingsOf part) = 5%nat /\ count isPlaceholderElement out = 2%nat).
Proof.
  intros out part.
  destruct (template_part_counts draft structure) as (Hh & Hp & Hs). fold part in Hh, Hp, Hs.
  set (titleParagraph :=
         EParagraph {| p_text := Some (default (lit "Research Report") (opt_title options));
                       p_children := []; p_heading := Some TITLE;
                       p_alignment := Some CENTER;
                       p_spacing := Some {| sp_before := None; sp_after := Some 400%Z |};
                       p_indent := None; p_bullet := None; p_bold := false |}).
  set (referencesPart :=
         match references draft with
         | Some (r :: rs) =>
             if default true (opt_includeReferences options) then
               [EParagraph {| p_text := None; p_children := [PageBreak];
                              p_heading := None; p_alignment := None;
                              p_spacing := None; p_indent := None;
                              p_bullet := None; p_bold := false |}]
               ++ [EParagraph (createHeading (lit "References") 1)]
               ++ imap (fun i ref => EParagraph (referenceParagraph ref i)) (r :: rs)
             else []
         | _ => []
         end).
  assert (Hout : out = titleParagraph :: part ++ referencesPart).
  { unfold out, generateDocx. rewrite export_loop. fold part. fold titleParagraph.
    unfold referencesPart.
    destruct (references draft) as [[|r rs]|]; simpl; rewrite ?app_nil_r; try done.
    destruct (default true (opt_includeReferences options)); simpl;
      rewrite ?app_nil_r; done. }
  assert (Hrefs : forall (l : list Reference),
             Forall (fun e => isHeadingElement e = false /\ isPlaceholderElement e = false)
                    (imap (fun i ref => EParagraph (referenceParagraph ref i)) l)).
  { intros l. by apply imap_Forall. }
  assert (HrefsH : headingsOf referencesPart
                   = if emitsReferences draft options
                     then [(Some (lit "References"), Some HEADING_1)] else []).
  { unfold referencesPart, emitsReferences.
    destruct (references draft) as [[|r rs]|]; try done.
    destruct (default true (opt_includeReferences options)); [|done].
    assert (headingsOf (imap (fun i ref => EParagraph (referenceParagraph ref i)) (r :: rs))
            = []) as Hnone.
    { apply headingsOf_none, count_none.
      eapply Forall_impl; [apply Hrefs|]. by intros e [? ?]. }
    unfold headingsOf in *. rewrite !flat_map_app, Hnone. reflexivity. }
  assert (HrefsP : count isPlaceholderElement referencesPart = 0%nat).
  { unfold referencesPart.
    destruct (references draft) as [[|r rs]|]; try done.
    destruct (default true (opt_includeReferences options)); [|done].
    rewrite !count_app.
    rewrite (count_none isPlaceholderElement (imap _ _)); [done|].
    eapply Forall_impl; [apply Hrefs|]. by intros e [? ?]. }
  assert (HoutP : count isPlaceholderElement out
                  = length (List.filter (fun ts => negb (populated draft ts)) structure)).
  { rewrite Hout, count_cons, count_app, Hp, HrefsP. simpl. lia. }
  exists titleParagraph, referencesPart.
  split; [exact Hout|]. split; [done|].
  split.
  { intros ts Hpop. unfold sectionBlock, sectionBody. unfold populated in Hpop.
    destruct (findDraftSection draft ts) as [sec|]; [|done]. by rewrite Hpop. }
  split.
  { intros ts. exists (sectionBody draft ts). split; [done|].
    split; [apply headingsOf_none, sectionBody_headings|].
    intros Hpop. by rewrite sectionBody_placeholders, Hpop. }
  split; [exact Hs|].
  split.
  { rewrite Hout. unfold headingsOf at 1. cbn [flat_map]. simpl app.
    rewrite flat_map_app. fold (headingsOf part). fold (headingsOf referencesPart).
    by rewrite HrefsH. }
  split.
  { unfold referencesPart, emitsReferences.
    destruct (references draft) as [[|r rs]|]; try done.
    by intros ->. }
  split; [exact HoutP|].
  intros H5 H3. split.
  - by rewrite Hs, length_map.
  - rewrite HoutP. pose proof (filter_negb_length (populated draft) structure). lia.
Qed.

Lemma export_follows_template_witness :
  length (headingsOf (flat_map (sectionBlock sampleDraft) sampleTemplate)) = 5%nat /\
  count isPlaceholderElement (generateDocx sampleDraft sampleTemplate defaultOptions)
    = 2%nat.
Proof.
  destruct (export_follows_template sampleDraft sampleTemplate defaultOptions)
    as (t & r & _ & _ & _ & _ & _ & _ & _ & _ & H).
  apply H; vm_compute; reflexivity.
Defined.

(* ===================================================================== *)
(** * Updating a section of the draft                                     *)
(* ===================================================================== *)

Lemma count_zero_Forall {A} (f : A -> bool) l :
  count f l = 0%nat -> Forall (fun x => f x = false) l.
Proof.
  induction l as [|x l IH]; [constructor|].
  rewrite count_cons. destruct (f x) eqn:E; [lia|].
  intros H. constructor; [done | by apply IH].
Qed.

Lemma hasId_find_None sid nodes :
  Forall (fun n => hasId sid n = false) nodes ->
  list_find (fun n => nodeId n = Some sid) nodes = None.
Proof.
  intros H. apply list_find_None. eapply Forall_impl; [exact H|].
  intros n Hn. unfold hasId in Hn. by apply bool_decide_eq_false in Hn.
Qed.

(** Where the first node with the id is, if there is one. *)
Lemma find_section_split sid nodes :
  (exists before x after,
      nodes = before ++ x :: after /\ hasId sid x = true /\
      Forall (fun n => hasId sid n = false) before /\
      list_find (fun n => nodeId n = Some sid) nodes = Some (length before, x)) \/
  (Forall (fun n => hasId sid n = false) nodes /\
   list_find (fun n => nodeId n = Some sid) nodes = None).
Proof.
  destruct (list_find (fun n => nodeId n = Some sid) nodes) as [[i x]|] eqn:E.
  - left. apply list_find_Some in E as (Hi & Hx & Hbefore).
    exists (take i nodes), x, (drop (S i) nodes).
    assert (i < length nodes)%nat as Hlt by (by eapply lookup_lt_Some).
    split; [by rewrite take_drop_middle|].
    split; [unfold hasId; by apply bool_decide_eq_true|].
    split.
    + apply Forall_forall. intros n Hn.
      apply elem_of_take in Hn as (j & Hj & Hji).
      unfold hasId. apply bool_decide_eq_false. by eapply Hbefore.
    + by rewrite length_take_le by lia.
  - right. split; [|done]. apply list_find_None in E.
    eapply Forall_impl; [exact E|]. intros n Hn.
    unfold hasId. by apply bool_decide_eq_false.
Qed.

Lemma find_section_middle sid before x after :
  hasId sid x = true ->
  Forall (fun n => hasId sid n = false) before ->
  list_find (fun n => nodeId n = Some sid) (before ++ x :: after)
  = Some (length before, x).
Proof.
  intros Hx Hb. apply list_find_Some. split; [|split].
  - by rewrite list_lookup_middle.
  - unfold hasId in Hx. by apply bool_decide_eq_true in Hx.
  - intros j y Hj Hlt. rewrite lookup_app_l in Hj by done.
    rewrite Forall_forall in Hb.
    assert (hasId sid y = false) as Hy by (apply Hb; by eapply list_elem_of_lookup_2).
    unfold hasId in Hy. by apply bool_decide_eq_false in Hy.
Qed.

Lemma insert_middle (before after : list PMNode) x y :
  <[length before := y]> (before ++ x :: after) = before ++ y :: after.
Proof.
  rewrite insert_app_r_alt by lia. by rewrite Nat.sub_diag.
Qed.

(** Two updates for the same id: the second node stands where the first
    node with that id stood, or at the end, and nowhere else. *)
Lemma upsertNode_twice sid node1 node2 nodes :
  hasId sid node1 = true ->
  (count (hasId sid) nodes <= 1)%nat ->
  exists before after,
    upsertNode sid node2 (upsertNode sid node1 nodes) = before ++ node2 :: after /\
    Forall (fun n => hasId sid n = false) before /\
    Forall (fun n => hasId sid n = false) after /\
    ((exists x, hasId sid x = true /\ nodes = before ++ x :: after) \/
     (nodes = before /\ after = [])).
Proof.
  intros H1 Hcount. unfold upsertNode at 2.
  destruct (find_section_split sid nodes)
    as [(before & x & after & -> & Hx & Hb & ->)|[Hnone ->]].
  - exists before, after.
    rewrite count_app, count_cons, Hx in Hcount.
    assert (Forall (fun n => hasId sid n = false) after) as Ha
      by (apply count_zero_Forall; lia).
    rewrite insert_middle. unfold upsertNode.
    rewrite (find_section_middle sid before node1 after H1 Hb), insert_middle.
    repeat split; try done. left. by exists x.
  - exists nodes, []. unfold upsertNode.
    rewrite (find_section_middle sid nodes node1 [] H1 Hnone), insert_middle.
    repeat split; try done. by right.
Qed.

(** The ids of the tree stay distinct under an update. *)
Lemma upsertNode_unique_ids sid node nodes :
  nodeId node = Some sid ->
  (forall s, count (hasId s) nodes <= 1)%nat ->
  forall s, (count (hasId s) (upsertNode sid node nodes) <= 1)%nat.
Proof.
  intros Hnode Huniq s. unfold upsertNode.
  assert (hasId s node = bool_decide (s = sid)) as Hs.
  { unfold hasId. rewrite Hnode. apply bool_decide_ext. split; congruence. }
  specialize (Huniq s).
  destruct (find_section_split sid nodes)
    as [(before & x & after & -> & Hx & Hb & ->)|[Hnone ->]].
  - rewrite insert_middle. rewrite count_app, count_cons in *. rewrite Hs.
    case_bool_decide as E; [|destruct (hasId s x); lia].
    subst s. rewrite Hx in Huniq. lia.
  - rewrite count_app, count_cons, Hs.
    case_bool_decide as E; [|unfold count at 2; simpl; lia].
    subst s. rewrite (count_none _ _ Hnone). unfold count. simpl. lia.
Qed.

Lemma sectionNodeOf_id d : hasId (sd_templateSectionId d) (sectionNodeOf d) = true.
Proof. unfold hasId, sectionNodeOf. simpl. by apply bool_decide_eq_true. Qed.

(** One call, when the draft is in the table. *)
Lemma updateDraftSection_once clock db tick draftId d draft :
  db !! draftId = Some draft ->
  updateDraftSection clock db tick draftId d =
    Returned
      (<[draftId :=
           {| project_id := project_id draft;
              version := version draft;
              content := Some (PMElem "doc" None
                                 (Some (upsertNode (sd_templateSectionId d)
                                                   (sectionNodeOf d)
                                                   (currentContentOf draft))));
              section_sources :=
                Some (<[sd_templateSectionId d := sourcesEntry d (clock tick)]>
                        (default ∅ (section_sources draft))) |}]> db,
       S tick).
Proof.
  intros Hd. unfold updateDraftSection, getDraftById, upsertNode. rewrite Hd.
  by destruct (list_find _ _) as [[i x]|].
Qed.

Lemma updateDraftSection_unique_ids clock db tick draftId d draft db' tick' draft' :
  db !! draftId = Some draft ->
  (forall s, count (hasId s) (currentContentOf draft) <= 1)%nat ->
  updateDraftSection clock db tick draftId d = Returned (db', tick') ->
  db' !! draftId = Some draft' ->
  forall s, (count (hasId s) (currentContentOf draft') <= 1)%nat.
Proof.
  intros Hd Huniq Hupd Hd' s.
  rewrite (updateDraftSection_once clock db tick draftId d draft Hd) in Hupd.
  simplify_eq. rewrite lookup_insert_eq in Hd'. simplify_eq. simpl.
  by apply upsertNode_unique_ids.
Qed.

Lemma sourcesEntry_fields d now :
  sourcesEntry d now !! "aiGenerated" = Some (JBool true) /\
  sourcesEntry d now !! "manuallyEdited" = None /\
  isManuallyEdited (sourcesEntry d now) = false /\
  sourcesEntry d now !! "warnings"
    = Some (JArray (map JString (default [] (sd_warnings d)))) /\
  sourcesEntry d now !! "generatedAt" = Some (JString now).
Proof.
  unfold isManuallyEdited, sourcesEntry.
  repeat split; by simplify_map_eq.
Qed.

(** ** C3 *)

(** C3. When [updateDraftSection] is called twice for the same section id
    on a draft whose tree has at most one node with that id, both calls
    return, and the resulting tree has exactly one node with that id: the
    section node built from the second call alone, its heading followed by
    the nodes of the second content, at the position the node had before
    the calls (at the end when there was none); the other nodes are
    untouched.  The entry of [section_sources] for the id is the one of the
    second call: [aiGenerated] true, no [manuallyEdited] flag (it reads as
    false), the warnings of the second call and the clock reading of the
    second call; the other entries are untouched. *)
Theorem update_section_twice
    (clock : nat -> jsstring) (db : gmap jsstring Draft) (tick : nat)
    (draftId : jsstring) (first second : SectionData) (draft : Draft) :
  sd_templateSectionId first = sd_templateSectionId second ->
  db !! draftId = Some draft ->
  (count (hasId (sd_templateSectionId second)) (currentContentOf draft) <= 1)%nat ->
  exists db1 db2 draft2 before after sources entry,
    updateDraftSection clock db tick draftId first = Returned (db1, S tick) /\
    updateDraftSection clock db1 (S tick) draftId second = Returned (db2, S (S tick)) /\
    db2 !! draftId = Some draft2 /\
    (forall other, other <> draftId -> db2 !! other = db !! other) /\
    content draft2
      = Some (PMElem "doc" None (Some (before ++ sectionNodeOf second :: after))) /\
    sectionNodeOf second
      = PMElem "section"
          (Some {| attr_id := Some (sd_templateSectionId second);
                   attr_title := Some (sd_templateSectionTitle second);
                   attr_level := None |})
          (Some (PMElem "heading"
                   (Some {| attr_id := Some (sd_templateSectionId second);
                            attr_title := None; attr_level := Some 1%Z |})
                   (Some [PMText (sd_templateSectionTitle second) []])
                 :: convertContentToProseMirror (sd_content second))) /\
    List.filter (hasId (sd_templateSectionId second))
                (before ++ sectionNodeOf second :: after)
      = [sectionNodeOf second] /\
    ((exists x, hasId (sd_templateSectionId second) x = true /\
                currentContentOf draft = before ++ x :: after) \/
     (currentContentOf draft = before /\ after = [])) /\
    section_sources draft2 = Some sources /\
    sources !! sd_templateSectionId second = Some entry /\
    entry = sourcesEntry second (clock (S tick)) /\
    entry !! "aiGenerated" = Some (JBool true) /\
    entry !! "manuallyEdited" = None /\
    isManuallyEdited entry = false /\
    entry !! "warnings" = Some (JArray (map JString (default [] (sd_warnings second)))) /\
    entry !! "generatedAt" = Some (JString (clock (S tick))) /\
    (forall key, key <> sd_templateSectionId second ->
                 sources !! key = default ∅ (section_sources draft) !! key).
Proof.
  intros Hid Hdraft Hcount.
  pose proof (updateDraftSection_once clock db tick draftId first draft Hdraft) as H1.
  rewrite Hid in H1.
  set (sid := sd_templateSectionId second) in *.
  set (draft1 := {| project_id := project_id draft; version := version draft;
                    content := Some (PMElem "doc" None
                                       (Some (upsertNode sid (sectionNodeOf first)
                                                         (currentContentOf draft))));
                    section_sources :=
                      Some (<[sid := sourcesEntry first (clock tick)]>
                              (default ∅ (section_sources draft))) |}) in *.
  pose proof (updateDraftSection_once clock (<[draftId := draft1]> db) (S tick)
                draftId second draft1 (lookup_insert_eq _ _ _)) as H2.
  rewrite insert_insert_eq in H2. fold sid in H2.
  destruct (upsertNode_twice sid (sectionNodeOf first) (sectionNodeOf second)
              (currentContentOf draft))
    as (before & after & Hnodes & Hb & Ha & Hpos); [|done|].
  { rewrite <- Hid. apply sectionNodeOf_id. }
  destruct (sourcesEntry_fields second (clock (S tick))) as (F1 & F2 & F3 & F4 & F5).
  change (currentContentOf draft1)
    with (upsertNode sid (sectionNodeOf first) (currentContentOf draft)) in H2.
  rewrite Hnodes in H2.
  eexists _, _, _, before, after, _, (sourcesEntry second (clock (S tick))).
  split; [exact H1|]. split; [exact H2|].
  split; [by rewrite lookup_insert_eq|].
  split; [by intros other Ho; rewrite lookup_insert_ne|].
  split; [reflexivity|].
  split; [reflexivity|].
  split.
  { rewrite List.filter_app. cbn [List.filter].
    pose proof (sectionNodeOf_id second) as Hs2. fold sid in Hs2. rewrite Hs2.
    assert (forall l, Forall (fun n => hasId sid n = false) l ->
                      List.filter (hasId sid) l = []) as Hnone.
    { induction 1 as [|n l Hn _ IH]; [done|]. simpl. by rewrite Hn. }
    by rewrite (Hnone before Hb), (Hnone after Ha). }
  split; [exact Hpos|].
  split; [reflexivity|].
  split; [by simpl; rewrite lookup_insert_eq|].
  repeat (split; [done|]).
  intros key Hkey. simpl. by rewrite !lookup_insert_ne.
Qed.

(* ===================================================================== *)
(** * From text to nodes and back                                         *)
(* ===================================================================== *)

Lemma includesChar_false c s : includesChar c s = false <-> c ∉ s.
Proof.
  unfold includesChar. induction s as [|d s IH]; simpl.
  - split; [intros _; apply not_elem_of_nil | done].
  - rewrite orb_false_iff, IH, not_elem_of_cons, N.eqb_neq. done.
Qed.

Lemma words_join_blank ps :
  words (join blankLine ps) = concat (map words ps).
Proof.
  induction ps as [|p ps IH]; [done|].
  destruct ps as [|q ps]; [by simpl; rewrite app_nil_r|].
  rewrite join_cons. unfold blankLine at 1. cbn [app].
  rewrite words_app_sep by done. rewrite words_cons. simpl isWhiteSpace. cbn iota.
  by rewrite IH.
Qed.

Lemma words_nonBlank_filter ps :
  concat (map words (List.filter nonBlank ps)) = concat (map words ps).
Proof.
  induction ps as [|p ps IH]; [done|]. simpl.
  destruct (nonBlank p) eqn:E; simpl; [by rewrite IH|].
  apply nonBlank_false in E. by rewrite (words_allSpace p E), IH.
Qed.

Lemma words_paragraph_parts ps :
  words (concat (map (fun p => trim p ++ blankLine) ps)) = concat (map words ps).
Proof.
  induction ps as [|p ps IH]; [done|]. simpl.
  rewrite <- app_assoc. unfold blankLine at 1. cbn [app].
  rewrite words_app_sep by done. rewrite words_cons. simpl isWhiteSpace. cbn iota.
  by rewrite words_trim, IH.
Qed.

(** Without a star the inline parser returns the text as one run. *)
Lemma emphasisAt_other c s : c <> STAR -> emphasisAt (c :: s) = None.
Proof.
  intros Hc. unfold emphasisAt, boldAt, italicAt.
  assert ((c =? STAR) = false) as -> by (by apply N.eqb_neq).
  by destruct s.
Qed.

Lemma emphasisSearch_no_star s i : STAR ∉ s -> emphasisSearch s i = None.
Proof.
  revert i. induction s as [|c s IH]; intros i Hs; [done|].
  apply not_elem_of_cons in Hs as [Hc Hs].
  cbn [emphasisSearch]. rewrite emphasisAt_other by congruence.
  by apply IH.
Qed.

Lemma parseInlineFormatting_plain t :
  STAR ∉ t -> parseInlineFormatting t = [PMText t []].
Proof.
  intros Ht. unfold parseInlineFormatting. cbn [inlineLoop].
  unfold emphasisExec. cbn [Nat.leb drop].
  rewrite emphasisSearch_no_star by done.
  destruct t as [|c t]; done.
Qed.

Lemma fold_append_map {A B} (f : A -> B) (l : list A) (acc : list B) :
  fold_left (fun nodes x => nodes ++ [f x]) l acc = acc ++ map f l.
Proof.
  revert acc. induction l as [|x l IH]; intros acc; simpl.
  - by rewrite app_nil_r.
  - by rewrite IH, <- app_assoc.
Qed.

Lemma convertContentToProseMirror_map text :
  convertContentToProseMirror text
  = map convertParagraphToNode (List.filter nonBlank (splitBlank text)).
Proof.
  destruct text as [|c text]; [done|].
  unfold convertContentToProseMirror. by rewrite fold_append_map.
Qed.

(** The list tests are kept by an extension of the text. *)
Lemma startsBullet_extend s r : startsBullet s = true -> startsBullet (s ++ r) = true.
Proof. by destruct s as [|a [|b s]]. Qed.

Lemma takeWhile_app_stop p ds a rest :
  Forall (fun c => p c = true) ds -> p a = false ->
  takeWhile p (ds ++ a :: rest) = ds.
Proof.
  induction 1 as [|c ds Hc _ IH]; intros Ha; simpl; [by rewrite Ha|].
  by rewrite Hc, IH.
Qed.

Lemma startsNumbered_extend s r :
  startsNumbered s = true -> startsNumbered (s ++ r) = true.
Proof.
  unfold startsNumbered. intros H.
  destruct (takeWhile isDigit s) as [|c ds] eqn:E; [done|].
  assert (s = (c :: ds) ++ dropWhile isDigit s) as Hs
    by (by rewrite <- E, takeWhile_dropWhile).
  assert (drop (length (c :: ds)) s = dropWhile isDigit s) as Hd
    by (rewrite Hs at 1; by rewrite drop_app_length).
  rewrite Hd in H.
  destruct (dropWhile isDigit s) as [|a [|b rest]] eqn:Ed; [done..|].
  apply andb_true_iff in H as [Ha Hb]. apply N.eqb_eq in Ha. subst a.
  assert (s ++ r = (c :: ds) ++ DOT :: (b :: rest ++ r)) as ->
    by (rewrite Hs at 1; by rewrite <- app_assoc).
  rewrite takeWhile_app_stop; [| rewrite <- E; apply takeWhile_all | done].
  rewrite drop_app_length. simpl. by rewrite Hb.
Qed.

Lemma splitBlank_head_prefix s q qs :
  splitBlank s = q :: qs -> exists r, s = q ++ r.
Proof.
  intros H. rewrite <- (join_splitBlank s), H.
  destruct qs as [|q' qs]; [by exists []; rewrite app_nil_r|].
  rewrite join_cons. by eexists.
Qed.

Lemma anyLineStart_unfold test s atStart :
  anyLineStart test s atStart =
  (atStart && test s) ||
  match s with
  | [] => false
  | c :: s' => anyLineStart test s' (isLineTerminator c)
  end.
Proof. by destruct s. Qed.

(** A pattern that matches at the start of no line of the text matches at
    the start of no line of its paragraphs. *)
Lemma anyLineStart_paragraphs test :
  (forall s r, test s = true -> test (s ++ r) = true) ->
  forall s atStart,
    anyLineStart test s atStart = false ->
    forall (i : nat) p,
      splitBlank s !! i = Some p ->
      anyLineStart test p (match i with O => atStart | S _ => true end) = false.
Proof.
  intros Hmono s. remember (length s) as n eqn:Hn. revert s Hn.
  induction n as [n IH] using lt_wf_ind. intros s Hn atStart Hs i p Hp.
  destruct s as [|c [|d s'']].
  - destruct i; simpl in Hp; by simplify_eq.
  - destruct i; simpl in Hp; by simplify_eq.
  - rewrite splitBlank_cons_unfold in Hp.
    rewrite anyLineStart_unfold in Hs.
    apply orb_false_iff in Hs as [Hhead Hrest].
    destruct ((c =? LF) && (d =? LF)) eqn:E.
    + apply andb_true_iff in E as [->%N.eqb_eq ->%N.eqb_eq].
      rewrite anyLineStart_unfold in Hrest.
      apply orb_false_iff in Hrest as [_ Hrest]. change (isLineTerminator LF) with true in Hrest.
      destruct i as [|j]; simpl in Hp.
      * simplify_eq. rewrite anyLineStart_unfold, orb_false_r.
        destruct atStart; [|done]. rewrite andb_true_l in Hhead. rewrite andb_true_l.
        destruct (test []) eqn:Et; [|done].
        pose proof (Hmono [] (LF :: LF :: s'') Et) as Hm. cbn [app] in Hm. congruence.
      * pose proof (IH (length s'') ltac:(simpl in Hn; lia) s'' eq_refl true Hrest j p Hp) as H.
        by destruct j.
    + destruct (splitBlank (d :: s'')) as [|q qs] eqn:Eq.
      { destruct (splitBlank_nonempty (d :: s'')) as (? & ? & ?). congruence. }
      pose proof (IH (length (d :: s'')) ltac:(simpl in *; lia) (d :: s'') eq_refl
                     (isLineTerminator c) Hrest) as IH'.
      rewrite Eq in IH'.
      destruct i as [|j]; simpl in Hp.
      * simplify_eq. rewrite anyLineStart_unfold.
        rewrite (IH' 0%nat q eq_refl), orb_false_r.
        destruct atStart; [|done]. rewrite andb_true_l in Hhead. rewrite andb_true_l.
        destruct (test (c :: q)) eqn:Et; [|done].
        destruct (splitBlank_head_prefix _ _ _ Eq) as [r Hr].
        rewrite Hr in Hhead.
        pose proof (Hmono (c :: q) r Et) as Hm. cbn [app] in Hm. congruence.
      * exact (IH' (S j) p Hp).
Qed.

Lemma hasListLine_paragraph text p :
  hasListLine text = false -> p ∈ splitBlank text -> hasListLine p = false.
Proof.
  unfold hasListLine. intros [H1 H2]%orb_false_iff Hp.
  apply list_elem_of_lookup in Hp as [i Hi].
  pose proof (anyLineStart_paragraphs startsBullet startsBullet_extend
                text true H1 i p Hi) as B.
  pose proof (anyLineStart_paragraphs startsNumbered startsNumbered_extend
                text true H2 i p Hi) as Nm.
  destruct i; by rewrite B, Nm.
Qed.

(** A plain paragraph becomes a paragraph node with one text node. *)
Lemma convertParagraphToNode_plain text p :
  plainParagraphs text -> p ∈ splitBlank text ->
  convertParagraphToNode p = paragraphOf [PMText (trim p) []].
Proof.
  intros (Hstar & Hpipe & Hlist) Hp. unfold convertParagraphToNode.
  assert (includesChar PIPE p = false) as ->.
  { apply includesChar_false. intros Hc.
    apply includesChar_false in Hpipe. apply Hpipe. by eapply splitBlank_chars. }
  rewrite (hasListLine_paragraph text p Hlist Hp). simpl.
  rewrite parseInlineFormatting_plain; [done|].
  intros Hc. apply trim_chars in Hc.
  apply includesChar_false in Hstar. apply Hstar. by eapply splitBlank_chars.
Qed.

Lemma extract_paragraph_nodes ps :
  concat (flat_map extractText (map (fun p => paragraphOf [PMText (trim p) []]) ps))
  = concat (map (fun p => trim p ++ blankLine) ps).
Proof.
  induction ps as [|p ps IH]; [done|].
  cbn [map flat_map]. rewrite concat_app, IH. simpl. by rewrite ?app_nil_r.
Qed.

Lemma concat_paragraph_parts p ps :
  concat (map (fun p => trim p ++ blankLine) (p :: ps))
  = join blankLine (map trim (p :: ps)) ++ blankLine.
Proof.
  revert p. induction ps as [|q ps IH]; intros p.
  - simpl. by rewrite app_nil_r.
  - change (map (fun p => trim p ++ blankLine) (p :: q :: ps))
      with ((trim p ++ blankLine) :: map (fun p => trim p ++ blankLine) (q :: ps)).
    cbn [concat]. rewrite (IH q).
    change (map trim (p :: q :: ps)) with (trim p :: trim q :: map trim ps).
    rewrite join_cons. change (map trim (q :: ps)) with (trim q :: map trim ps).
    by rewrite <- !app_assoc.
Qed.

Lemma trim_paragraph_parts ps :
  Forall (fun p => nonBlank p = true) ps ->
  trim (concat (map (fun p => trim p ++ blankLine) ps))
  = join blankLine (map trim ps).
Proof.
  intros Hps.
  assert (edgeFree (join blankLine (map trim ps))) as Hedge.
  { apply join_edgeFree. apply Forall_map.
    eapply Forall_impl; [exact Hps|]. intros p Hp. simpl.
    split; [|apply trim_edgeFree].
    unfold nonBlank in Hp. by destruct (trim p). }
  destruct ps as [|p ps]; [done|].
  rewrite concat_paragraph_parts.
  apply (trim_unique [] _ blankLine);
    [constructor | by repeat constructor | exact Hedge].
Qed.

(** ** C5 *)

(** C5. For every text of plain paragraphs (no star, no pipe, no line that
    starts as a list item), the text extracted from the section node built
    from the text is the text with its paragraphs trimmed and its blank
    paragraphs dropped, the rest joined by blank lines; after the
    normalisation of white space it is the normalised text. *)
Theorem plain_text_round_trip (d : SectionData) :
  plainParagraphs (sd_content d) ->
  extractSectionText (sectionNodeOf d)
    = join blankLine (map trim (List.filter nonBlank (splitBlank (sd_content d)))) /\
  normalizeWhitespace (extractSectionText (sectionNodeOf d))
    = normalizeWhitespace (sd_content d).
Proof.
  intros Hplain. set (text := sd_content d) in *.
  set (ps := List.filter nonBlank (splitBlank text)).
  assert (Hnodes : convertContentToProseMirror text
                   = map (fun p => paragraphOf [PMText (trim p) []]) ps).
  { rewrite convertContentToProseMirror_map. fold ps.
    apply map_ext_in. intros p Hp. unfold ps in Hp.
    apply filter_In in Hp as [Hp _].
    apply (convertParagraphToNode_plain text); [done | by apply list_elem_of_In]. }
  assert (Hraw : extractSectionText (sectionNodeOf d)
                 = trim (concat (map (fun p => trim p ++ blankLine) ps))).
  { unfold sectionNodeOf, extractSectionText. fold text. rewrite Hnodes.
    cbn [flat_map]. change (extractText (PMElem "heading" _ _)) with (@nil jsstring).
    cbn [app]. by rewrite extract_paragraph_nodes. }
  split.
  - rewrite Hraw. apply trim_paragraph_parts.
    apply Forall_forall. intros p Hp. unfold ps in Hp.
    by apply list_elem_of_In, filter_In in Hp as [_ Hp].
  - rewrite Hraw, !normalizeWhitespace_words, words_trim, words_paragraph_parts.
    unfold ps. rewrite words_nonBlank_filter.
    rewrite <- (join_splitBlank text) at 2. by rewrite words_join_blank.
Qed.

Lemma plain_text_round_trip_witness :
  extractSectionText
    (sectionNodeOf {| sd_templateSectionId := lit "s1";
                      sd_templateSectionTitle := lit "Results";
                      sd_content := samplePlainText;
                      sd_sourceRefs := None; sd_warnings := None |})
  = lit "Growth was   steady." ++ [LF; LF] ++ lit "It slowed in 2020."
    ++ [LF] ++ lit "Then it recovered.".
Proof.
  destruct (plain_text_round_trip
              {| sd_templateSectionId := lit "s1";
                 sd_templateSectionTitle := lit "Results";
                 sd_content := samplePlainText;
                 sd_sourceRefs := None; sd_warnings := None |}) as [H _].
  - vm_compute. repeat split.
  - rewrite H. vm_compute. reflexivity.
Defined.

(* ===================================================================== *)
(** * The properties at sample inputs                                     *)
(* ===================================================================== *)

Lemma buildHierarchy_nearest_lower_parent_witness :
  map parentId (buildHierarchy sampleStructure)
    = [None; Some (lit "a"); Some (lit "b"); Some (lit "a"); None] /\
  forall x, x ∈ buildHierarchy sampleStructure ->
    exists chain root,
      ancestors (length sampleStructure) (buildHierarchy sampleStructure) x = Some chain /\
      strictlyDecreasing (x :: chain) /\
      last (x :: chain) = Some root /\ parentId root = None /\
      idOf x ∉ map idOf chain.
Proof.
  split; [vm_compute; reflexivity|].
  destruct (buildHierarchy_nearest_lower_parent sampleStructure) as (_ & _ & H).
  apply H. apply (bool_decide_unpack _). vm_compute. exact I.
Defined.

Lemma failure_phrase_short_circuits_witness :
  exists reason phrase before after,
    phrase ∈ concat FAILURE_MARKERS /\
    equalCI phrase reason = true /\
    cleanGeneratedText failedResponse = before ++ reason ++ after /\
    detectFailure (cleanGeneratedText failedResponse) = Some reason /\
    parseSectionContent failedResponse (lit "Results") =
      {| sc_success := false;
         sc_content := [];
         sc_sectionTitle := lit "Results";
         sc_error := Some (lit "Could not generate content: " ++ reason);
         sc_needsManualInput := Some true;
         sc_warnings := None;
         sc_metadata := None |}.
Proof.
  apply (failure_phrase_short_circuits failedResponse (lit "Results")
           [lit "unable to generate"; lit "unable to create"; lit "unable to write"]
           (lit "unable to generate")).
  - apply list_elem_of_In. vm_compute. tauto.
  - apply list_elem_of_In. vm_compute. tauto.
  - vm_compute. reflexivity.
Defined.

Lemma saveDraftContent_marks_every_entry_witness :
  exists data marked tick',
    saveDraftContent sampleClock sampleDb 0 (lit "project-1") None
      = Returned (data, <[lit "draft-1" := data]> sampleDb, tick') /\
    content data = None /\
    section_sources data = Some marked /\
    (exists entry,
        marked !! lit "s1" = Some entry /\
        entry !! "manuallyEdited" = Some (JBool true) /\
        entry !! "aiGenerated" = Some (JBool true)) /\
    (exists entry,
        marked !! lit "s2" = Some entry /\
        entry !! "manuallyEdited" = Some (JBool true) /\
        entry !! "warnings" = Some (JArray [JString (lit "short")])).
Proof.
  destruct (saveDraftContent_marks_every_entry sampleClock sampleDb 0
              (lit "project-1") None (lit "draft-1") sampleDraftRow)
    as (data & marked & tick' & Hsave & _ & Hc & _ & _ & Hs & Hm & _).
  { vm_compute; reflexivity. }
  exists data, marked, tick'.
  split; [exact Hsave|]. split; [exact Hc|]. split; [exact Hs|].
  split.
  - specialize (Hm (lit "s1")).
    assert (default ∅ (section_sources sampleDraftRow) !! lit "s1"
            = Some ({[ "aiGenerated" := JBool true; "manuallyEdited" := JBool true;
                       "warnings" := JArray [] ]} : gmap string Json)) as E
      by (vm_compute; reflexivity).
    rewrite E in Hm.
    destruct Hm as (t & entry & _ & He & _ & H1 & _ & Hf).
    exists entry. split; [exact He|]. split; [exact H1|].
    rewrite Hf by discriminate. vm_compute; reflexivity.
  - specialize (Hm (lit "s2")).
    assert (default ∅ (section_sources sampleDraftRow) !! lit "s2"
            = Some ({[ "aiGenerated" := JBool true;
                       "warnings" := JArray [JString (lit "short")] ]}
                    : gmap string Json)) as E
      by (vm_compute; reflexivity).
    rewrite E in Hm.
    destruct Hm as (t & entry & _ & He & _ & H1 & _ & Hf).
    exists entry. split; [exact He|]. split; [exact H1|].
    rewrite Hf by discriminate. vm_compute; reflexivity.
Defined.

Lemma update_section_twice_witness :
  exists db1 db2 draft2 before after entry,
    updateDraftSection sampleClock sampleDb 0 (lit "draft-1") firstResult
      = Returned (db1, 1%nat) /\
    updateDraftSection sampleClock db1 1 (lit "draft-1") secondResult
      = Returned (db2, 2%nat) /\
    db2 !! lit "draft-1" = Some draft2 /\
    content draft2
      = Some (PMElem "doc" None (Some (before ++ sectionNodeOf secondResult :: after))) /\
    List.filter (hasId (lit "s1")) (before ++ sectionNodeOf secondResult :: after)
      = [sectionNodeOf secondResult] /\
    entry = sourcesEntry secondResult (sampleClock 1) /\
    isManuallyEdited entry = false.
Proof.
  destruct (update_section_twice sampleClock sampleDb 0 (lit "draft-1")
              firstResult secondResult sampleDraftRow)
    as (db1 & db2 & draft2 & before & after & sources & entry
        & H1 & H2 & H3 & _ & H4 & _ & H5 & _ & _ & _ & H6 & _ & _ & H7 & _).
  { reflexivity. }
  { vm_compute; reflexivity. }
  { vm_compute; lia. }
  exists db1, db2, draft2, before, after, entry.
  split; [exact H1|]. split; [exact H2|]. split; [exact H3|].
  split; [exact H4|]. split; [exact H5|]. split; [exact H6 | exact H7].
Defined.

Lemma containsCI_app phrase before text :
  containsCI phrase text = true -> containsCI phrase (before ++ text) = true.
Proof.
  intros H. induction before as [|c before IH]; [done|].
  simpl. rewrite IH. apply orb_true_r.
Qed.

Lemma startsWithCI_app phrase text after :
  startsWithCI phrase text = true -> startsWithCI phrase (text ++ after) = true.
Proof.
  revert text. induction phrase as [|a phrase IH]; intros text; [done|].
  destruct text as [|b text]; [done|]. simpl.
  intros [-> H]%andb_true_iff. simpl. by apply IH.
Qed.

Lemma containsCI_occurrence phrase reason before after :
  equalCI phrase reason = true ->
  containsCI phrase (before ++ reason ++ after) = true.
Proof.
  intros [_ H]%andb_true_iff. apply containsCI_app.
  assert (startsWithCI phrase (reason ++ after) = true) as Hs
    by (by apply startsWithCI_app).
  destruct (reason ++ after); simpl; by rewrite Hs.
Qed.

(** A pattern matches somewhere exactly when one of its phrases occurs. *)
Lemma matchPhrase_None pattern text :
  matchPhrase pattern text = None <->
  forall alt, alt ∈ pattern -> containsCI alt text = false.
Proof.
  split.
  - intros H alt Hin. destruct (containsCI alt text) eqn:E; [|done].
    destruct (matchPhrase_complete pattern alt text Hin E) as [r Hr]. congruence.
  - intros H. destruct (matchPhrase pattern text) as [reason|] eqn:E; [|done].
    destruct (matchPhrase_sound _ _ _ E) as (alt & before & after & Hin & Heq & ->).
    specialize (H alt Hin).
    by rewrite (containsCI_occurrence alt reason before after Heq) in H.
Qed.

Lemma detectFailureIn_None patterns text :
  detectFailureIn patterns text = None <->
  forall phrase, phrase ∈ concat patterns -> containsCI phrase text = false.
Proof.
  induction patterns as [|q patterns IH]; simpl.
  - split; [by intros _ ? ?%elem_of_nil | done].
  - destruct (matchPhrase q text) as [r|] eqn:E.
    + split; [done|]. intros H.
      assert (matchPhrase q text = None) as E'.
      { apply matchPhrase_None. intros alt Hin. apply H, elem_of_app. by left. }
      congruence.
    + pose proof (proj1 (matchPhrase_None q text) E) as Eq. split.
      * intros H phrase [Hin|Hin]%elem_of_app; [by apply Eq|].
        by apply (proj1 IH H).
      * intros H. apply IH. intros phrase Hin. apply H, elem_of_app. by right.
Qed.

(** X1. [parseSectionContent] reports success exactly when the cleaned text
    holds no failure phrase and has at least 50 code units; the content is
    then the cleaned text, and the object carries no error. *)
Theorem parseSectionContent_success (response sectionTitle : jsstring) :
  let r := parseSectionContent response sectionTitle in
  (sc_success r = true <->
     (forall phrase, phrase ∈ concat FAILURE_MARKERS ->
                     containsCI phrase (cleanGeneratedText response) = false) /\
     (50 <= length (cleanGeneratedText response))%nat) /\
  (sc_success r = true ->
     sc_content r = cleanGeneratedText response /\
     sc_error r = None /\ sc_needsManualInput r = None /\
     exists ws, sc_warnings r = Some ws /\
       lit "Generated content is very short. May need additional source material." ∉ ws).
Proof.
  cbv zeta. unfold parseSectionContent, detectFailure.
  pose proof (detectFailureIn_None FAILURE_MARKERS (cleanGeneratedText response)) as HN.
  remember (concat FAILURE_MARKERS) as phrases eqn:Hp. clear Hp.
  destruct (detectFailureIn FAILURE_MARKERS (cleanGeneratedText response)) as [reason|] eqn:E.
  - simpl. split; [|done]. split; [done|]. intros [H _].
    apply HN in H. congruence.
  - pose proof (proj1 HN eq_refl) as E'. simpl.
    destruct (length (cleanGeneratedText response) <? 50)%nat eqn:L.
    + apply Nat.ltb_lt in L. simpl. split; [|done]. split; [done|]. intros [_ ?]. lia.
    + apply Nat.ltb_ge in L. simpl. split; [done|]. intros _.
      repeat (split; [done|]). eexists. split; [reflexivity|].
      rewrite app_nil_r.
      match goal with |- context [if ?b then _ else _] => destruct b end;
        [|by apply not_elem_of_nil].
      intros Hin. apply list_elem_of_singleton in Hin.
      apply (f_equal (fun s => nth 0 s 0)) in Hin. vm_compute in Hin. done.
Qed.

(** X2. Whatever the response, the cleaned text is a sequence of
    paragraphs separated by one blank line, each made of words separated by
    single spaces: it has no white space at either end, and normalising it
    again changes nothing. *)
Theorem cleanGeneratedText_shape (text : jsstring) :
  (exists paragraphs,
      Forall tidy paragraphs /\
      cleanGeneratedText text = join blankLine paragraphs) /\
  edgeFree (cleanGeneratedText text) /\
  normalizeParagraphs (cleanGeneratedText text) = cleanGeneratedText text.
Proof.
  assert (exists paragraphs,
             Forall tidy paragraphs /\
             cleanGeneratedText text = join blankLine paragraphs) as Hshape.
  { unfold cleanGeneratedText. destruct text as [|c text]; [by exists []|].
    unfold normalizeParagraphs.
    pose proof (kept_paragraphs_tidy (stripArtifacts (c :: text))) as Ht.
    eexists. split; [exact Ht|]. by apply join_tidy_trim. }
  split; [exact Hshape|].
  destruct Hshape as (ps & Hps & ->). split.
  - destruct ps as [|p ps]; [split; intros; [done | by destruct t']|].
    apply join_edgeFree. eapply Forall_impl; [exact Hps|].
    intros q Hq. split; auto with jsstrings.
  - unfold normalizeParagraphs.
    destruct (decide (ps = [])) as [->|Hne]; [done|].
    rewrite splitBlank_join; [|done|].
    + by rewrite filter_tidy, join_tidy_trim.
    + eapply Forall_impl; [exact Hps|]. auto with jsstrings.
Qed.

Lemma markers_fold (patterns : list (list jsstring)) text acc :
  fold_left (fun markers pattern =>
               match matchPhrase pattern text with
               | Some m => markers ++ [m]
               | None => markers
               end) patterns acc
  = acc ++ omap (fun pattern => matchPhrase pattern text) patterns.
Proof.
  revert acc. induction patterns as [|q patterns IH]; intros acc; simpl.
  - by rewrite app_nil_r.
  - rewrite IH. destruct (matchPhrase q text); [|done].
    by rewrite <- app_assoc.
Qed.

(** X3. [detectHallucination] reports a detection exactly when one of the
    uncertainty phrases occurs in the text, whatever the case of its
    letters; every marker it returns is a piece of the text that spells one
    of the phrases, and there is at most one marker for each of the ten
    patterns. *)
Theorem detectHallucination_phrases (text : jsstring) :
  let h := detectHallucination text in
  (detected h = true <->
     exists phrase, phrase ∈ concat HALLUCINATION_MARKERS /\ containsCI phrase text = true) /\
  Forall (fun m => exists phrase before after,
                     phrase ∈ concat HALLUCINATION_MARKERS /\
                     equalCI phrase m = true /\
                     text = before ++ m ++ after) (markers h) /\
  (length (markers h) <= 10)%nat.
Proof.
  cbv zeta. unfold detectHallucination. rewrite markers_fold. cbn [detected markers app].
  change 10%nat with (length HALLUCINATION_MARKERS).
  generalize HALLUCINATION_MARKERS as patterns. intros patterns.
  split; [|split].
  - induction patterns as [|q patterns IH]; simpl.
    + split; [done | by intros (? & ?%elem_of_nil & _)].
    + destruct (matchPhrase q text) as [r|] eqn:E.
      * split; [intros _ | done].
        destruct (matchPhrase_sound _ _ _ E) as (alt & before & after & Hin & Heq & ->).
        exists alt. split; [apply elem_of_app; by left|].
        by apply containsCI_occurrence.
      * rewrite IH. pose proof (proj1 (matchPhrase_None q text) E) as Hq. split.
        -- intros (phrase & Hin & Hc). exists phrase.
           split; [apply elem_of_app; by right | done].
        -- intros (phrase & [Hin|Hin]%elem_of_app & Hc).
           ++ rewrite (Hq phrase Hin) in Hc. done.
           ++ by exists phrase.
  - induction patterns as [|q patterns IH]; simpl; [constructor|].
    assert (Forall (fun m => exists phrase before after,
                        phrase ∈ q ++ concat patterns /\
                        equalCI phrase m = true /\ text = before ++ m ++ after)
                   (omap (fun pattern => matchPhrase pattern text) patterns)) as IH'.
    { eapply Forall_impl; [exact IH|]. intros m (phrase & before & after & Hin & Heq & Ht).
      exists phrase, before, after. split; [apply elem_of_app; by right | done]. }
    destruct (matchPhrase q text) as [r|] eqn:E; [|done].
    constructor; [|done].
    destruct (matchPhrase_sound _ _ _ E) as (alt & before & after & Hin & Heq & Ht).
    exists alt, before, after. split; [apply elem_of_app; by left | done].
  - induction patterns as [|q patterns IH]; [done|].
    change (omap ?f (q :: patterns))
      with (match f q with Some y => y :: omap f patterns | None => omap f patterns end).
    destruct (matchPhrase q text); cbn [length]; lia.
Qed.

Lemma references_fold (P : nat -> bool) (l acc : list nat) :
  fold_left (fun sourceReferences i =>
               if P i then sourceReferences ++ [i] else sourceReferences) l acc
  = acc ++ List.filter P l.
Proof.
  revert acc. induction l as [|i l IH]; intros acc; simpl.
  - by rewrite app_nil_r.
  - rewrite IH. destruct (P i); [|done]. by rewrite <- app_assoc.
Qed.

Lemma filter_length_all {A} (P : A -> bool) (l : list A) :
  length (List.filter P l) = length l <-> Forall (fun x => P x = true) l.
Proof.
  induction l as [|x l IH]; simpl; [split; [constructor | done]|].
  pose proof (filter_sublist P l) as Hs.
  destruct (P x) eqn:E; simpl.
  - split.
    + intros H. constructor; [done|]. apply IH. lia.
    + inversion 1; subst. f_equal. by apply IH.
  - split; [|inversion 1; congruence].
    intros H. apply sublist_length in Hs. lia.
Qed.

Lemma filter_seq_sorted (P : nat -> bool) (a n : nat) :
  StronglySorted lt (List.filter P (seq a n)).
Proof.
  revert a. induction n as [|n IH]; intros a; simpl; [constructor|].
  destruct (P a); [|apply IH].
  constructor; [apply IH|].
  apply Forall_forall. intros j Hj.
  apply list_elem_of_In, filter_In in Hj as [Hj _]. apply in_seq in Hj. lia.
Qed.

Lemma sourceIsReferenced_mentions cleaned i :
  sourceIsReferenced cleaned i = true <-> mentionsSource cleaned i.
Proof.
  unfold sourceIsReferenced, mentionsSource, sourcePatterns.
  assert (forall p, bool_decide (is_Some (matchPhrase [p] cleaned)) = containsCI p cleaned) as Hp.
  { intros p. destruct (containsCI p cleaned) eqn:E.
    - apply bool_decide_eq_true. apply (matchPhrase_complete [p] p); [by apply list_elem_of_singleton | done].
    - apply bool_decide_eq_false. intros [r Hr].
      destruct (matchPhrase_sound _ _ _ Hr) as (alt & before & after & Hin & Heq & Ht).
      apply list_elem_of_singleton in Hin as ->.
      rewrite Ht, (containsCI_occurrence p r before after Heq) in E. done. }
  cbn [existsb]. rewrite !Hp, orb_false_r. split.
  - intros [H|[H|H]%orb_true_iff]%orb_true_iff;
      eexists; (split; [|exact H]); set_solver.
  - intros (word & Hw & H).
    repeat (apply elem_of_cons in Hw as [->|Hw]); [..|by apply elem_of_nil in Hw];
      rewrite H; by rewrite ?orb_true_r.
Qed.

(** X4. [parseMultiDocResponse] always reports success with the cleaned
    text.  The documents it lists as referenced are, in increasing order,
    the numbers from 1 to [documentCount] that the cleaned text names as
    Paper, Study or Document; all sources count as used exactly when every
    number is named, and exactly then there is no warning. *)
Theorem parseMultiDocResponse_sources (response : jsstring) (documentCount : nat) :
  let r := parseMultiDocResponse response documentCount in
  let cleaned := cleanGeneratedText response in
  mr_success r = true /\
  mr_content r = cleaned /\
  (forall i, i ∈ md_sourcesReferenced (mr_metadata r) <->
             (1 <= i <= documentCount)%nat /\ mentionsSource cleaned i) /\
  StronglySorted lt (md_sourcesReferenced (mr_metadata r)) /\
  (md_allSourcesUsed (mr_metadata r) = true <->
     forall i, (1 <= i <= documentCount)%nat -> mentionsSource cleaned i) /\
  (mr_warnings r = [] <-> md_allSourcesUsed (mr_metadata r) = true).
Proof.
  cbv zeta. unfold parseMultiDocResponse.
  cbn [mr_success mr_content mr_metadata mr_warnings md_sourcesReferenced md_allSourcesUsed].
  rewrite references_fold. cbn [app].
  set (cleaned := cleanGeneratedText response).
  split; [done|]. split; [done|].
  assert (forall i, i ∈ List.filter (sourceIsReferenced cleaned) (seq 1 documentCount) <->
                    (1 <= i <= documentCount)%nat /\ mentionsSource cleaned i) as Hmem.
  { intros i. rewrite list_elem_of_In, filter_In, in_seq, sourceIsReferenced_mentions.
    split; intros [? ?]; split; try done; lia. }
  split; [exact Hmem|]. split.
  { apply filter_seq_sorted. }
  split.
  - rewrite Nat.eqb_eq.
    pose proof (filter_length_all (sourceIsReferenced cleaned) (seq 1 documentCount)) as Hall.
    rewrite length_seq in Hall. rewrite Hall, Forall_forall. split.
    + intros H i Hi. apply sourceIsReferenced_mentions, H.
      apply list_elem_of_In, in_seq. lia.
    + intros H i Hi. apply sourceIsReferenced_mentions, H.
      apply list_elem_of_In, in_seq in Hi. lia.
  - destruct (_ =? _)%nat; split; done.
Qed.

(** ** The decimal digits of a number *)

Lemma decimalDigits_acc fuel n acc :
  decimalDigits fuel n acc = decimalDigits fuel n [] ++ acc.
Proof.
  revert n acc. induction fuel as [|fuel IH]; intros n acc; [done|].
  cbn [decimalDigits]. destruct (n <? 10); [done|].
  rewrite IH, (IH _ [_]), <- app_assoc. done.
Qed.

Lemma decimalDigits_fuel f1 f2 n acc :
  n < 2 ^ N.of_nat (S f1) -> n < 2 ^ N.of_nat (S f2) ->
  decimalDigits (S f1) n acc = decimalDigits (S f2) n acc.
Proof.
  revert f2 n acc. induction f1 as [|f1 IH]; intros f2 n acc H1 H2.
  - cbn [decimalDigits]. change (2 ^ N.of_nat 1) with 2 in H1.
    assert ((n <? 10) = true) as -> by (apply N.ltb_lt; lia). done.
  - cbn [decimalDigits]. destruct (n <? 10) eqn:E; [done|].
    apply N.ltb_ge in E.
    destruct f2 as [|f2'].
    { change (2 ^ N.of_nat 1) with 2 in H2. lia. }
    apply IH.
    + rewrite (Nat2N.inj_succ (S f1)), N.pow_succ_r' in H1.
      apply N.Div0.div_lt_upper_bound. lia.
    + rewrite (Nat2N.inj_succ (S f2')), N.pow_succ_r' in H2.
      apply N.Div0.div_lt_upper_bound. lia.
Qed.

Lemma numberToString_fuel n f :
  n < 2 ^ N.of_nat (S f) -> numberToString n = decimalDigits (S f) n [].
Proof.
  intros H. unfold numberToString. apply decimalDigits_fuel; [|done].
  rewrite Nat2N.inj_succ, N2Nat.id.
  destruct (N.eq_dec n 0) as [->|Hn]; [done|].
  apply N.log2_spec. lia.
Qed.

(** The digits of [10 * i + d] are the digits of [i] and the digit [d]. *)
Lemma numberToString_snoc i d :
  1 <= i -> d < 10 ->
  numberToString (10 * i + d) = numberToString i ++ [48 + d].
Proof.
  intros Hi Hd. unfold numberToString at 1.
  set (L := N.to_nat (N.log2 (10 * i + d))).
  assert (10 * i + d < 2 ^ N.of_nat (S L)) as HL.
  { unfold L. rewrite Nat2N.inj_succ, N2Nat.id. apply N.log2_spec. lia. }
  cbn [decimalDigits].
  assert ((10 * i + d <? 10) = false) as -> by (apply N.ltb_ge; lia).
  assert ((10 * i + d) / 10 = i) as ->.
  { rewrite N.mul_comm, N.div_add_l by lia. rewrite N.div_small by lia. lia. }
  assert ((10 * i + d) mod 10 = d) as ->.
  { rewrite N.add_comm, N.mul_comm, N.Div0.mod_add. by apply N.mod_small. }
  rewrite decimalDigits_acc. f_equal.
  destruct L as [|L'].
  { change (2 ^ N.of_nat 1) with 2 in HL. lia. }
  symmetry. apply numberToString_fuel.
  rewrite (Nat2N.inj_succ (S L')), N.pow_succ_r' in HL. lia.
Qed.

Lemma startsWithCI_prefix a b text :
  startsWithCI (a ++ b) text = true -> startsWithCI a text = true.
Proof.
  revert text. induction a as [|x a IH]; intros text; [done|].
  destruct text as [|y text]; [done|]. simpl.
  intros [-> H]%andb_true_iff. simpl. by apply IH.
Qed.

Lemma containsCI_prefix a b text :
  containsCI (a ++ b) text = true -> containsCI a text = true.
Proof.
  induction text as [|c text IH]; simpl.
  - rewrite !orb_false_r. apply startsWithCI_prefix.
  - intros [H|H]%orb_true_iff.
    + by rewrite (startsWithCI_prefix a b _ H).
    + rewrite (IH H). apply orb_true_r.
Qed.

Lemma sourcesReferenced_member response documentCount i :
  i ∈ md_sourcesReferenced (mr_metadata (parseMultiDocResponse response documentCount)) <->
  (1 <= i <= documentCount)%nat /\ mentionsSource (cleanGeneratedText response) i.
Proof.
  unfold parseMultiDocResponse. cbn [mr_metadata md_sourcesReferenced].
  rewrite references_fold. cbn [app].
  rewrite list_elem_of_In, filter_In, in_seq, sourceIsReferenced_mentions.
  split; intros [? ?]; split; try done; lia.
Qed.

(** X5. The patterns of [parseMultiDocResponse] are not anchored at the
    end of the number: a text that names the document [10 * i + d] names,
    for the parser, the document [i] too. *)
Theorem parseMultiDocResponse_counts_prefixes
    (response : jsstring) (documentCount i d : nat) :
  (1 <= i)%nat -> (d <= 9)%nat ->
  (10 * i + d)%nat
    ∈ md_sourcesReferenced (mr_metadata (parseMultiDocResponse response documentCount)) ->
  i ∈ md_sourcesReferenced (mr_metadata (parseMultiDocResponse response documentCount)).
Proof.
  intros Hi Hd. rewrite !sourcesReferenced_member.
  intros [Hr (word & Hw & Hc)]. split; [lia|].
  exists word. split; [done|].
  replace (N.of_nat (10 * i + d)) with (10 * N.of_nat i + N.of_nat d) in Hc by lia.
  rewrite numberToString_snoc in Hc by lia.
  rewrite app_assoc in Hc. by apply containsCI_prefix in Hc.
Qed.

Lemma parseMultiDocResponse_counts_prefixes_witness :
  1%nat ∈ md_sourcesReferenced
            (mr_metadata (parseMultiDocResponse
                            (lit "Only paper 12 reports a significant effect on growth.") 12)).
Proof.
  apply (parseMultiDocResponse_counts_prefixes _ 12 1 2); [lia | lia |].
  apply (bool_decide_unpack _). vm_compute. reflexivity.
Defined.

(** ** Grounding *)

Lemma numberAt_not_digit c s : isDigit c = false -> numberAt (c :: s) = None.
Proof. intros H. unfold numberAt. simpl. by rewrite H. Qed.

Lemma numberMatches_no_digit s :
  Forall (fun c => isDigit c = false) s -> numberMatches s 0 = [].
Proof.
  induction 1 as [|c s Hc _ IH]; [done|].
  cbn [numberMatches]. by rewrite (numberAt_not_digit c s Hc).
Qed.

Lemma warnings_fold (sourceNumbers generatedNumbers : list jsstring) acc :
  length
    (fold_left (fun warnings num =>
                 if bool_decide (num ∈ COMMON_NUMBERS) then warnings
                 else if bool_decide (num ∈ sourceNumbers) then warnings
                 else warnings ++ [lit "Number " ++ [QUOTE] ++ num ++ [QUOTE]
                                   ++ lit " in generated content may not be in source"])
              generatedNumbers acc)
  = (length acc
     + length (List.filter (fun num => negb (bool_decide (num ∈ COMMON_NUMBERS))
                                       && negb (bool_decide (num ∈ sourceNumbers)))
                           generatedNumbers))%nat.
Proof.
  revert acc. induction generatedNumbers as [|num l IH]; intros acc; simpl; [lia|].
  rewrite IH. destruct (bool_decide (num ∈ COMMON_NUMBERS)); simpl; [done|].
  destruct (bool_decide (num ∈ sourceNumbers)); simpl; [done|].
  rewrite length_app. simpl. lia.
Qed.

(** X6. [validateGrounding] calls a text grounded exactly when every number
    it holds is one of the seven common numbers or is a number of the
    source, compared as text.  So every text is grounded in itself, and a
    text without digits is grounded in any source. *)
Theorem validateGrounding_numbers (generatedContent sourceContent : jsstring) :
  (isGrounded (validateGrounding generatedContent sourceContent) = true <->
     forall num, num ∈ numberMatches generatedContent 0 ->
                 num ∈ COMMON_NUMBERS \/ num ∈ numberMatches sourceContent 0) /\
  isGrounded (validateGrounding generatedContent generatedContent) = true /\
  (Forall (fun c => isDigit c = false) generatedContent ->
   validateGrounding generatedContent sourceContent
   = {| isGrounded := true; gr_warnings := [] |}).
Proof.
  assert (forall g s,
             isGrounded (validateGrounding g s) = true <->
             forall num, num ∈ numberMatches g 0 ->
                         num ∈ COMMON_NUMBERS \/ num ∈ numberMatches s 0) as Hiff.
  { intros g s. unfold validateGrounding. cbn [isGrounded].
    rewrite Nat.eqb_eq, warnings_fold. cbn [length Nat.add].
    rewrite length_zero_iff_nil. split.
    - intros H num Hin.
      destruct (bool_decide (num ∈ COMMON_NUMBERS)) eqn:E1;
        [left; by apply bool_decide_eq_true in E1|].
      destruct (bool_decide (num ∈ numberMatches s 0)) eqn:E2;
        [right; by apply bool_decide_eq_true in E2|].
      assert (In num (List.filter
                        (fun num => negb (bool_decide (num ∈ COMMON_NUMBERS))
                                    && negb (bool_decide (num ∈ numberMatches s 0)))
                        (numberMatches g 0))) as Hf.
      { apply filter_In. split; [by apply list_elem_of_In|]. by rewrite E1, E2. }
      rewrite H in Hf. done.
    - intros H. destruct (List.filter _ _) as [|num l] eqn:E; [done|].
      assert (In num (num :: l)) as Hf by (by left).
      rewrite <- E in Hf. apply filter_In in Hf as [Hin Hb].
      apply list_elem_of_In in Hin.
      apply andb_true_iff in Hb as [H1%negb_true_iff H2%negb_true_iff].
      apply bool_decide_eq_false in H1, H2. destruct (H num Hin); done. }
  split; [apply Hiff|]. split.
  - apply Hiff. intros num Hin. by right.
  - intros Hd. unfold validateGrounding.
    by rewrite (numberMatches_no_digit _ Hd).
Qed.

Lemma placeholderAt_shape s len name :
  placeholderAt s = Some (len, name) ->
  len = (length name + 4)%nat /\
  isPlaceholderName name /\
  take len s = lit "{{" ++ name ++ lit "}}".
Proof.
  unfold placeholderAt. intros H. destruct_matches H; simplify_eq.
  repeat match goal with
         | E : (_ && _) = true |- _ => apply andb_true_iff in E as [? ?]
         | E : (_ =? _) = true |- _ => apply N.eqb_eq in E; subst
         end.
  split; [cbn [length]; lia|]. split.
  { eexists _, _. split; [reflexivity|]. split; [done | apply takeWhile_all]. }
  match goal with E : drop _ _ = _ |- _ => rename E into Hd end.
  match type of Hd with drop _ ?l = _ => set (rest := l) in * end.
  set (body := takeWhile isPlaceholderChar rest) in *.
  replace (length (n1 :: body) - 1)%nat with (length body) in Hd
    by (cbn [length]; lia).
  assert (rest = body ++ 125 :: 125 :: l3) as Hrest.
  { rewrite <- (take_drop (length body) rest), Hd. f_equal.
    unfold body. rewrite <- (takeWhile_dropWhile isPlaceholderChar rest) at 2.
    by rewrite take_app_length. }
  rewrite Hrest.
  change (lit "{{") with [123; 123]. change (lit "}}") with [125; 125].
  replace (2 + length (n1 :: body) + 2)%nat
    with (length ([123; 123] ++ (n1 :: body) ++ [125; 125])).
  2:{ rewrite !length_app. cbn [length]. lia. }
  replace (123 :: 123 :: n1 :: body ++ 125 :: 125 :: l3)
    with (([123; 123] ++ (n1 :: body) ++ [125; 125]) ++ l3).
  2:{ cbn [app]. by rewrite <- app_assoc. }
  by rewrite take_app_length.
Qed.

Lemma placeholderSearch_at s i index len name :
  placeholderSearch s i = Some (index, (len, name)) ->
  (i <= index)%nat /\ placeholderAt (drop (index - i) s) = Some (len, name).
Proof.
  revert i. induction s as [|c s IH]; intros i.
  - intros H. cbn in H. done.
  - cbn [placeholderSearch]. destruct (placeholderAt (c :: s)) as [[l n]|] eqn:E.
    + intros; simplify_eq. by rewrite Nat.sub_diag.
    + intros H. apply IH in H as [Hi H]. split; [lia|].
      replace (index - i)%nat with (S (index - S i)) by lia. done.
Qed.

Lemma placeholderLoop_sound fuel text pl acc r :
  placeholderLoop fuel text pl acc = Some r ->
  Forall (placeholderIn text) acc ->
  StronglySorted endsBefore acc ->
  Forall (fun m => (ph_index m + length (ph_full m) <= pl)%nat) acc ->
  Forall (placeholderIn text) r /\ StronglySorted endsBefore r.
Proof.
  revert pl acc. induction fuel as [|fuel IH]; intros pl acc; [done|].
  cbn [placeholderLoop].
  destruct (pl <=? length text)%nat eqn:Hpl; [|by intros; simplify_eq].
  destruct (placeholderSearch (drop pl text) pl) as [[index [len name]]|] eqn:Es;
    [|by intros; simplify_eq].
  apply placeholderSearch_at in Es as [Hi Hat].
  rewrite drop_drop in Hat. replace (pl + (index - pl))%nat with index in Hat by lia.
  apply placeholderAt_shape in Hat as (Hlen & Hname & Htake).
  assert (substring text index (index + len) = lit "{{" ++ name ++ lit "}}") as Hfull.
  { unfold substring. by replace (index + len - index)%nat with len by lia. }
  assert (length (substring text index (index + len)) = len) as Hl.
  { rewrite Hfull, !length_app. cbn [length lit map list_ascii_of_string]. lia. }
  intros Hr Hgood Hsorted Hends. apply IH in Hr; [done|..].
  - apply Forall_app. split; [done|]. constructor; [|constructor].
    split; [exact Hfull|]. split; [exact Hname|]. cbn [ph_index ph_full].
    by rewrite Hl.
  - apply StronglySorted_app_2; [|done|by repeat constructor].
    intros a b Ha ->%list_elem_of_singleton. unfold endsBefore. cbn [ph_index].
    rewrite Forall_forall in Hends. specialize (Hends a Ha). lia.
  - apply Forall_app. split.
    + eapply Forall_impl; [exact Hends|]. intros m Hm. cbn beta in *. lia.
    + constructor; [|constructor]. cbn [ph_index ph_full]. rewrite Hl. lia.
Qed.

(** X7. Every placeholder [extractPlaceholders] returns is a token of the
    text: two opening braces, a name made of an upper case letter followed
    by upper case letters, digits and underscores, two closing braces,
    found in the text at the index it reports.  The tokens are listed from
    left to right and do not overlap. *)
Theorem extractPlaceholders_sound (text : jsstring) :
  Forall (fun m =>
            ph_full m = lit "{{" ++ ph_name m ++ lit "}}" /\
            isPlaceholderName (ph_name m) /\
            substring text (ph_index m) (ph_index m + length (ph_full m)) = ph_full m)
         (extractPlaceholders text) /\
  StronglySorted (fun a b => (ph_index a + length (ph_full a) <= ph_index b)%nat)
                 (extractPlaceholders text).
Proof.
  pose proof (extractPlaceholders_total text) as H.
  apply placeholderLoop_sound in H; [exact H | constructor..].
Qed.

(** ** The pattern based detection *)

Lemma isNumberedHeading_nonempty s : isNumberedHeading s = true -> (1 <= length s)%nat.
Proof. destruct s; [done|]. simpl. lia. Qed.

Lemma fallbackLine_invariant generateId st line :
  fallbackInvariant generateId st ->
  fallbackInvariant generateId (fallbackLine generateId st line).
Proof.
  intros (Hall & Hord & Hid & Ho & Hi). unfold fallbackLine.
  destruct (100 <? length (trim line))%nat eqn:Hlen; [done|].
  apply Nat.ltb_ge in Hlen.
  assert (forall s,
             fallbackSection s -> sec_order s = fb_order st ->
             sec_id s = generateId (fb_ids st) ->
             fallbackInvariant generateId
               {| fb_structure := fb_structure st ++ [s];
                  fb_order := S (fb_order st); fb_ids := S (fb_ids st) |}) as Hpush.
  { intros s Hs Hso Hsi. unfold fallbackInvariant. cbn [fb_structure fb_order fb_ids].
    rewrite !map_app, length_app, Hord, Hid. cbn [length map].
    rewrite Nat.add_1_r, !seq_S, map_app. cbn [map Nat.add].
    rewrite Hso, Hsi, Ho, Hi.
    split; [apply Forall_app; split; [done | by constructor]|].
    repeat split; done. }
  destruct (extractPlaceholders (trim line)) as [|ph rest] eqn:Hph.
  - destruct (isNumberedHeading (trim line)) eqn:Hnum; [|done].
    apply Hpush; [|done..]. unfold fallbackSection.
    cbn [sec_level sec_isTitle sec_title sec_placeholder].
    split; [lia|]. split; [done|].
    split; [split; [by apply isNumberedHeading_nonempty | done]|].
    split; [apply trim_edgeFree|]. done.
  - apply Hpush; [|done..]. unfold fallbackSection.
    cbn [sec_level sec_isTitle sec_title sec_placeholder].
    split; [lia|]. split; [done|]. split.
    { split; [|done]. destruct (trim line); [done | simpl; lia]. }
    split; [apply trim_edgeFree|]. split; [done|]. by exists ph, rest.
Qed.

Lemma fallback_fold_invariant generateId lines st :
  fallbackInvariant generateId st ->
  fallbackInvariant generateId (fold_left (fallbackLine generateId) lines st).
Proof.
  revert st. induction lines as [|line lines IH]; intros st H; [done|].
  simpl. by apply IH, fallbackLine_invariant.
Qed.

(** X8. Every section the pattern based detection of [parseDocxTemplate]
    builds has a level from 1 to 4, a title of 1 to 100 code units without
    white space at its ends, and is no document title; it either carries
    the first placeholder of its title, at level 1, or its title is a
    numbered heading without placeholder.  The sections are numbered 1, 2,
    3, ... in [order], and their ids are the first identifiers the supply
    gave, in order: they are distinct when the supply never repeats. *)
Theorem fallbackStructure_invariants (generateId : nat -> jsstring) (plainText : jsstring) :
  let structure := fallbackStructure generateId plainText in
  Forall fallbackSection structure /\
  map sec_order structure = seq 1 (length structure) /\
  map sec_id structure = map generateId (seq 0 (length structure)) /\
  ((forall i j, generateId i = generateId j -> i = j) ->
   NoDup (map sec_id structure) /\
   NoDup (map idOf (parseTemplateFallback generateId plainText))).
Proof.
  cbv zeta. unfold parseTemplateFallback, fallbackStructure.
  set (lines := List.filter nonBlank (splitChar LF plainText)).
  destruct (fallback_fold_invariant generateId lines
              {| fb_structure := []; fb_order := 1; fb_ids := 0 |})
    as (Hall & Hord & Hid & _).
  { unfold fallbackInvariant. cbn. repeat split; constructor. }
  repeat (split; [done|]). intros Hinj.
  assert (NoDup (map sec_id
                   (fb_structure
                      (fold_left (fallbackLine generateId) lines
                         {| fb_structure := []; fb_order := 1; fb_ids := 0 |})))) as Hnd.
  { rewrite Hid. apply (NoDup_fmap_2_strong generateId); [|apply NoDup_seq].
    intros i j _ _. apply Hinj. }
  split; [exact Hnd|]. by apply distinct_ids_out.
Qed.

(** ** The validation of a template *)

Lemma indexOf_first (l : list jsstring) i p :
  l !! i = Some p ->
  exists j, indexOf l p = Some j /\ (j <= i)%nat /\ l !! j = Some p.
Proof.
  intros Hi. unfold indexOf.
  destruct (list_find (fun q => q = p) l) as [[j q]|] eqn:E.
  - apply list_find_Some in E as (Hj & -> & Hbefore).
    exists j. split; [done|]. split; [|done].
    destruct (decide (j <= i)%nat) as [|Hn]; [done|].
    exfalso. apply (Hbefore i p Hi); [lia | done].
  - apply list_find_None in E. rewrite Forall_forall in E.
    exfalso. apply (E p); [by eapply list_elem_of_lookup_2 | done].
Qed.

Lemma duplicatesOf_nil (l : list jsstring) : duplicatesOf l = [] <-> NoDup l.
Proof.
  unfold duplicatesOf. split.
  - intros H. apply NoDup_alt. 
    assert (forall i p, l !! i = Some p -> indexOf l p = Some i) as Hfirst.
    { intros i p Hi.
      destruct (decide (indexOf l p = Some i)) as [|Hn]; [done|]. exfalso.
      assert (p ∈ flat_map
                (fun '(i, p) => if bool_decide (indexOf l p = Some i) then [] else [p])
                (imap (fun i p => (i, p)) l)) as Hin.
      { apply list_elem_of_In, in_flat_map. exists (i, p). split.
        - apply list_elem_of_In, elem_of_lookup_imap. by exists i, p.
        - rewrite bool_decide_eq_false_2 by done. by left. }
      rewrite H in Hin. by apply elem_of_nil in Hin. }
    intros i j p Hi Hj. apply Hfirst in Hi, Hj. congruence.
  - intros Hnd.
    destruct (flat_map _ _) as [|p rest] eqn:E; [done|]. exfalso.
    assert (In p (p :: rest)) as Hin by (by left).
    rewrite <- E in Hin. apply in_flat_map in Hin as ([i q] & Hiq & Hp).
    apply list_elem_of_In, elem_of_lookup_imap in Hiq as (i' & q' & Heq & Hl).
    simplify_eq. case_bool_decide as Hidx; [done|].
    destruct (indexOf_first l i' q' Hl) as (j & Hj & _ & Hlj).
    rewrite (NoDup_lookup l j i' q' Hnd Hlj Hl) in Hj. done.
Qed.

(** X9. [validateTemplate] declares a template valid exactly when
    [parseDocxTemplate] succeeded, found at least one section, and no
    placeholder name is carried by two sections; it then returns the
    structure and the warnings of the parser, and no error. *)
Theorem validateTemplate_valid (parsed : Outcome ParsedTemplate) :
  (tv_valid (validateTemplate parsed) = true <->
     exists result,
       parsed = Returned result /\
       pt_success result = true /\
       pt_structure result <> [] /\
       NoDup (placeholdersOf (pt_structure result))) /\
  (tv_valid (validateTemplate parsed) = true <-> tv_errors (validateTemplate parsed) = []) /\
  (forall result,
      parsed = Returned result -> pt_success result = true ->
      tv_structure (validateTemplate parsed) = Some (pt_structure result) /\
      tv_warnings (validateTemplate parsed) = Some (pt_warnings result)).
Proof.
  assert (forall result,
             parsed = Returned result -> pt_success result = true ->
             tv_structure (validateTemplate parsed) = Some (pt_structure result) /\
             tv_warnings (validateTemplate parsed) = Some (pt_warnings result)) as Hthird.
  { intros result -> Hs. cbn [validateTemplate]. by rewrite Hs. }
  refine ((fun H => conj (proj1 H) (conj (proj2 H) Hthird)) _). clear Hthird.
  destruct parsed as [result|message]; cbn [validateTemplate].
  2:{ cbn [tv_valid tv_errors].
      split; split; try done. by intros (? & ? & _). }
  destruct (pt_success result) eqn:Hs; cbn [negb].
  2:{ cbn [tv_valid tv_errors].
      split; split; try done.
      intros (? & ? & ? & _). simplify_eq. congruence. }
  cbn [tv_valid tv_errors].
  pose proof (duplicatesOf_nil (placeholdersOf (pt_structure result))) as Hdup.
  destruct (duplicatesOf (placeholdersOf (pt_structure result))) as [|d ds] eqn:Ed;
    cbn [length Nat.ltb Nat.leb].
  - destruct (pt_structure result) as [|s ss] eqn:Est; cbn [length Nat.eqb app].
    + split; split; try done.
      intros (r & Hr & _ & Hne & _). simplify_eq.
    + split; split; try done.
      intros _. exists result. rewrite Est. repeat split; try done; by apply Hdup.
  - assert (forall e,
               (length (e ++ [lit "Duplicate placeholders found: "
                              ++ join (lit ", ") (distinctValues (d :: ds))]) =? 0)%nat
               = false) as Hlen.
    { intros e. rewrite length_app. cbn [length]. apply Nat.eqb_neq. lia. }
    rewrite Hlen. split; split; try done.
    + intros (r & Hr & _ & _ & Hnd). simplify_eq. apply Hdup in Hnd. done.
    + intros H. by apply app_nil in H as [_ ?].
Qed.

(* ===================================================================== *)
(** * The helpers                                                         *)
(* ===================================================================== *)

(** X10. For a limit of at least 3, [truncateText] never returns more than
    [maxLength] code units: a text that fits is returned as it is, a longer
    one is cut to its first [maxLength - 3] code units followed by three
    dots, [maxLength] code units in all; truncating again changes
    nothing. *)
Theorem truncateText_bound (text : jsstring) (maxLength : Z) :
  (3 <= maxLength)%Z ->
  let r := truncateText text (Some maxLength) in
  (Z.of_nat (length r) <= maxLength)%Z /\
  ((Z.of_nat (length text) <= maxLength)%Z -> r = text) /\
  ((maxLength < Z.of_nat (length text))%Z ->
     r = take (Z.to_nat (maxLength - 3)) text ++ lit "..." /\
     Z.of_nat (length r) = maxLength) /\
  truncateText r (Some maxLength) = r.
Proof.
  intros Hm. cbv zeta. unfold truncateText.
  change (default 100%Z (Some maxLength)) with maxLength.
  destruct text as [|c text]; cbn [nonEmpty negb orb].
  { cbn [length]. repeat split; try done; lia. }
  destruct (Z.of_nat (length (c :: text)) <=? maxLength)%Z eqn:E.
  - cbv iota. cbn [nonEmpty negb orb]. rewrite E. apply Z.leb_le in E.
    repeat split; try done; lia.
  - apply Z.leb_gt in E.
    assert (length (take (Z.to_nat (maxLength - 3)) (c :: text) ++ lit "...")
            = Z.to_nat maxLength) as Hl.
    { rewrite length_app, length_take_le by lia.
      cbn [lit length map list_ascii_of_string]. lia. }
    cbv iota. rewrite Hl, Z2Nat.id by lia. rewrite Z.leb_refl, orb_true_r.
    repeat split; try done; lia.
Qed.

Lemma truncateText_bound_witness :
  let r := truncateText (lit "This is a long text") (Some 10%Z) in
  (Z.of_nat (length r) <= 10)%Z /\
  ((Z.of_nat (length (lit "This is a long text")) <= 10)%Z
   -> r = lit "This is a long text") /\
  ((10 < Z.of_nat (length (lit "This is a long text")))%Z ->
     r = take (Z.to_nat (10 - 3)) (lit "This is a long text") ++ lit "..." /\
     Z.of_nat (length r) = 10%Z) /\
  truncateText r (Some 10%Z) = r.
Proof. apply (truncateText_bound (lit "This is a long text") 10). lia. Defined.

(** ** File names *)

Lemma splitChar_cons c d s :
  splitChar c (d :: s) =
  if d =? c then [] :: splitChar c s
  else match splitChar c s with
       | p :: ps => (d :: p) :: ps
       | [] => [[d]]
       end.
Proof. reflexivity. Qed.

Lemma splitChar_nonempty c s : exists p ps, splitChar c s = p :: ps.
Proof.
  induction s as [|d s (p & ps & IH)]; [by exists [], []|].
  rewrite splitChar_cons, IH. destruct (d =? c); by eexists _, _.
Qed.

Lemma splitChar_single c s : c ∉ s -> splitChar c s = [s].
Proof.
  induction s as [|d s IH]; [done|].
  intros [Hd Hs]%not_elem_of_cons. rewrite splitChar_cons, IH by done.
  by rewrite (proj2 (N.eqb_neq d c)) by done.
Qed.

Lemma splitChar_app c a b :
  splitChar c (a ++ c :: b) = splitChar c a ++ splitChar c b.
Proof.
  induction a as [|d a IH].
  - cbn [app]. by rewrite splitChar_cons, N.eqb_refl.
  - change ((d :: a) ++ c :: b) with (d :: (a ++ c :: b)).
    rewrite !splitChar_cons, IH. destruct (d =? c); [done|].
    by destruct (splitChar_nonempty c a) as (p & ps & ->).
Qed.

Lemma lastIndexOf_none c s i : c ∉ s -> lastIndexOf c s i = None.
Proof.
  revert i. induction s as [|d s IH]; intros i; [done|].
  intros [Hd Hs]%not_elem_of_cons. cbn [lastIndexOf]. rewrite IH by done.
  by rewrite (proj2 (N.eqb_neq d c)) by done.
Qed.

Lemma lastIndexOf_app c stem ext i :
  c ∉ ext -> lastIndexOf c (stem ++ c :: ext) i = Some (i + length stem)%nat.
Proof.
  intros He. revert i. induction stem as [|d stem IH]; intros i.
  - cbn [app lastIndexOf length]. rewrite lastIndexOf_none by done.
    rewrite N.eqb_refl. f_equal. lia.
  - cbn [app lastIndexOf length]. rewrite IH. f_equal. lia.
Qed.

(** X11. A file name without a dot has no extension and is its own base
    name.  Otherwise the name is a stem, its last dot and the text after
    it: the extension is that text in lower case, and the base name is the
    stem, except that a name whose only dot comes first, such as a hidden
    file, is returned whole. *)
Theorem fileName_parts (toLowerCase : jsstring -> jsstring) (filename : jsstring) :
  (DOT ∉ filename ->
     getFileExtension toLowerCase filename = [] /\
     getFilenameWithoutExtension filename = filename) /\
  (forall stem ext,
      filename = stem ++ DOT :: ext -> DOT ∉ ext ->
      getFileExtension toLowerCase filename = toLowerCase ext /\
      getFilenameWithoutExtension filename
      = match stem with [] => filename | _ => stem end).
Proof.
  unfold getFileExtension, getFilenameWithoutExtension. split.
  - intros H. rewrite splitChar_single, lastIndexOf_none by done. done.
  - intros stem ext -> He.
    rewrite splitChar_app, (splitChar_single DOT ext He), lastIndexOf_app by done.
    rewrite length_app, last_last. cbn [length].
    destruct (splitChar_nonempty DOT stem) as (p & ps & ->). cbn [length].
    split.
    + assert ((1 <? S (length ps) + 1)%nat = true) as -> by (apply Nat.ltb_lt; lia).
      done.
    + destruct stem as [|d stem]; [done|].
      cbn [Nat.add length]. 
      change ((d :: stem) ++ DOT :: ext) with (d :: (stem ++ DOT :: ext)).
      cbn [take]. by rewrite take_app_length.
Qed.

(** ** Counting words *)

Lemma countRuns_cons p k c s run :
  countRuns p k (c :: s) run =
  if p c then countRuns p k s (S run)
  else ((if (k <=? run)%nat && (0 <? run)%nat then 1 else 0) + countRuns p k s 0)%nat.
Proof. reflexivity. Qed.

(** The runs of white space of a text, against its words. *)
Lemma countRuns_words s :
  s <> [] ->
  (countRuns isWhiteSpace 1 s 0 + (if endsWithSpace s then 0 else 1)
   = length (words s) + (if startsWithSpace s then 1 else 0))%nat /\
  (forall k, countRuns isWhiteSpace 1 s (S k) + (if endsWithSpace s then 0 else 1)
             = length (words s) + 1)%nat.
Proof.
  induction s as [|c s IH]; [done|]. intros _.
  destruct s as [|d s'].
  - rewrite words_cons. cbn [countRuns startsWithSpace endsWithSpace].
    destruct (isWhiteSpace c); cbn; split; intros; lia.
  - destruct IH as [IH1 IH2]; [done|].
    rewrite endsWithSpace_cons, words_cons. unfold startsWithSpace.
    unfold startsWithSpace in IH1.
    split; [|intros k]; rewrite countRuns_cons;
      destruct (isWhiteSpace c) eqn:Hc.
    + rewrite IH2. lia.
    + cbn [Nat.leb Nat.ltb andb Nat.add].
      destruct (isWhiteSpace d) eqn:Hd; [cbn [length]; lia|].
      destruct (words_nonspace_head d s' Hd) as (w & r & Ew).
      rewrite Ew in *. cbn [length] in *. lia.
    + rewrite IH2. lia.
    + cbn [Nat.leb Nat.ltb andb].
      destruct (isWhiteSpace d) eqn:Hd; [cbn [length]; lia|].
      destruct (words_nonspace_head d s' Hd) as (w & r & Ew).
      rewrite Ew in *. cbn [length] in *. lia.
Qed.

Lemma endsWithSpace_last s :
  endsWithSpace s = true -> exists t c, s = t ++ [c] /\ isWhiteSpace c = true.
Proof.
  induction s as [|c s IH]; [done|].
  destruct s as [|d s'].
  - simpl. intros H. by exists [], c.
  - rewrite endsWithSpace_cons. intros H.
    destruct (IH H) as (t & x & -> & Hx). by exists (c :: t), x.
Qed.

(** The pieces of a text without white space at its ends, split on its
    runs of white space: its words, or one empty piece when the text is
    empty. *)
Lemma pieces_edgeFree t :
  edgeFree t ->
  S (countRuns isWhiteSpace 1 t 0) = Nat.max 1 (length (words t)).
Proof.
  intros [Hhead Hlast]. destruct t as [|c t']; [done|].
  destruct (countRuns_words (c :: t')) as [H _]; [done|].
  assert (startsWithSpace (c :: t') = false) as Hs by (by apply (Hhead c t')).
  assert (endsWithSpace (c :: t') = false) as He.
  { destruct (endsWithSpace (c :: t')) eqn:E; [|done].
    apply endsWithSpace_last in E as (t & x & Ht & Hx).
    by rewrite (Hlast t x Ht) in Hx. }
  rewrite Hs, He in H. lia.
Qed.

(** X12. [calculateReadingTime] is the number of words of the text divided
    by 200 and rounded up, where a text without any word counts as one
    word: the result is never 0, and it is 1 for every text of at most 200
    words. *)
Theorem calculateReadingTime_words (text : jsstring) :
  calculateReadingTime text = ceilDiv (Nat.max 1 (length (words text))) 200 /\
  (1 <= calculateReadingTime text)%nat /\
  ((length (words text) <= 200)%nat -> calculateReadingTime text = 1%nat).
Proof.
  unfold calculateReadingTime.
  rewrite (pieces_edgeFree (trim text) (trim_edgeFree text)), words_trim.
  split; [done|]. unfold ceilDiv.
  set (w := Nat.max 1 (length (words text))).
  assert (1 <= w)%nat as Hw by lia.
  split.
  - apply (Nat.div_le_lower_bound); lia.
  - intros H. assert (w <= 200)%nat as Hw' by lia.
    symmetry. apply Nat.div_unique with (r := (w - 1)%nat); lia.
Qed.

(** ** The counts of [parseSectionContent] *)

Lemma countRuns_skip p k a b :
  Forall (fun c => p c = false) a ->
  countRuns p k (a ++ b) 0 = countRuns p k b 0.
Proof.
  induction 1 as [|c a Hc _ IH]; [done|].
  cbn [app]. rewrite countRuns_cons, Hc, IH.
  by rewrite Nat.ltb_irrefl, andb_false_r.
Qed.

Lemma tidy_chars p : tidy p -> Forall (fun c => isLF c = false) p.
Proof.
  intros Hp. apply Forall_forall. intros c Hc.
  apply tidy_no_LF in Hp. unfold isLF. apply N.eqb_neq. by intros ->.
Qed.

Lemma countRuns_paragraphs ps :
  Forall tidy ps ->
  countRuns isLF 2 (join blankLine ps) 0 = (length ps - 1)%nat.
Proof.
  induction 1 as [|p ps Hp Hps IH]; [done|].
  destruct ps as [|q qs].
  - cbn [join length]. rewrite <- (app_nil_r p).
    by rewrite (countRuns_skip _ _ _ _ (tidy_chars p Hp)).
  - rewrite join_cons, (countRuns_skip _ _ _ _ (tidy_chars p Hp)).
    unfold blankLine at 1. cbn [app].
    rewrite !countRuns_cons. change (isLF LF) with true. cbv iota.
    inversion Hps as [|? ? Hq _]; subst.
    pose proof (tidy_nonempty q Hq) as Hne. pose proof (tidy_chars q Hq) as Hcs.
    destruct q as [|x q']; [done|]. inversion Hcs as [|? ? Hx _]; subst.
    rewrite join_cons_head in *. rewrite countRuns_cons, Hx in *.
    cbn [Nat.leb Nat.ltb andb] in *. cbn [length] in *. lia.
Qed.

(** X13. When [parseSectionContent] returns metadata, its [wordCount] is the
    number of words of the cleaned text and its [paragraphCount] the number
    of its paragraphs, except that an empty text counts as one word in one
    paragraph. *)
Theorem parseSectionContent_counts (response sectionTitle : jsstring) (m : Metadata) :
  sc_metadata (parseSectionContent response sectionTitle) = Some m ->
  exists paragraphs,
    Forall tidy paragraphs /\
    sc_content (parseSectionContent response sectionTitle) = join blankLine paragraphs /\
    wordCount m = Nat.max 1 (length (words (join blankLine paragraphs))) /\
    paragraphCount m = Nat.max 1 (length paragraphs).
Proof.
  unfold parseSectionContent.
  destruct (detectFailure (cleanGeneratedText response)); [done|].
  cbn [sc_metadata sc_content]. intros [= <-]. cbn [wordCount paragraphCount].
  assert (exists paragraphs,
             Forall tidy paragraphs /\
             cleanGeneratedText response = join blankLine paragraphs) as (ps & Hps & Hc).
  { unfold cleanGeneratedText. destruct response as [|c text]; [by exists []|].
    unfold normalizeParagraphs.
    pose proof (kept_paragraphs_tidy (stripArtifacts (c :: text))) as Ht.
    eexists. split; [exact Ht|]. by apply join_tidy_trim. }
  exists ps. rewrite Hc. repeat split; try done.
  - apply pieces_edgeFree.
    destruct ps as [|p ps']; [split; intros; [done | by destruct t']|].
    apply join_edgeFree. eapply Forall_impl; [exact Hps|].
    intros q Hq. split; auto with jsstrings.
  - rewrite (countRuns_paragraphs ps Hps). lia.
Qed.

Lemma parseSectionContent_counts_witness :
  exists paragraphs,
    Forall tidy paragraphs /\
    sc_content (parseSectionContent (lit "Too short.") (lit "Results"))
    = join blankLine paragraphs /\
    2%nat = Nat.max 1 (length (words (join blankLine paragraphs))) /\
    1%nat = Nat.max 1 (length paragraphs).
Proof.
  apply (parseSectionContent_counts (lit "Too short.") (lit "Results")
           {| wordCount := 2; paragraphCount := 1; hasHallucinationMarkers := false |}).
  vm_compute. reflexivity.
Defined.

(** ** Retrying *)

Lemma retryLoop_schedule {A E} (fn : nat -> Settled A E) maxRetries baseDelay
    remaining attempt lastError sleeps :
  (remaining + attempt = maxRetries)%nat ->
  sleeps = map (backoffDelay baseDelay) (seq 0 (Nat.min attempt (maxRetries - 1))) ->
  (forall k, (k < attempt)%nat -> exists e, fn k = Rejected e) ->
  (match attempt with
   | O => lastError = None
   | S k => exists e, fn k = Rejected e /\ lastError = Some e
   end) ->
  let '(outcome, calls, slept) :=
    retryLoop fn maxRetries baseDelay remaining attempt lastError sleeps in
  (calls <= maxRetries)%nat /\
  slept = map (backoffDelay baseDelay) (seq 0 (calls - 1)) /\
  (forall k, (k < calls - 1)%nat -> exists e, fn k = Rejected e) /\
  match outcome with
  | Resolved a => (1 <= calls)%nat /\ fn (calls - 1)%nat = Resolved a
  | Rejected None => maxRetries = 0%nat /\ calls = 0%nat
  | Rejected (Some e) =>
      calls = maxRetries /\ (1 <= maxRetries)%nat /\ fn (maxRetries - 1)%nat = Rejected e
  end.
Proof.
  revert attempt lastError sleeps.
  induction remaining as [|remaining IH]; intros attempt lastError sleeps Hsum Hs Hfail Hlast.
  - cbn [retryLoop]. cbn [Nat.add] in Hsum. subst attempt.
    split; [done|]. split.
    { rewrite Hs. f_equal. f_equal. lia. }
    split; [intros k Hk; apply Hfail; lia|].
    destruct maxRetries as [|m].
    + by subst.
    + destruct Hlast as (e & He & ->). cbn [Nat.sub]. rewrite Nat.sub_0_r.
      repeat split; [lia | done].
  - cbn [retryLoop]. destruct (fn attempt) as [a|error] eqn:Hfn.
    + split; [lia|]. split.
      { rewrite Hs. f_equal. f_equal. lia. }
      split; [intros k Hk; apply Hfail; lia|].
      split; [lia|]. by replace (S attempt - 1)%nat with attempt by lia.
    + apply IH.
      * lia.
      * destruct (attempt <? maxRetries - 1)%nat eqn:Hlt.
        -- apply Nat.ltb_lt in Hlt.
           replace (Nat.min (S attempt) (maxRetries - 1)) with (S attempt) by lia.
           rewrite seq_S, map_app, Hs. cbn [map Nat.add]. unfold backoffDelay at 3.
           f_equal. f_equal. f_equal. lia.
        -- apply Nat.ltb_ge in Hlt. rewrite Hs. f_equal. f_equal. lia.
      * intros k Hk. destruct (decide (k = attempt)) as [->|]; [by exists error|].
        apply Hfail. lia.
      * by exists error.
Qed.

(** X14. [retryWithBackoff] calls [fn] until a call succeeds, at most
    [maxRetries] times, and resolves with the value of the first call that
    succeeds.  Between two calls it sleeps [baseDelay] times 1, 2, 4, ...:
    one sleep less than calls, none after the last call.  When every call
    fails it rejects with the error of the last call, and with an undefined
    error when [maxRetries] is 0 and [fn] is never called. *)
Theorem retryWithBackoff_schedule {A E : Type}
    (fn : nat -> Settled A E) (maxRetries : nat) (baseDelay : N) :
  let '(outcome, calls, slept) :=
    retryWithBackoff fn (Some maxRetries) (Some baseDelay) in
  (calls <= maxRetries)%nat /\
  slept = map (fun attempt => baseDelay * 2 ^ N.of_nat attempt) (seq 0 (calls - 1)) /\
  (forall k, (k < calls - 1)%nat -> exists e, fn k = Rejected e) /\
  match outcome with
  | Resolved a => (1 <= calls)%nat /\ fn (calls - 1)%nat = Resolved a
  | Rejected None => maxRetries = 0%nat /\ calls = 0%nat
  | Rejected (Some e) =>
      calls = maxRetries /\ (1 <= maxRetries)%nat /\ fn (maxRetries - 1)%nat = Rejected e
  end.
Proof.
  unfold retryWithBackoff.
  change (default 3%nat (Some maxRetries)) with maxRetries.
  change (default 1000 (Some baseDelay)) with baseDelay.
  apply (retryLoop_schedule fn maxRetries baseDelay maxRetries 0 None []);
    [lia | done | intros; lia | done].
Qed.

(** ** Slugs and file names of exports *)

Lemma replaceRuns_cons p r c s :
  replaceRuns p r (c :: s) =
  if p c then
    match s with
    | d :: _ => if p d then replaceRuns p r s else r :: replaceRuns p r s
    | [] => [r]
    end
  else c :: replaceRuns p r s.
Proof. reflexivity. Qed.

Lemma replaceRuns_chars p r s c :
  c ∈ replaceRuns p r s -> c = r \/ (c ∈ s /\ p c = false).
Proof.
  induction s as [|x s IH]; [by intros ?%elem_of_nil|].
  rewrite replaceRuns_cons. destruct (p x) eqn:Hx.
  - destruct s as [|d s'].
    + intros ->%list_elem_of_singleton. by left.
    + destruct (p d).
      * intros H. destruct (IH H) as [?|[? ?]]; [by left|].
        right. split; [by right | done].
      * intros [->|H]%elem_of_cons; [by left|].
        destruct (IH H) as [?|[? ?]]; [by left|].
        right. split; [by right | done].
  - intros [->|H]%elem_of_cons.
    + right. split; [by left | done].
    + destruct (IH H) as [?|[? ?]]; [by left|].
      right. split; [by right | done].
Qed.

Lemma adjacentPair_cons r x s :
  adjacentPair r (x :: s) =
  match s with
  | y :: _ => ((x =? r) && (y =? r)) || adjacentPair r s
  | [] => false
  end.
Proof. reflexivity. Qed.

Lemma replaceRuns_no_pair p r s :
  p r = true -> adjacentPair r (replaceRuns p r s) = false.
Proof.
  intros Hr. induction s as [|x s IH]; [done|].
  assert (forall y, p y = false -> (y =? r) = false) as Hne.
  { intros y Hy. apply N.eqb_neq. intros ->. congruence. }
  rewrite replaceRuns_cons. destruct (p x) eqn:Hx.
  - destruct s as [|d s']; [done|].
    destruct (p d) eqn:Hd; [done|].
    rewrite adjacentPair_cons. rewrite replaceRuns_cons, Hd in *.
    by rewrite (Hne d Hd), andb_false_r, IH.
  - rewrite adjacentPair_cons. destruct (replaceRuns p r s); [done|].
    by rewrite (Hne x Hx), IH.
Qed.

Lemma adjacentPair_app r a b :
  adjacentPair r (a ++ b) = false ->
  adjacentPair r a = false /\ adjacentPair r b = false.
Proof.
  induction a as [|x a IH]; [done|].
  change ((x :: a) ++ b) with (x :: (a ++ b)). rewrite !adjacentPair_cons.
  destruct a as [|y a'].
  - cbn [app]. destruct b as [|z b']; [done|].
    intros [_ H]%orb_false_iff. done.
  - change ((y :: a') ++ b) with (y :: (a' ++ b)) in *.
    intros [H1 H2]%orb_false_iff. destruct (IH H2) as [Ha Hb].
    by rewrite H1, Ha.
Qed.

(** What is left of [s] when the characters of the class [p] are removed
    from its two ends. *)
Lemma strip_both_ends p s :
  let r := rev (dropWhile p (rev (dropWhile p s))) in
  (exists lead tail, s = lead ++ r ++ tail) /\
  (forall c t, r = c :: t -> p c = false) /\
  (forall t c, r = t ++ [c] -> p c = false).
Proof.
  cbv zeta. set (y := dropWhile p s). set (z := dropWhile p (rev y)).
  assert (y = rev z ++ rev (takeWhile p (rev y))) as Hy.
  { rewrite <- rev_app_distr. unfold z. rewrite takeWhile_dropWhile.
    by rewrite rev_involutive. }
  split; [|split].
  - exists (takeWhile p s), (rev (takeWhile p (rev y))).
    rewrite <- Hy. unfold y. by rewrite takeWhile_dropWhile.
  - intros c t Hr. rewrite Hr in Hy.
    eapply (dropWhile_head p s). exact Hy.
  - intros t c Hr.
    assert (z = c :: rev t) as Hz.
    { rewrite <- (rev_involutive z), Hr, rev_app_distr. reflexivity. }
    eapply (dropWhile_head p (rev y)). exact Hz.
Qed.

(** X15. A slug is made of letters, digits and single hyphens: it holds no
    white space, no underscore and no other character, it neither starts
    nor ends with a hyphen, and no two hyphens follow each other.  Its
    letters are those of the lower-cased text: none is upper case when the
    lower-cased text has none. *)
Theorem slugify_shape (toLowerCase : jsstring -> jsstring) (text : jsstring) :
  let slug := slugify toLowerCase text in
  Forall (fun c => (isUpper c || isLower c || isDigit c || (c =? DASH)) = true) slug /\
  (forall c t, slug = c :: t -> c <> DASH) /\
  (forall t c, slug = t ++ [c] -> c <> DASH) /\
  adjacentPair DASH slug = false /\
  (Forall (fun c => isUpper c = false) (toLowerCase text) ->
   Forall (fun c => (isLower c || isDigit c || (c =? DASH)) = true) slug).
Proof.
  cbv zeta. unfold slugify.
  set (lowered := trim (toLowerCase text)).
  set (kept := List.filter (fun c => isWord c || isWhiteSpace c || (c =? DASH)) lowered).
  set (hyphenated := replaceRuns isSlugSeparator DASH kept).
  destruct (strip_both_ends isDash hyphenated) as ((lead & tail & Hh) & Hhead & Hlast).
  set (slug := rev (dropWhile isDash (rev (dropWhile isDash hyphenated)))) in *.
  assert (forall c, c ∈ slug ->
                    c = DASH \/
                    (c ∈ toLowerCase text /\ (isUpper c || isLower c || isDigit c) = true))
    as Hchars.
  { intros c Hc.
    assert (c ∈ hyphenated) as Hin.
    { rewrite Hh. apply elem_of_app. right. apply elem_of_app. by left. }
    apply replaceRuns_chars in Hin as [->|[Hk Hsep]]; [by left|]. right.
    apply list_elem_of_In, filter_In in Hk as [Hl Hw].
    apply list_elem_of_In in Hl. split; [by apply trim_chars|].
    unfold isSlugSeparator in Hsep. unfold isWord in Hw.
    apply orb_false_iff in Hsep as [[Hs1 Hs2]%orb_false_iff Hs3].
    rewrite Hs1, Hs3, !orb_false_r in Hw. unfold UNDERSCORE in Hs2.
    by rewrite Hs2, orb_false_r in Hw. }
  split; [|split; [|split; [|split]]].
  - apply Forall_forall. intros c Hc.
    destruct (Hchars c Hc) as [->|[_ H]]; [done|]. by rewrite H.
  - intros c t Hs Hc. specialize (Hhead c t Hs). unfold isDash in Hhead.
    subst c. done.
  - intros t c Hs Hc. specialize (Hlast t c Hs). unfold isDash in Hlast.
    subst c. done.
  - pose proof (replaceRuns_no_pair isSlugSeparator DASH kept eq_refl) as Hp.
    fold hyphenated in Hp. rewrite Hh in Hp.
    apply adjacentPair_app in Hp as [_ Hp]. by apply adjacentPair_app in Hp as [Hp _].
  - intros Hlow. apply Forall_forall. intros c Hc.
    destruct (Hchars c Hc) as [->|[Hin H]]; [done|].
    rewrite Forall_forall in Hlow. rewrite (Hlow c Hin) in H.
    cbn [orb] in H. by rewrite H.
Qed.

(** X16. The base of an export file name ([sanitized]) is made of lower case
    letters, digits and single underscores, has at most 50 code units and
    does not start with an underscore; it ends with one only when it was
    cut at 50.  The file name is that base, an underscore, the date of the
    clock reading up to its [T], and [.docx]. *)
Theorem generateExportFilename_shape
    (toLowerCase : jsstring -> jsstring) (projectName now : jsstring) :
  let base := sanitized toLowerCase projectName in
  generateExportFilename toLowerCase projectName now
  = base ++ lit "_" ++ hd [] (splitChar 84 now) ++ lit ".docx" /\
  (84 ∉ hd [] (splitChar 84 now)) /\
  Forall (fun c => (isLower c || isDigit c || (c =? UNDERSCORE)) = true) base /\
  (length base <= 50)%nat /\
  (forall c t, base = c :: t -> c <> UNDERSCORE) /\
  adjacentPair UNDERSCORE base = false /\
  ((length base < 50)%nat -> forall t c, base = t ++ [c] -> c <> UNDERSCORE).
Proof.
  cbv zeta. split; [done|]. split.
  { destruct (splitChar_nonempty 84 now) as (p & ps & E). rewrite E. cbn [hd].
    apply (splitChar_no_separator 84 now p). rewrite E. by left. }
  unfold sanitized.
  set (u := replaceRuns (fun c => negb (isLowerOrDigit c)) UNDERSCORE
              (toLowerCase projectName)).
  set (v := match u with
            | c :: rest => if c =? UNDERSCORE then rest else u
            | [] => []
            end).
  set (w := match rev v with
            | c :: rest => if c =? UNDERSCORE then rev rest else v
            | [] => []
            end).
  assert (Forall (fun c => (isLower c || isDigit c || (c =? UNDERSCORE)) = true) u) as Hu.
  { apply Forall_forall. intros c Hc.
    apply replaceRuns_chars in Hc as [->|[_ H]]; [done|].
    apply negb_false_iff in H. unfold isLowerOrDigit in H. by rewrite H. }
  pose proof (replaceRuns_no_pair (fun c => negb (isLowerOrDigit c)) UNDERSCORE
                (toLowerCase projectName) eq_refl) as Hpair.
  fold u in Hpair.
  assert (exists lead, u = lead ++ v) as (lead & Huv).
  { unfold v. destruct u as [|c rest]; [by exists []|].
    destruct (c =? UNDERSCORE); [by exists [c] | by exists []]. }
  assert (forall c t, v = c :: t -> c <> UNDERSCORE) as Hvhead.
  { intros c t Hv ->. unfold v in Hv. destruct u as [|x rest]; [done|].
    destruct (x =? UNDERSCORE) eqn:Hx.
    - apply N.eqb_eq in Hx. subst x rest.
      rewrite adjacentPair_cons in Hpair. by rewrite !N.eqb_refl in Hpair.
    - by simplify_eq. }
  assert (exists tail, v = w ++ tail) as (tail & Hvw).
  { unfold w. destruct (rev v) as [|c rest] eqn:E.
    - apply (f_equal (@rev N)) in E. rewrite rev_involutive in E. by exists [].
    - destruct (c =? UNDERSCORE); [|exists []; by rewrite app_nil_r].
      exists [c]. rewrite <- (rev_involutive v), E. reflexivity. }
  assert (forall t c, w = t ++ [c] -> c <> UNDERSCORE) as Hwlast.
  { intros t c Hw ->. unfold w in Hw. destruct (rev v) as [|x rest] eqn:E.
    - by destruct t.
    - assert (v = rev rest ++ [x]) as Hv.
      { rewrite <- (rev_involutive v), E. reflexivity. }
      destruct (x =? UNDERSCORE) eqn:Hx.
      + apply N.eqb_eq in Hx. subst x. rewrite Hw in Hv.
        rewrite Huv, Hv in Hpair. apply adjacentPair_app in Hpair as [_ Hpair].
        rewrite <- app_assoc in Hpair. apply adjacentPair_app in Hpair as [_ Hpair].
        done.
      + rewrite Hv in Hw. apply app_inj_tail in Hw as [_ ->].
        by rewrite N.eqb_refl in Hx. }
  assert (u = lead ++ take 50 w ++ (drop 50 w ++ tail)) as Hsplit.
  { rewrite Huv, Hvw. rewrite <- (take_drop 50 w) at 1.
    by rewrite <- !app_assoc. }
  split; [|split; [|split; [|split]]].
  - rewrite Hsplit in Hu. apply Forall_app in Hu as [_ Hu].
    by apply Forall_app in Hu as [Hu _].
  - rewrite length_take. lia.
  - intros c t Ht. apply (Hvhead c (t ++ drop 50 w ++ tail)).
    etrans; [exact Hvw|]. rewrite <- (take_drop 50 w) at 1.
    rewrite Ht. by rewrite <- !app_assoc.
  - rewrite Hsplit in Hpair. apply adjacentPair_app in Hpair as [_ Hpair].
    by apply adjacentPair_app in Hpair as [Hpair _].
  - intros Hlen. rewrite length_take in Hlen.
    rewrite take_ge by lia. exact Hwlast.
Qed.

(** ** The size of a prompt *)

Lemma estimateTokens_length text :
  estimateTokens text = (N.of_nat (length text) + 3) / 4.
Proof. by destruct text. Qed.

Lemma truncated_estimate text (maxTokens : N) :
  maxTokens < estimateTokens text ->
  4 * maxTokens < N.of_nat (length text) /\
  length (take (N.to_nat (2 * maxTokens)) text ++ truncationMark
          ++ drop (length text - N.to_nat (2 * maxTokens)) text)
  = N.to_nat (4 * maxTokens + 42) /\
  estimateTokens (take (N.to_nat (2 * maxTokens)) text ++ truncationMark
                  ++ drop (length text - N.to_nat (2 * maxTokens)) text)
  = maxTokens + 11.
Proof.
  intros H. rewrite estimateTokens_length in H.
  assert (4 * maxTokens < N.of_nat (length text)) as Hlen.
  { destruct (N.lt_ge_cases (4 * maxTokens) (N.of_nat (length text))) as [|Hge];
      [done|]. exfalso.
    assert ((N.of_nat (length text) + 3) / 4 < maxTokens + 1); [|lia].
    apply N.Div0.div_lt_upper_bound. lia. }
  assert (length (take (N.to_nat (2 * maxTokens)) text ++ truncationMark
                  ++ drop (length text - N.to_nat (2 * maxTokens)) text)
          = N.to_nat (4 * maxTokens + 42)) as Hl.
  { rewrite !length_app, length_take_le, length_drop by lia.
    change (length truncationMark) with 42%nat. lia. }
  split; [done|]. split; [done|].
  rewrite estimateTokens_length, Hl, N2Nat.id.
  replace (4 * maxTokens + 42 + 3) with ((maxTokens + 11) * 4 + 1) by lia.
  rewrite N.div_add_l by lia. rewrite (N.div_small 1 4) by lia. lia.
Qed.

Lemma half_target (maxTokens : N) : maxTokens * 4 / 2 = 2 * maxTokens.
Proof.
  replace (maxTokens * 4) with (2 * maxTokens * 2) by lia.
  by rewrite N.div_mul.
Qed.

(** X17. [truncateForContext] returns a text that fits the budget as it is.
    A longer text is replaced by its first and its last [2 * maxTokens]
    code units, which do not overlap, around a mark of 42 code units: the
    result has [4 * maxTokens + 42] code units and is estimated at
    [maxTokens + 11] tokens, above the budget it was cut for. *)
Theorem truncateForContext_size (text : jsstring) (maxTokens : N) :
  let r := truncateForContext text (Some maxTokens) in
  (estimateTokens text <= maxTokens ->
     r = {| tc_text := text; tc_truncated := false;
            tc_originalTokens := None; tc_newTokens := None |}) /\
  (maxTokens < estimateTokens text ->
     tc_truncated r = true /\
     tc_originalTokens r = Some (estimateTokens text) /\
     tc_text r = take (N.to_nat (2 * maxTokens)) text ++ truncationMark
                 ++ drop (length text - N.to_nat (2 * maxTokens)) text /\
     4 * maxTokens < N.of_nat (length text) /\
     N.of_nat (length (tc_text r)) = 4 * maxTokens + 42 /\
     tc_newTokens r = Some (maxTokens + 11)).
Proof.
  cbv zeta. unfold truncateForContext.
  change (default 500000 (Some maxTokens)) with maxTokens.
  split.
  - intros H. by rewrite (proj2 (N.leb_le _ _) H).
  - intros H. rewrite (proj2 (N.leb_gt _ _) H).
    cbn [tc_text tc_truncated tc_originalTokens tc_newTokens].
    rewrite half_target.
    destruct (truncated_estimate text maxTokens H) as (Hlen & Hl & Hest).
    repeat split; try done.
    + by rewrite Hl, N2Nat.id.
    + by rewrite Hest.
Qed.

(** X18. Whatever the text, what [truncateForContext] returns passes the
    size test [fitsInContext] of the client, as long as the budget is at
    least 11 tokens under the limit of 900000; the default budget of
    500000 is. *)
Theorem truncateForContext_fits (text : jsstring) (maxTokens : option N) :
  default 500000 maxTokens + 11 < MAX_INPUT_TOKENS ->
  fitsInContext (tc_text (truncateForContext text maxTokens)) = true.
Proof.
  intros Hbudget. unfold truncateForContext, fitsInContext.
  set (budget := default 500000 maxTokens) in *.
  destruct (estimateTokens text <=? budget) eqn:E.
  - cbn [tc_text]. apply N.leb_le in E. apply N.ltb_lt. lia.
  - cbn [tc_text]. apply N.leb_gt in E. rewrite half_target.
    destruct (truncated_estimate text budget E) as (_ & _ & ->).
    by apply N.ltb_lt.
Qed.

Lemma truncateForContext_fits_witness :
  fitsInContext
    (tc_text (truncateForContext
                (lit "A long source text, cut in its middle to fit.") (Some 5)))
  = true /\
  fitsInContext (tc_text (truncateForContext (lit "short") None)) = true.
Proof.
  split.
  - apply (truncateForContext_fits _ (Some 5)). vm_compute. reflexivity.
  - apply (truncateForContext_fits _ None). vm_compute. reflexivity.
Defined.

(* ===================================================================== *)
(** * The drafts of a project                                             *)
(* ===================================================================== *)

(** [getDraftByProject] returns a row of the project with the highest
    version, and nothing only when the project has no row. *)
Lemma getDraftByProject_max db projectId :
  match getDraftByProject db projectId with
  | Some (id, draft) =>
      db !! id = Some draft /\ project_id draft = projectId /\
      forall id' draft', db !! id' = Some draft' -> project_id draft' = projectId ->
                         (version draft' <= version draft)%Z
  | None => forall id' draft', db !! id' = Some draft' -> project_id draft' <> projectId
  end.
Proof.
  unfold getDraftByProject.
  apply (map_fold_weak_ind
           (fun r m =>
              match r with
              | Some (id, draft) =>
                  m !! id = Some draft /\ project_id draft = projectId /\
                  forall id' draft', m !! id' = Some draft' ->
                                     project_id draft' = projectId ->
                                     (version draft' <= version draft)%Z
              | None => forall id' draft', m !! id' = Some draft' ->
                                           project_id draft' <> projectId
              end)).
  - intros id' draft' H. by rewrite lookup_empty in H.
  - intros i x m r Hi IH.
    case_bool_decide as Hp.
    + destruct r as [[j b]|].
      * destruct IH as (Hj & Hb & Hmax).
        destruct (version b <? version x)%Z eqn:Hlt.
        -- apply Z.ltb_lt in Hlt. split; [by rewrite lookup_insert_eq|].
           split; [done|]. intros id' draft' Hl Hq.
           destruct (decide (id' = i)) as [->|Hne].
           ++ rewrite lookup_insert_eq in Hl. simplify_eq. lia.
           ++ rewrite lookup_insert_ne in Hl by done.
              specialize (Hmax id' draft' Hl Hq). lia.
        -- apply Z.ltb_ge in Hlt. split.
           { rewrite lookup_insert_ne; [done|]. intros ->. congruence. }
           split; [done|]. intros id' draft' Hl Hq.
           destruct (decide (id' = i)) as [->|Hne].
           ++ rewrite lookup_insert_eq in Hl. by simplify_eq.
           ++ rewrite lookup_insert_ne in Hl by done. by apply (Hmax id' draft').
      * split; [by rewrite lookup_insert_eq|]. split; [done|].
        intros id' draft' Hl Hq.
        destruct (decide (id' = i)) as [->|Hne].
        -- rewrite lookup_insert_eq in Hl. simplify_eq. lia.
        -- rewrite lookup_insert_ne in Hl by done. by destruct (IH id' draft' Hl).
    + destruct r as [[j b]|].
      * destruct IH as (Hj & Hb & Hmax). split.
        { rewrite lookup_insert_ne; [done|]. intros ->. congruence. }
        split; [done|]. intros id' draft' Hl Hq.
        destruct (decide (id' = i)) as [->|Hne].
        -- rewrite lookup_insert_eq in Hl. by simplify_eq.
        -- rewrite lookup_insert_ne in Hl by done. by apply (Hmax id' draft').
      * intros id' draft' Hl.
        destruct (decide (id' = i)) as [->|Hne].
        -- rewrite lookup_insert_eq in Hl. by simplify_eq.
        -- rewrite lookup_insert_ne in Hl by done. by apply (IH id' draft').
Qed.

(** A row of the project whose version is above the versions of the other
    rows of the project is the one [getDraftByProject] returns. *)
Lemma getDraftByProject_newest db projectId id draft :
  db !! id = Some draft -> project_id draft = projectId ->
  (forall id' draft', id' <> id -> db !! id' = Some draft' ->
                      project_id draft' = projectId ->
                      (version draft' < version draft)%Z) ->
  getDraftByProject db projectId = Some (id, draft).
Proof.
  intros Hl Hp Hnew. pose proof (getDraftByProject_max db projectId) as H.
  destruct (getDraftByProject db projectId) as [[j b]|].
  - destruct H as (Hj & Hb & Hmax).
    destruct (decide (j = id)) as [->|Hne]; [by simplify_eq|].
    specialize (Hnew j b Hne Hj Hb). specialize (Hmax id draft Hl Hp). lia.
  - by destruct (H id draft Hl).
Qed.

(** X19. When the identifier it draws is free, [createDraft] adds a row for
    the project with an empty document and no provenance, and leaves the
    other rows as they were.  The version of the new row is 1 when the
    project had no draft and one more than its highest version otherwise,
    so it is above every version of the project, and the new row is the
    draft [getDraftByProject] returns from then on. *)
Theorem createDraft_is_current (generateId : nat -> jsstring)
    (db : gmap jsstring Draft) (ids : nat) (projectId : jsstring) :
  db !! generateId ids = None ->
  exists draft,
    createDraft generateId db ids projectId
    = Returned (draft, <[generateId ids := draft]> db, S ids) /\
    project_id draft = projectId /\
    currentContentOf draft = [] /\
    section_sources draft = Some ∅ /\
    (version draft
     = match getDraftByProject db projectId with
       | Some (_, existing) => version existing + 1
       | None => 1
       end)%Z /\
    (forall id existing, db !! id = Some existing -> project_id existing = projectId ->
                         (version existing < version draft)%Z) /\
    (forall id, id <> generateId ids -> (<[generateId ids := draft]> db) !! id = db !! id) /\
    getDraftByProject (<[generateId ids := draft]> db) projectId
    = Some (generateId ids, draft).
Proof.
  intros Hfree. unfold createDraft. rewrite Hfree.
  eexists. split; [reflexivity|]. cbn [project_id version section_sources].
  split; [done|]. split; [done|]. split; [done|]. split; [done|].
  pose proof (getDraftByProject_max db projectId) as Hmax.
  assert (forall id existing, db !! id = Some existing -> project_id existing = projectId ->
            (version existing
             < match getDraftByProject db projectId with
               | Some (_, e) => version e + 1
               | None => 1
               end)%Z) as Habove.
  { intros id existing Hl Hp.
    destruct (getDraftByProject db projectId) as [[j b]|].
    - destruct Hmax as (_ & _ & Hmax). specialize (Hmax id existing Hl Hp). lia.
    - by destruct (Hmax id existing Hl). }
  split; [exact Habove|].
  split; [by intros id Hne; rewrite lookup_insert_ne|].
  apply getDraftByProject_newest.
  - by rewrite lookup_insert_eq.
  - done.
  - intros id' draft' Hne Hl Hp. rewrite lookup_insert_ne in Hl by done.
    cbn [version]. by apply (Habove id' draft').
Qed.

Lemma createDraft_is_current_witness :
  exists draft,
    createDraft sampleIds sampleDb 0 (lit "project-1")
    = Returned (draft, <[sampleIds 0 := draft]> sampleDb, 1%nat) /\
    version draft = 2%Z /\
    getDraftByProject (<[sampleIds 0 := draft]> sampleDb) (lit "project-1")
    = Some (sampleIds 0, draft).
Proof.
  destruct (createDraft_is_current sampleIds sampleDb 0 (lit "project-1"))
    as (draft & H1 & _ & _ & _ & H5 & _ & _ & H8).
  { vm_compute. reflexivity. }
  exists draft. split; [exact H1|]. split; [|exact H8].
  rewrite H5. vm_compute. reflexivity.
Defined.

(** X20. What [saveDraftContent] saves is what the next [getDraftByProject]
    returns: when the current draft of the project is the only one of its
    version, the row the call returns is the current draft after the call,
    and its content is the content that was given. *)
Theorem saveDraftContent_then_load
    (clock : nat -> jsstring) (db : gmap jsstring Draft) (tick : nat)
    (projectId : jsstring) (newContent : option PMNode)
    (id : jsstring) (draft : Draft) :
  getDraftByProject db projectId = Some (id, draft) ->
  (forall id' draft', id' <> id -> db !! id' = Some draft' ->
                      project_id draft' = projectId ->
                      version draft' <> version draft) ->
  exists data db' tick',
    saveDraftContent clock db tick projectId newContent = Returned (data, db', tick') /\
    getDraftByProject db' projectId = Some (id, data) /\
    content data = newContent /\
    version data = version draft.
Proof.
  intros Hget Huniq. unfold saveDraftContent. rewrite Hget.
  destruct (markSectionsAsEdited clock (section_sources draft) tick) as [marked tick'].
  eexists _, _, _. split; [reflexivity|]. cbn [content version].
  split; [|done].
  pose proof (getDraftByProject_max db projectId) as Hmax. rewrite Hget in Hmax.
  destruct Hmax as (Hl & Hp & Hmax).
  apply getDraftByProject_newest.
  - by rewrite lookup_insert_eq.
  - done.
  - intros id' draft' Hne Hl' Hp'. rewrite lookup_insert_ne in Hl' by done.
    cbn [version]. specialize (Hmax id' draft' Hl' Hp').
    specialize (Huniq id' draft' Hne Hl' Hp'). lia.
Qed.

Lemma saveDraftContent_then_load_witness :
  exists data db' tick',
    saveDraftContent sampleClock sampleDb 0 (lit "project-1") None
    = Returned (data, db', tick') /\
    getDraftByProject db' (lit "project-1") = Some (lit "draft-1", data) /\
    content data = None /\
    version data = version sampleDraftRow.
Proof.
  apply (saveDraftContent_then_load sampleClock sampleDb 0 (lit "project-1") None
           (lit "draft-1") sampleDraftRow).
  - vm_compute. reflexivity.
  - intros id' draft' Hne Hl. unfold sampleDb in Hl.
    rewrite lookup_singleton_ne in Hl by done. done.
Defined.

(* ===================================================================== *)
(** * A generated section, listed and exported                            *)
(* ===================================================================== *)

(** A text has a paragraph that is not blank exactly when it is not
    blank. *)
Lemma nonBlank_paragraphs s :
  List.filter nonBlank (splitBlank s) = [] <-> allSpace s.
Proof.
  split.
  - intros H. rewrite <- (join_splitBlank s).
    assert (Forall allSpace (splitBlank s)) as Hall.
    { apply Forall_forall. intros p Hp. apply nonBlank_false.
      destruct (nonBlank p) eqn:E; [|done].
      assert (In p (List.filter nonBlank (splitBlank s))) as Hin
        by (apply filter_In; split; [by apply list_elem_of_In | done]).
      by rewrite H in Hin. }
    clear H. induction Hall as [|p ps Hp Hps IH]; [constructor|].
    destruct ps as [|q ps]; [done|].
    rewrite join_cons. apply Forall_app. split; [done|].
    apply Forall_app. split; [by repeat constructor | done].
  - intros H. 
    destruct (List.filter nonBlank (splitBlank s)) as [|p ps] eqn:E; [done|].
    assert (In p (p :: ps)) as Hin by (by left).
    rewrite <- E in Hin. apply filter_In in Hin as [Hin Hp].
    apply list_elem_of_In in Hin.
    assert (allSpace p) as Hs.
    { apply Forall_forall. intros c Hc. unfold allSpace in H.
      rewrite Forall_forall in H. apply H. by eapply splitBlank_chars. }
    apply nonBlank_false in Hs. congruence.
Qed.

Lemma convertContentToProseMirror_blank text :
  (0 <? length (convertContentToProseMirror text))%nat = nonBlank text.
Proof.
  rewrite convertContentToProseMirror_map, length_map.
  destruct (nonBlank text) eqn:E.
  - destruct (List.filter nonBlank (splitBlank text)) eqn:F; [|done].
    apply nonBlank_paragraphs, nonBlank_false in F. congruence.
  - apply nonBlank_false, nonBlank_paragraphs in E. by rewrite E.
Qed.

(** Where the section node is after [updateDraftSection], in a tree with
    at most one node of its id. *)
Lemma upsertNode_split sid node nodes :
  (count (hasId sid) nodes <= 1)%nat ->
  exists before after,
    upsertNode sid node nodes = before ++ node :: after /\
    Forall (fun n => hasId sid n = false) before /\
    Forall (fun n => hasId sid n = false) after.
Proof.
  intros Hcount. unfold upsertNode.
  destruct (find_section_split sid nodes)
    as [(before & x & after & -> & Hx & Hb & ->)|[Hnone ->]].
  - exists before, after. rewrite insert_middle.
    rewrite count_app, count_cons, Hx in Hcount.
    repeat split; [done|]. apply count_zero_Forall. lia.
  - exists nodes, []. repeat split; [done | constructor].
Qed.

Lemma upsertNode_member sid node nodes : node ∈ upsertNode sid node nodes.
Proof.
  unfold upsertNode.
  destruct (find_section_split sid nodes)
    as [(before & x & after & -> & Hx & Hb & ->)|[Hnone ->]].
  - rewrite insert_middle. apply elem_of_app. right. by left.
  - apply elem_of_app. right. by left.
Qed.

(** X21. After [updateDraftSection] has stored a section with a non-empty
    id, the section list of the drafts route names it: with its title, or
    [Untitled] when the title is empty, with the warnings of the call, and
    with [hasContent] true exactly when the generated content is not
    blank. *)
Theorem listSections_after_update
    (clock : nat -> jsstring) (db : gmap jsstring Draft) (tick : nat)
    (draftId : jsstring) (d : SectionData) (draft : Draft) :
  db !! draftId = Some draft ->
  sd_templateSectionId d <> [] ->
  exists db' draft',
    updateDraftSection clock db tick draftId d = Returned (db', S tick) /\
    db' !! draftId = Some draft' /\
    {| ss_id := sd_templateSectionId d;
       ss_title := match sd_templateSectionTitle d with
                   | [] => lit "Untitled"
                   | title => title
                   end;
       ss_hasContent := nonBlank (sd_content d);
       ss_warnings := JArray (map JString (default [] (sd_warnings d))) |}
    ∈ listSections draft'.
Proof.
  intros Hd Hid.
  rewrite (updateDraftSection_once clock db tick draftId d draft Hd).
  eexists _, _. split; [reflexivity|]. split; [by rewrite lookup_insert_eq|].
  unfold listSections. apply list_elem_of_In, in_flat_map.
  exists (sectionNodeOf d). split.
  { apply list_elem_of_In. cbn [currentContentOf content]. apply upsertNode_member. }
  unfold sectionNodeOf at 1. cbn [nodeId attr_id attr_title mbind option_bind].
  destruct (sd_templateSectionId d) as [|c sid] eqn:Es; [done|].
  cbn [truthyGroup]. left. f_equal.
  - by destruct (sd_templateSectionTitle d).
  - cbn [length]. apply convertContentToProseMirror_blank.
  - cbn [section_sources default from_option]. unfold id.
    rewrite lookup_insert_eq.
    destruct (sourcesEntry_fields d (clock tick)) as (_ & _ & _ & Hw & _).
    cbn [mbind option_bind]. by rewrite Hw.
Qed.

Lemma listSections_after_update_witness :
  exists db' draft',
    updateDraftSection sampleClock sampleDb 0 (lit "draft-1") secondResult
    = Returned (db', 1%nat) /\
    db' !! lit "draft-1" = Some draft' /\
    {| ss_id := lit "s1"; ss_title := lit "Introduction";
       ss_hasContent := true; ss_warnings := JArray [] |}
    ∈ listSections draft'.
Proof.
  apply (listSections_after_update sampleClock sampleDb 0 (lit "draft-1")
           secondResult sampleDraftRow).
  - vm_compute. reflexivity.
  - done.
Defined.

Lemma convertDraftForExport_sections draft refs :
  sections (convertDraftForExport draft refs)
  = Some (flat_map exportedNode (currentContentOf draft)).
Proof. reflexivity. Qed.

Lemma exportedNode_no_id sid (nodes : list PMNode) :
  Forall (fun n => hasId sid n = false) nodes ->
  List.filter (fun s => bool_decide (templateSectionId s = Some sid))
              (flat_map exportedNode nodes) = [].
Proof.
  induction 1 as [|n nodes Hn _ IH]; [done|].
  cbn [flat_map]. rewrite List.filter_app, IH, app_nil_r.
  destruct n as [|type attrs nodeContent]; [done|].
  unfold exportedNode. destruct (_ || _); [|done].
  cbn [List.filter templateSectionId].
  unfold hasId in Hn. by rewrite Hn.
Qed.

(** X22. After [updateDraftSection] on a tree with at most one node for the
    id, the export of the draft has exactly one section with that id: it
    carries the title of the call, or [Untitled Section] when the title is
    empty, and the text [extractSectionText] reads from the section node
    the call built. *)
Theorem export_after_update
    (clock : nat -> jsstring) (db : gmap jsstring Draft) (tick : nat)
    (draftId : jsstring) (d : SectionData) (draft : Draft)
    (refs : option (list Reference)) :
  db !! draftId = Some draft ->
  (count (hasId (sd_templateSectionId d)) (currentContentOf draft) <= 1)%nat ->
  exists db' draft' exported,
    updateDraftSection clock db tick draftId d = Returned (db', S tick) /\
    db' !! draftId = Some draft' /\
    sections (convertDraftForExport draft' refs) = Some exported /\
    List.filter (fun s => bool_decide (templateSectionId s = Some (sd_templateSectionId d)))
                exported
    = [exportedSection d] /\
    references (convertDraftForExport draft' refs) = Some (default [] refs).
Proof.
  intros Hd Hcount.
  rewrite (updateDraftSection_once clock db tick draftId d draft Hd).
  eexists _, _, _. split; [reflexivity|]. split; [by rewrite lookup_insert_eq|].
  split; [apply convertDraftForExport_sections|]. split; [|reflexivity].
  cbn [currentContentOf content].
  destruct (upsertNode_split (sd_templateSectionId d) (sectionNodeOf d)
              (currentContentOf draft) Hcount) as (before & after & -> & Hb & Ha).
  rewrite flat_map_app. cbn [flat_map]. rewrite !List.filter_app.
  rewrite (exportedNode_no_id _ before Hb), (exportedNode_no_id _ after Ha), app_nil_r.
  cbn [app].
  unfold exportedNode, sectionNodeOf at 1. cbn [String.eqb Ascii.eqb Bool.eqb orb].
  cbn [List.filter templateSectionId nodeId attr_id].
  rewrite bool_decide_eq_true_2 by done. f_equal.
  unfold exportedSection. f_equal.
  cbn [mbind option_bind attr_title].
  destruct (sd_templateSectionTitle d) as [|c title] eqn:Et; [|done].
  cbn [truthyGroup]. unfold extractHeadingText, sectionNodeOf.
  cbn [List.find String.eqb Ascii.eqb Bool.eqb]. by rewrite Et.
Qed.

Lemma export_after_update_witness :
  exists db' draft' exported,
    updateDraftSection sampleClock sampleDb 0 (lit "draft-1") secondResult
    = Returned (db', 1%nat) /\
    db' !! lit "draft-1" = Some draft' /\
    sections (convertDraftForExport draft' None) = Some exported /\
    List.filter (fun s => bool_decide (templateSectionId s = Some (lit "s1"))) exported
    = [exportedSection secondResult] /\
    references (convertDraftForExport draft' None) = Some [].
Proof.
  apply (export_after_update sampleClock sampleDb 0 (lit "draft-1")
           secondResult sampleDraftRow None).
  - vm_compute. reflexivity.
  - vm_compute. lia.
Defined.

(* ===================================================================== *)
(** * The inline parsers lose no text                                     *)
(* ===================================================================== *)

Lemma take_takeWhile p (s : jsstring) :
  take (length (takeWhile p s)) s = takeWhile p s.
Proof.
  rewrite <- (takeWhile_dropWhile p s) at 2. by rewrite take_app_length.
Qed.

Lemma takeWhile_split p (r body tail : jsstring) :
  takeWhile p r = body -> drop (length body) r = tail -> r = body ++ tail.
Proof.
  intros <- <-. rewrite <- (take_takeWhile p r) at 1. by rewrite take_drop.
Qed.

Lemma emphasisAt_shape s m :
  emphasisAt s = Some m ->
  exists body,
    body <> [] /\
    ((truthyGroup (em_bold m) = Some body /\
      take (em_length m) s = renderMarked (body, true, false)) \/
     (truthyGroup (em_bold m) = None /\ truthyGroup (em_italic m) = Some body /\
      take (em_length m) s = renderMarked (body, false, true))).
Proof.
  unfold emphasisAt. destruct (boldAt s) as [m'|] eqn:Hb.
  - intros; simplify_eq. unfold boldAt in Hb.
    destruct_matches Hb; simplify_eq.
    repeat match goal with
           | E : (_ && _) = true |- _ => apply andb_true_iff in E as [? ?]
           | E : (_ =? _) = true |- _ => apply N.eqb_eq in E; subst
           end.
    match goal with
    | Hbody : takeWhile notStar ?r = ?body,
      Hd : drop _ ?r = STAR :: STAR :: ?tail |- _ =>
        exists body; split; [done|]; left; split; [done|];
        cbn [em_length renderMarked];
        rewrite (takeWhile_split notStar r body _ Hbody Hd);
        change (lit "**") with [STAR; STAR];
        replace (STAR :: STAR :: body ++ STAR :: STAR :: tail)
          with (([STAR; STAR] ++ body ++ [STAR; STAR]) ++ tail)
          by (cbn [app]; by rewrite <- !app_assoc);
        replace (2 + length body + 2)%nat
          with (length ([STAR; STAR] ++ body ++ [STAR; STAR]))
          by (rewrite !length_app; cbn [length]; lia);
        by rewrite take_app_length
    end.
  - intros Hi. unfold italicAt in Hi.
    destruct_matches Hi; simplify_eq.
    repeat match goal with
           | E : (_ =? _) = true |- _ => apply N.eqb_eq in E; subst
           end.
    match goal with
    | Hbody : takeWhile notStar ?r = ?body,
      Hd : drop _ ?r = STAR :: ?tail |- _ =>
        exists body; split; [done|]; right; split; [done|]; split; [done|];
        cbn [em_length renderMarked];
        rewrite (takeWhile_split notStar r body _ Hbody Hd);
        change (lit "*") with [STAR];
        replace (STAR :: body ++ STAR :: tail)
          with (([STAR] ++ body ++ [STAR]) ++ tail)
          by (cbn [app]; by rewrite <- !app_assoc);
        replace (1 + length body + 1)%nat
          with (length ([STAR] ++ body ++ [STAR]))
          by (rewrite !length_app; cbn [length]; lia);
        by rewrite take_app_length
    end.
Qed.

Lemma emphasisSearch_at s i index m :
  emphasisSearch s i = Some (index, m) ->
  (i <= index)%nat /\ emphasisAt (drop (index - i) s) = Some m.
Proof.
  revert i. induction s as [|c s IH]; intros i.
  - intros H. cbn in H. done.
  - cbn [emphasisSearch]. destruct (emphasisAt (c :: s)) as [m'|] eqn:E.
    + intros; simplify_eq. by rewrite Nat.sub_diag.
    + intros H. apply IH in H as [Hi H]. split; [lia|].
      replace (index - i)%nat with (S (index - S i)) by lia. done.
Qed.

Lemma take_substring (text : jsstring) a b :
  (a <= b)%nat -> take a text ++ substring text a b = take b text.
Proof.
  intros H. unfold substring. symmetry.
  etrans; [symmetry; apply (take_drop a (take b text))|].
  rewrite take_take, Nat.min_l by lia. f_equal.
  apply skipn_firstn_comm.
Qed.

(** What the loop has read when it returns: the runs written back give
    the text up to [lastIndex]. *)
Lemma formattedLoop_reads fuel text li runs rs j :
  formattedLoop fuel text li li runs = Some (rs, j) ->
  (li <= length text)%nat ->
  concat (map (fun r => renderMarked (runOfTextRun r)) runs) = take li text ->
  concat (map (fun r => renderMarked (runOfTextRun r)) rs) = take j text /\
  (j <= length text)%nat.
Proof.
  revert li runs. induction fuel as [|fuel IH]; intros li runs; [done|].
  cbn [formattedLoop].
  destruct (emphasisExec text li) as [[index m]|] eqn:E; [|by intros; simplify_eq].
  pose proof (emphasisExec_progress _ _ _ _ E) as Hprog.
  unfold emphasisExec in E. destruct (li <=? length text)%nat; [|done].
  apply emphasisSearch_at in E as [Hi Hat].
  rewrite drop_drop in Hat. replace (li + (index - li))%nat with index in Hat by lia.
  apply emphasisAt_shape in Hat as (body & Hne & Hshape).
  intros Hloop Hli Hruns. apply IH in Hloop; [done | lia |].
  assert (concat (map (fun r => renderMarked (runOfTextRun r))
                      (if (li <? index)%nat
                       then runs ++ [plainRun (substring text li index)]
                       else runs))
          = take index text) as Hbefore.
  { destruct (li <? index)%nat eqn:Hlt.
    - rewrite map_app, concat_app, Hruns. cbn [map concat runOfTextRun plainRun
        tr_text tr_bold tr_italics renderMarked].
      rewrite app_nil_r. apply take_substring. lia.
    - apply Nat.ltb_ge in Hlt. replace index with li by lia. done. }
  assert (forall run,
             renderMarked (runOfTextRun run) = take (em_length m) (drop index text) ->
             concat (map (fun r => renderMarked (runOfTextRun r))
                         ((if (li <? index)%nat
                           then runs ++ [plainRun (substring text li index)]
                           else runs) ++ [run]))
             = take (index + em_length m) text) as Hafter.
  { intros run Hrun. rewrite map_app, concat_app, Hbefore.
    cbn [map concat]. rewrite app_nil_r, Hrun.
    rewrite <- (take_substring text index (index + em_length m)) by lia.
    unfold substring. by replace (index + em_length m - index)%nat
                        with (em_length m) by lia. }
  destruct Hshape as [[Hb Ht]|(Hb & Hit & Ht)].
  - rewrite Hb. apply Hafter. by rewrite Ht.
  - rewrite Hb, Hit. apply Hafter. by rewrite Ht.
Qed.

(** The two parsers return related runs. *)
Lemma inline_parsers_related text :
  map runOfTextRun (parseFormattedText text)
  = map runOfNode (parseInlineFormatting text).
Proof.
  unfold parseFormattedText, parseInlineFormatting.
  pose proof (loops_agree (S (length text)) text 0 0 [] [] eq_refl) as H.
  destruct (formattedLoop _ _ _ _ _) as [[rs i]|];
    destruct (inlineLoop _ _ _ _ _) as [[ns j]|]; try done.
  destruct H as [H ->].
  assert (length rs = length ns) as Hl
    by (rewrite <- (length_map runOfTextRun), H, length_map; reflexivity).
  destruct (j <? length text)%nat.
  - rewrite !length_app, Hl. cbn [length].
    destruct (length ns + 1 =? 0)%nat eqn:E; [apply Nat.eqb_eq in E; lia|].
    by rewrite !map_app, H.
  - rewrite Hl. destruct (length ns =? 0)%nat; [reflexivity | exact H].
Qed.

(** X23. The inline parsers lose no text: when every run is written back
    between the stars of its marking, two stars around a bold run and one
    around an italic run, the runs of [parseFormattedText], and those of
    [parseInlineFormatting], give back the text they were read from. *)
Theorem inline_parsers_round_trip (text : jsstring) :
  concat (map (fun r => renderMarked (runOfTextRun r)) (parseFormattedText text)) = text /\
  concat (map (fun n => renderMarked (runOfNode n)) (parseInlineFormatting text)) = text.
Proof.
  assert (concat (map (fun r => renderMarked (runOfTextRun r)) (parseFormattedText text))
          = text) as H.
  { unfold parseFormattedText.
    destruct (formattedLoop_total (S (length text)) text 0 0 []) as [[rs j] E]; [lia|].
    rewrite E. apply formattedLoop_reads in E as [Hrs Hj]; [|lia|done].
    destruct (j <? length text)%nat eqn:Hlt.
    - rewrite length_app. cbn [length].
      destruct (length rs + 1 =? 0)%nat eqn:E0; [apply Nat.eqb_eq in E0; lia|].
      rewrite map_app, concat_app, Hrs. cbn [map concat runOfTextRun plainRun
        tr_text tr_bold tr_italics renderMarked].
      by rewrite app_nil_r, take_drop.
    - apply Nat.ltb_ge in Hlt.
      destruct (length rs =? 0)%nat.
      + cbn. by rewrite app_nil_r.
      + rewrite Hrs. by apply take_ge. }
  split; [exact H|].
  rewrite <- H at 2. rewrite <- (map_map runOfNode renderMarked).
  rewrite <- inline_parsers_related. by rewrite map_map.
Qed.

(* ===================================================================== *)
(** * List items                                                          *)
(* ===================================================================== *)

(** X24. The marker of a list item is removed one character at a time: of a
    bullet item the dash or star and the white space after it are
    removed, but of a numbered item only the first digit is, so that the
    text that is kept starts with the next digit or with the dot. *)
Theorem list_marker_removed (item : jsstring) :
  (startsBullet item = true ->
     stripListMarker item = dropWhile isWhiteSpace (drop 2 item)) /\
  (startsNumbered item = true ->
     stripListMarker item = drop 1 item /\
     exists c rest, stripListMarker item = c :: rest /\
                    (isDigit c = true \/ c = DOT)).
Proof.
  split.
  - unfold startsBullet, stripListMarker.
    destruct item as [|a [|b rest]]; [done..|].
    intros [Ha Hb]%andb_true_iff.
    assert ((a =? DASH) || (a =? STAR) || isDigit a || (a =? DOT) = true) as ->
      by (by rewrite Ha).
    cbn [dropWhile drop]. by rewrite Hb.
  - unfold startsNumbered, stripListMarker.
    destruct item as [|a rest]; [done|].
    cbn [takeWhile]. destruct (isDigit a) eqn:Ha; [|done].
    rewrite orb_true_r. cbn [orb length drop].
    destruct (takeWhile isDigit rest) as [|d ds] eqn:Ed.
    + cbn [length drop]. destruct rest as [|x [|y rest']]; [done..|].
      intros [Hx Hy]%andb_true_iff. apply N.eqb_eq in Hx. subst x.
      cbn [dropWhile]. change (isWhiteSpace DOT) with false. cbv iota.
      split; [done|]. exists DOT, (y :: rest'). split; [done | by right].
    + intros _. destruct rest as [|x rest']; [done|].
      cbn [takeWhile] in Ed. destruct (isDigit x) eqn:Hx; [|done].
      assert (isWhiteSpace x = false) as Hw.
      { unfold isDigit in Hx. apply andb_true_iff in Hx as [H1%N.leb_le H2%N.leb_le].
        unfold isWhiteSpace.
        repeat (apply orb_false_iff; split); try (apply N.eqb_neq; lia).
        apply andb_false_iff. left. apply N.leb_gt. lia. }
      cbn [dropWhile]. rewrite Hw.
      split; [done|]. exists x, rest'. split; [done | by left].
Qed.

(* ===================================================================== *)
(** * The default section mapping                                         *)
(* ===================================================================== *)

Lemma availableSections_member (documents : list SourceDocument)
    (acc : gset jsstring) (key : jsstring) :
  key ∈ fold_left (fun available doc =>
                     available ∪ dom (default ∅ (extracted_sections doc)))
                  documents acc <->
  key ∈ acc \/
  exists doc sections, doc ∈ documents /\ extracted_sections doc = Some sections /\
                       is_Some (sections !! key).
Proof.
  revert acc. induction documents as [|doc documents IH]; intros acc; cbn [fold_left].
  - split; [by left|]. intros [?|(? & ? & ?%elem_of_nil & _)]; done.
  - rewrite IH, elem_of_union, elem_of_dom. split.
    + intros [[H|H]|(doc' & sections & Hin & Hs & Hk)].
      * by left.
      * right. destruct (extracted_sections doc) as [sections|] eqn:E.
        -- exists doc, sections. repeat split; [by left | done | done].
        -- cbn in H. rewrite lookup_empty in H. by destruct H.
      * right. exists doc', sections. repeat split; [by right | done | done].
    + intros [H|(doc' & sections & [->|Hin]%elem_of_cons & Hs & Hk)].
      * left. by left.
      * left. right. by rewrite Hs.
      * right. by exists doc', sections.
Qed.

Lemma mapping_fold {A B} (f : A -> B) (l : list A) (acc : list B) :
  fold_left (fun mapping x => mapping ++ [f x]) l acc = acc ++ map f l.
Proof.
  revert acc. induction l as [|x l IH]; intros acc; cbn [fold_left map].
  - by rewrite app_nil_r.
  - by rewrite IH, <- app_assoc.
Qed.

(** X25. [buildDefaultSectionMapping] gives one entry for each section of
    the template, in order, with its id and title, for all documents and
    a medium length.  An entry is either manual, with no source section,
    or automatic, with exactly one source section: one of the six standard
    names, which is a key of the sections of some document. *)
Theorem buildDefaultSectionMapping_entries
    (toLowerCase : jsstring -> jsstring)
    (structure : list SectionWithParent) (documents : list SourceDocument) :
  let mapping := buildDefaultSectionMapping toLowerCase structure documents in
  map (fun e => (me_templateSectionId e, me_templateSectionTitle e)) mapping
  = map (fun s => (sec_id (section s), sec_title (section s))) structure /\
  Forall (fun e =>
            sm_sourceDocuments (me_sourceMapping e) = [lit "all"] /\
            me_instructions e = [] /\
            me_targetLength e = lit "medium" /\
            ((sm_type (me_sourceMapping e) = lit "manual" /\
              sm_sourceSections (me_sourceMapping e) = []) \/
             (sm_type (me_sourceMapping e) = lit "auto" /\
              exists key,
                sm_sourceSections (me_sourceMapping e) = [key] /\
                key ∈ map fst sectionAliases /\
                exists doc sections,
                  doc ∈ documents /\ extracted_sections doc = Some sections /\
                  is_Some (sections !! key))))
         mapping.
Proof.
  cbv zeta. unfold buildDefaultSectionMapping.
  rewrite (mapping_fold
             (fun templateSection =>
                {| me_templateSectionId := sec_id (section templateSection);
                   me_templateSectionTitle := sec_title (section templateSection);
                   me_sourceMapping :=
                     {| sm_type :=
                          match matchSourceSection toLowerCase
                                  (availableSectionsOf documents) templateSection with
                          | Some _ => lit "auto"
                          | None => lit "manual"
                          end;
                        sm_sourceSections :=
                          match matchSourceSection toLowerCase
                                  (availableSectionsOf documents) templateSection with
                          | Some key => [key]
                          | None => []
                          end;
                        sm_sourceDocuments := [lit "all"] |};
                   me_instructions := [];
                   me_targetLength := lit "medium" |})).
  cbn [app]. split.
  - rewrite map_map. reflexivity.
  - apply Forall_forall. intros e He.
    apply list_elem_of_In, in_map_iff in He as (s & <- & _).
    cbn [me_sourceMapping me_instructions me_targetLength
         sm_type sm_sourceSections sm_sourceDocuments].
    repeat (split; [done|]).
    destruct (matchSourceSection toLowerCase (availableSectionsOf documents) s)
      as [key|] eqn:E; [right | by left].
    split; [done|]. exists key. split; [done|].
    unfold matchSourceSection in E.
    destruct (List.find _ sectionAliases) as [[key' aliases]|] eqn:F; [|done].
    cbn in E. simplify_eq.
    apply find_some in F as [Hin [_ Hav]%andb_true_iff].
    split.
    + apply list_elem_of_In, in_map_iff. by exists (key, aliases).
    + apply bool_decide_eq_true in Hav. unfold availableSectionsOf in Hav.
      apply availableSections_member in Hav as [Hav|Hav]; [|done].
      by apply elem_of_empty in Hav.
Qed.

(* ===================================================================== *)
(** * The fields of a project a request may change                        *)
(* ===================================================================== *)

Lemma filteredUpdates_lookup updates field :
  filteredUpdatesOf updates !! field
  = if bool_decide (field ∈ allowedFields) then updates !! field else None.
Proof.
  unfold filteredUpdatesOf, allowedFields. cbn [fold_left].
  destruct (updates !! "name") as [v1|] eqn:E1;
    destruct (updates !! "section_mapping") as [v2|] eqn:E2;
    destruct (updates !! "global_instructions") as [v3|] eqn:E3;
    destruct (updates !! "document_order") as [v4|] eqn:E4;
    case_bool_decide as Hin;
    repeat (apply elem_of_cons in Hin as [->|Hin]);
    try (by apply elem_of_nil in Hin);
    try (by simplify_map_eq);
    (rewrite ?lookup_insert_ne, ?lookup_empty; [done|..];
     intros ?; subst; apply Hin; set_solver).
Qed.

(** X26. [updateProject] changes nothing but the four fields of its list:
    when it returns, every other field of the row, its [user_id] among
    them, is as it was, every listed field the request carries has the
    value of the request, and the other rows are untouched.  A request
    that carries none of the listed fields is refused. *)
Theorem updateProject_allowed_fields
    (projects : gmap jsstring (gmap string Json)) (projectId userId : jsstring)
    (updates data : gmap string Json) (projects' : gmap jsstring (gmap string Json)) :
  updateProject projects projectId userId updates = Returned (data, projects') ->
  exists row,
    projects !! projectId = Some row /\
    row !! "user_id" = Some (JString userId) /\
    projects' = <[projectId := data]> projects /\
    (forall field, field ∉ allowedFields -> data !! field = row !! field) /\
    (forall field, field ∈ allowedFields ->
                   data !! field = match updates !! field with
                                   | Some value => Some value
                                   | None => row !! field
                                   end) /\
    (exists field, field ∈ allowedFields /\ is_Some (updates !! field)) /\
    (forall other, other <> projectId -> projects' !! other = projects !! other).
Proof.
  unfold updateProject.
  destruct (size (filteredUpdatesOf updates) =? 0)%nat eqn:Hsize; [done|].
  destruct (projects !! projectId) as [row|] eqn:Hrow; [|done].
  destruct (ownedBy row userId) eqn:Hown; [|done].
  intros [= <- <-]. exists row. split; [done|].
  split.
  { unfold ownedBy in Hown. destruct (row !! "user_id") as [[| |owner|]|]; try done.
    apply bool_decide_eq_true in Hown. by subst. }
  split; [done|]. split; [|split; [|split]].
  - intros field Hf. rewrite lookup_union, filteredUpdates_lookup.
    rewrite bool_decide_eq_false_2 by done. by rewrite (left_id None _).
  - intros field Hf. rewrite lookup_union, filteredUpdates_lookup.
    rewrite bool_decide_eq_true_2 by done.
    destruct (updates !! field); [|by rewrite (left_id None _)].
    by destruct (row !! field).
  - apply Nat.eqb_neq in Hsize.
    destruct (map_choose (filteredUpdatesOf updates)) as (field & value & Hf).
    { intros Hempty. apply Hsize. rewrite Hempty. apply map_size_empty. }
    rewrite filteredUpdates_lookup in Hf. case_bool_decide as Hin; [|done].
    exists field. split; [done | by eexists].
  - intros other Ho. by rewrite lookup_insert_ne.
Qed.

Lemma updateProject_allowed_fields_witness :
  exists row,
    sampleProjects !! lit "p1" = Some row /\
    row !! "user_id" = Some (JString (lit "u1")) /\
    sampleProjectData !! "status" = row !! "status".
Proof.
  destruct (updateProject_allowed_fields sampleProjects (lit "p1") (lit "u1")
              sampleProjectUpdates sampleProjectData
              (<[lit "p1" := sampleProjectData]> sampleProjects))
    as (row & Hrow & Hown & _ & Hkept & _).
  { vm_compute. reflexivity. }
  exists row. split; [exact Hrow|]. split; [exact Hown|].
  apply Hkept. unfold allowedFields.
  rewrite !not_elem_of_cons. repeat split; try discriminate.
  apply not_elem_of_nil.
Defined.

Lemma splitChar_chars c s p x : p ∈ splitChar c s -> x ∈ p -> x ∈ s.
Proof.
  revert p. induction s as [|d s IH]; intros p.
  - simpl. intros ->%list_elem_of_singleton Hx. by apply elem_of_nil in Hx.
  - rewrite splitChar_cons. destruct (splitChar_nonempty c s) as (q & qs & Hq).
    rewrite Hq in *. destruct (d =? c).
    + intros [->|Hp]%elem_of_cons Hx; [by apply elem_of_nil in Hx|].
      right. by apply (IH p).
    + intros [->|Hp]%elem_of_cons Hx.
      * apply elem_of_cons in Hx as [->|Hx]; [left|]. right. apply (IH q); [left | done].
      * right. apply (IH p); [by right | done].
Qed.

Lemma includes_three_dashes line :
  includes (lit "---") line = true -> DASH ∈ line.
Proof.
  induction line as [|c line IH]; [done|].
  cbn [includes]. intros [H|H]%orb_true_iff.
  - change (lit "---") with [DASH; DASH; DASH] in H. cbn [startsWith] in H.
    apply andb_true_iff in H as [->%N.eqb_eq _]. left.
  - right. by apply IH.
Qed.

Lemma includesChar_true c s : c ∈ s -> includesChar c s = true.
Proof.
  intros H. destruct (includesChar c s) eqn:E; [done|].
  by apply includesChar_false in E.
Qed.

Lemma parseRow_without_dash line : DASH ∉ line -> parseRow line = cellsOf line.
Proof.
  intros Hline. unfold parseRow, cellsOf.
  apply filter_ext_in_iff. intros cell Hcell%list_elem_of_In.
  apply list_elem_of_fmap in Hcell as (piece & -> & Hpiece).
  unfold allDashes. destruct (trim piece) as [|c cell] eqn:E; [done|].
  cbn [nonEmpty forallb andb negb]. destruct (DASH =? c) eqn:Hc; [|done].
  apply N.eqb_eq in Hc. subst c. exfalso. apply Hline.
  apply (splitChar_chars PIPE line piece); [done|].
  apply trim_chars. rewrite E. left.
Qed.

Lemma body_rows_fold (k : nat) rest :
  Forall (fun line => DASH ∉ line) rest ->
  flat_map
    (fun '(i, line) =>
       if includes (lit "---") line then []
       else
         let cells := List.filter nonEmpty (map trim (splitChar PIPE line)) in
         let isHeader := (i =? 0)%nat in
         [PMElem "tableRow" None
            (Some (map (fun cell =>
                          PMElem (if isHeader then "tableHeader" else "tableCell")
                                 None
                                 (Some [paragraphOf [PMText cell []]]))
                       cells))])
    (imap (fun i line => (S k + i, line)%nat) rest)
  = map (fun line => tableRowNode false (cellsOf line)) rest.
Proof.
  revert k. induction rest as [|line rest IH]; intros k Hrest; [done|].
  apply Forall_cons in Hrest as [Hline Hrest].
  rewrite imap_cons. cbn [flat_map map].
  destruct (includes (lit "---") line) eqn:E.
  { by apply includes_three_dashes in E. }
  cbn [app]. f_equal.
  rewrite <- (IH (S k) Hrest). f_equal. apply imap_ext. intros i l _.
  cbn [compose]. f_equal. lia.
Qed.

(** X27. On a table written the usual way (a heading line, a line of dashes,
    rows without a dash) the parser of the export and the parser of the
    editor read the same cells: the headers are the cells of the first
    line, every later line gives one row of its cells, and the line of
    dashes gives none. *)
Theorem table_parsers_agree (tableText line0 line1 : jsstring) (rest : list jsstring) :
  List.filter nonBlank (splitChar LF (trim tableText)) = line0 :: line1 :: rest ->
  includes (lit "---") line1 = true ->
  DASH ∉ line0 ->
  Forall (fun line => DASH ∉ line) rest ->
  parseMarkdownTable tableText
  = Some {| headers := cellsOf line0; rows := map cellsOf rest |} /\
  parseMarkdownTableToNodes tableText
  = tableRowNode true (cellsOf line0)
    :: map (fun line => tableRowNode false (cellsOf line)) rest.
Proof.
  intros Hlines Hsep Hhead Hrest. split.
  - unfold parseMarkdownTable. rewrite Hlines.
    rewrite (includesChar_true DASH line1) by by apply includes_three_dashes.
    cbn [drop]. f_equal. f_equal; [by apply parseRow_without_dash|].
    apply map_ext_in. intros line Hline%list_elem_of_In.
    apply parseRow_without_dash. by eapply Forall_forall in Hrest.
  - unfold parseMarkdownTableToNodes. rewrite Hlines.
    rewrite !imap_cons. cbn [flat_map compose].
    destruct (includes (lit "---") line0) eqn:E.
    { by apply includes_three_dashes in E. }
    rewrite Hsep. cbn [app Nat.eqb]. f_equal.
    exact (body_rows_fold 1 rest Hrest).
Qed.

Lemma table_parsers_agree_witness :
  parseMarkdownTable tableAB
  = Some {| headers := [lit "A"; lit "B"]; rows := [[lit "1"; lit "2"]] |} /\
  parseMarkdownTableToNodes tableAB
  = [tableRowNode true [lit "A"; lit "B"]; tableRowNode false [lit "1"; lit "2"]].
Proof.
  apply (table_parsers_agree tableAB (lit "| A | B |") (lit "| --- | --- |")
           [lit "| 1 | 2 |"]).
  - vm_compute. reflexivity.
  - vm_compute. reflexivity.
  - apply includesChar_false. vm_compute. reflexivity.
  - apply Forall_cons. split; [|apply Forall_nil_2].
    apply includesChar_false. vm_compute. reflexivity.
Defined.
